(** * Client-side hit resolution and authority reconciliation

    A shallow embedding of the weapon system ([weapon.js]: projectile
    simulation, collider registry, fire-rate gate, ammunition) and of the
    network event handlers of [scene.js] (target hit / destroy / snapshot
    reconciliation), followed by the properties established about them.

    Conventions.
    - JavaScript numbers that carry time, positions or opacities are exact
      rationals ([Q]); ammunition, health and points are integers ([Z]).
    - Every [THREE.Object3D] has an identity ([ObjId]); the objects live in
      a store ([heap]) so that the scene graph, the collider maps and the
      bullet array can alias the same object, as they do in the source.
    - [THREE.Raycaster] and [Vector3.length] (a square root) belong to the
      three.js library: they are the operations of the class [THREE].
    - Console output, sounds, animations, rotations, materials of bullets
      and the debug wireframes do not influence any modelled field and are
      left out. *)

From Stdlib Require Import QArith Lqa ZArith Lia List Sorted.
From stdpp Require Import gmap strings list fin_maps.
Import ListNotations.

(* ===================================================================== *)
(** * Part I: the weapon system ([weapon.js]) *)
(* ===================================================================== *)

Module Weapon.

(** ** Vectors *)

Record Vector3 := mkVector3 { vx : Q; vy : Q; vz : Q }.

Definition vzero : Vector3 := mkVector3 0 0 0.

(** [a.add(b)] *)
Definition add (a b : Vector3) : Vector3 :=
  mkVector3 (vx a + vx b) (vy a + vy b) (vz a + vz b).

(** [new Vector3().subVectors(a, b)] *)
Definition subVectors (a b : Vector3) : Vector3 :=
  mkVector3 (vx a - vx b) (vy a - vy b) (vz a - vz b).

(** [v.multiplyScalar(s)] *)
Definition multiplyScalar (v : Vector3) (s : Q) : Vector3 :=
  mkVector3 (vx v * s) (vy v * s) (vz v * s).

(** Component-wise rational equality of two points. *)
Definition veq (a b : Vector3) : Prop :=
  (vx a == vx b)%Q /\ (vy a == vy b)%Q /\ (vz a == vz b)%Q.

(** ** Scene objects *)

Definition ObjId := nat.

(** A [THREE.Object3D] with the [userData] flags the weapon code reads.
    [boxSize] holds the extents of its geometry; [underWeaponModel] says
    that walking up the parent chain reaches [this.model] (second half of
    [isWeaponMesh]); [onHit] says that [userData.onHit] is defined. The
    scene graph is flat: a traversal visits [scene] in order. *)
Record Object3D := mkObject3D {
  isMesh : bool;
  position : Vector3;
  boxSize : Vector3;
  visible : bool;
  isWeapon : bool;
  underWeaponModel : bool;
  isBullet : bool;
  isBulletCollider : bool;
  isTargetCollider : bool;
  isTarget : bool;
  parentTarget : option ObjId;
  parentBullet : option ObjId;
  onHit : bool
}.

(** A freshly constructed mesh: visible, no flags. *)
Definition newMesh (p size : Vector3) : Object3D :=
  mkObject3D true p size true false false false false false false None None false.

#[export] Instance Object3D_inhabited : Inhabited Object3D :=
  populate (newMesh vzero vzero).

Definition with_position (p : Vector3) (o : Object3D) : Object3D :=
  mkObject3D (isMesh o) p (boxSize o) (visible o) (isWeapon o)
    (underWeaponModel o) (isBullet o) (isBulletCollider o)
    (isTargetCollider o) (isTarget o) (parentTarget o) (parentBullet o)
    (onHit o).

Definition with_isTarget (b : bool) (o : Object3D) : Object3D :=
  mkObject3D (isMesh o) (position o) (boxSize o) (visible o) (isWeapon o)
    (underWeaponModel o) (isBullet o) (isBulletCollider o)
    (isTargetCollider o) b (parentTarget o) (parentBullet o) (onHit o).

(** [isWeaponMesh(mesh)] *)
Definition isWeaponMesh (o : Object3D) : bool :=
  isWeapon o || isBullet o || underWeaponModel o.

(** ** Rays and the three.js interface *)

Record Ray := mkRay {
  origin : Vector3;
  direction : Vector3;
  near : Q;
  far : Q
}.

Record Intersection := mkIntersection {
  distance : Q;
  point : Vector3;
  object : ObjId;
  faceNormal : Vector3
}.

(** The two library operations the weapon relies on: [Vector3.length] and
    [Raycaster.intersectObjects(objects, recursive)], which reads the
    geometry of the listed objects from the store and returns the
    intersections nearest first. *)
Class THREE := {
  vlength : Vector3 -> Q;
  intersectObjects :
    gmap ObjId Object3D -> Ray -> list ObjId -> bool -> list Intersection
}.

(** [v.normalize()], i.e. [divideScalar(length() || 1)] *)
Definition normalize {T : THREE} (v : Vector3) : Vector3 :=
  let l := vlength v in
  multiplyScalar v (1 / (if Qeq_bool l 0 then 1 else l)).

(** [ray.at(t)] *)
Definition rayAt (r : Ray) (t : Q) : Vector3 :=
  add (origin r) (multiplyScalar (direction r) t).

(** ** Weapon state *)

(** An entry of [activeBullets]; its identity is that of its mesh. *)
Record Bullet := mkBullet {
  mesh : ObjId;
  velocity : Vector3;
  life : Q
}.

(** Callbacks into the collaborators: [onAmmoChange(mag, total)] of the
    HUD and [target.userData.onHit(hitInfo)] of the target system. *)
Inductive Event :=
  | AmmoChange (mag total : Z)
  | TargetHit (target : ObjId) (hit : Intersection).

Record State := mkState {
  heap : gmap ObjId Object3D;
  nextId : ObjId;
  scene : list ObjId;
  activeBullets : list Bullet;
  bulletColliders : gmap ObjId ObjId;
  targetColliders : list (ObjId * ObjId);
  isLoaded : bool;
  isShooting : bool;
  shootTimer : Q;
  magAmmo : Z;
  maxAmmo : Z;
  totalAmmo : Z;
  scanCounter : nat;
  onAmmoChange : bool;
  events : list Event
}.

Definition bulletSpeed : Q := 100.
Definition bulletLifetime : Q := 3.
Definition maxBulletTrails : nat := 50.
Definition fireRate : Q := 0.1.

(** The state built by the constructor, before [init] has finished. *)
Definition constructed : State :=
  mkState ∅ 0 [] [] ∅ [] false false 0 30 30 1200 0 false [].

Definition set_heap (h : gmap ObjId Object3D) (w : State) : State :=
  mkState h (nextId w) (scene w) (activeBullets w) (bulletColliders w)
    (targetColliders w) (isLoaded w) (isShooting w) (shootTimer w)
    (magAmmo w) (maxAmmo w) (totalAmmo w) (scanCounter w) (onAmmoChange w)
    (events w).

Definition set_nextId (n : ObjId) (w : State) : State :=
  mkState (heap w) n (scene w) (activeBullets w) (bulletColliders w)
    (targetColliders w) (isLoaded w) (isShooting w) (shootTimer w)
    (magAmmo w) (maxAmmo w) (totalAmmo w) (scanCounter w) (onAmmoChange w)
    (events w).

Definition set_scene (s : list ObjId) (w : State) : State :=
  mkState (heap w) (nextId w) s (activeBullets w) (bulletColliders w)
    (targetColliders w) (isLoaded w) (isShooting w) (shootTimer w)
    (magAmmo w) (maxAmmo w) (totalAmmo w) (scanCounter w) (onAmmoChange w)
    (events w).

Definition set_activeBullets (bs : list Bullet) (w : State) : State :=
  mkState (heap w) (nextId w) (scene w) bs (bulletColliders w)
    (targetColliders w) (isLoaded w) (isShooting w) (shootTimer w)
    (magAmmo w) (maxAmmo w) (totalAmmo w) (scanCounter w) (onAmmoChange w)
    (events w).

Definition set_bulletColliders (m : gmap ObjId ObjId) (w : State) : State :=
  mkState (heap w) (nextId w) (scene w) (activeBullets w) m
    (targetColliders w) (isLoaded w) (isShooting w) (shootTimer w)
    (magAmmo w) (maxAmmo w) (totalAmmo w) (scanCounter w) (onAmmoChange w)
    (events w).

Definition set_targetColliders (m : list (ObjId * ObjId)) (w : State) : State :=
  mkState (heap w) (nextId w) (scene w) (activeBullets w) (bulletColliders w)
    m (isLoaded w) (isShooting w) (shootTimer w)
    (magAmmo w) (maxAmmo w) (totalAmmo w) (scanCounter w) (onAmmoChange w)
    (events w).

Definition set_isLoaded (b : bool) (w : State) : State :=
  mkState (heap w) (nextId w) (scene w) (activeBullets w) (bulletColliders w)
    (targetColliders w) b (isShooting w) (shootTimer w)
    (magAmmo w) (maxAmmo w) (totalAmmo w) (scanCounter w) (onAmmoChange w)
    (events w).

Definition set_isShooting (b : bool) (w : State) : State :=
  mkState (heap w) (nextId w) (scene w) (activeBullets w) (bulletColliders w)
    (targetColliders w) (isLoaded w) b (shootTimer w)
    (magAmmo w) (maxAmmo w) (totalAmmo w) (scanCounter w) (onAmmoChange w)
    (events w).

Definition set_shootTimer (t : Q) (w : State) : State :=
  mkState (heap w) (nextId w) (scene w) (activeBullets w) (bulletColliders w)
    (targetColliders w) (isLoaded w) (isShooting w) t
    (magAmmo w) (maxAmmo w) (totalAmmo w) (scanCounter w) (onAmmoChange w)
    (events w).

Definition set_ammo (mag total : Z) (w : State) : State :=
  mkState (heap w) (nextId w) (scene w) (activeBullets w) (bulletColliders w)
    (targetColliders w) (isLoaded w) (isShooting w) (shootTimer w)
    mag (maxAmmo w) total (scanCounter w) (onAmmoChange w)
    (events w).

Definition set_scanCounter (n : nat) (w : State) : State :=
  mkState (heap w) (nextId w) (scene w) (activeBullets w) (bulletColliders w)
    (targetColliders w) (isLoaded w) (isShooting w) (shootTimer w)
    (magAmmo w) (maxAmmo w) (totalAmmo w) n (onAmmoChange w)
    (events w).

Definition emit (e : Event) (w : State) : State :=
  mkState (heap w) (nextId w) (scene w) (activeBullets w) (bulletColliders w)
    (targetColliders w) (isLoaded w) (isShooting w) (shootTimer w)
    (magAmmo w) (maxAmmo w) (totalAmmo w) (scanCounter w) (onAmmoChange w)
    (events w ++ [e]).

(** ** Store and scene graph *)

(** Dereference of an object held in a JavaScript variable. *)
Definition getObj (w : State) (id : ObjId) : Object3D := heap w !!! id.

(** [new THREE.Mesh(...)]: a fresh identity. *)
Definition alloc (o : Object3D) (w : State) : ObjId * State :=
  (nextId w, set_nextId (S (nextId w)) (set_heap (<[nextId w := o]> (heap w)) w)).

(** [obj.position.copy(p)] *)
Definition setPosition (id : ObjId) (p : Vector3) (w : State) : State :=
  set_heap (<[id := with_position p (getObj w id)]> (heap w)) w.

(** [scene.remove(obj)] *)
Definition sceneRemove (id : ObjId) (w : State) : State :=
  set_scene (List.filter (fun x => negb (Nat.eqb x id)) (scene w)) w.

(** [scene.add(obj)]: detaches the object from its parent, then appends. *)
Definition sceneAdd (id : ObjId) (w : State) : State :=
  set_scene (List.filter (fun x => negb (Nat.eqb x id)) (scene w) ++ [id]) w.

(** [obj.parent] is set: the object is attached to the scene. *)
Definition inScene (w : State) (id : ObjId) : bool :=
  existsb (Nat.eqb id) (scene w).

(** ** JavaScript [Map] with insertion order ([targetColliders]) *)

Definition mapGet (k : ObjId) (m : list (ObjId * ObjId)) : option ObjId :=
  snd <$> List.find (fun e => Nat.eqb (fst e) k) m.

Definition mapHas (k : ObjId) (m : list (ObjId * ObjId)) : bool :=
  existsb (fun e => Nat.eqb (fst e) k) m.

Definition mapDelete (k : ObjId) (m : list (ObjId * ObjId)) : list (ObjId * ObjId) :=
  List.filter (fun e => negb (Nat.eqb (fst e) k)) m.

(** [m.set(k, v)]: an existing key keeps its place. *)
Definition mapSet (k v : ObjId) (m : list (ObjId * ObjId)) : list (ObjId * ObjId) :=
  if mapHas k m
  then List.map (fun e => if Nat.eqb (fst e) k then (k, v) else e) m
  else m ++ [(k, v)].

(** ** Ammunition *)

(** [reload()] *)
Definition reload (w : State) : State :=
  if (maxAmmo w <=? magAmmo w)%Z || (totalAmmo w <=? 0)%Z then w
  else
    let bulletsNeeded := (maxAmmo w - magAmmo w)%Z in
    let bulletsToReload := Z.min bulletsNeeded (totalAmmo w) in
    let w := set_ammo (magAmmo w + bulletsToReload)
                      (totalAmmo w - bulletsToReload) w in
    if onAmmoChange w then emit (AmmoChange (magAmmo w) (totalAmmo w)) w
    else w.

(** [addAmmo(amount)] *)
Definition addAmmo (amount : Z) (w : State) : State :=
  let w := set_ammo (magAmmo w) (Z.min (totalAmmo w + amount) 300) w in
  if onAmmoChange w then emit (AmmoChange (magAmmo w) (totalAmmo w)) w
  else w.

(** [getAmmoCount()] *)
Definition getAmmoCount (w : State) : Z * Z := (magAmmo w, totalAmmo w).

(** ** Bullet colliders *)

(** [createBulletCollider(bullet)] *)
Definition createBulletCollider (bullet : ObjId) (w : State) : State :=
  let c := mkObject3D true (position (getObj w bullet)) (mkVector3 5 5 5) true
             false false false true false false None (Some bullet) false in
  let '(collider, w) := alloc c w in
  let w := sceneAdd collider w in
  set_bulletColliders (<[bullet := collider]> (bulletColliders w)) w.

(** [removeBulletCollider(bullet)] *)
Definition removeBulletCollider (bullet : ObjId) (w : State) : State :=
  match bulletColliders w !! bullet with
  | Some collider =>
      let w := sceneRemove collider w in
      set_bulletColliders (delete bullet (bulletColliders w)) w
  | None => w
  end.

(** ** Target colliders *)

(** [createTargetCollider(target, size)]: a box at the target's position,
    raised by one unit. *)
Definition createTargetCollider (target : ObjId) (size : Vector3) (w : State)
  : State :=
  let p := position (getObj w target) in
  let c := mkObject3D true (mkVector3 (vx p) (vy p + 1) (vz p)) size true
             false false false false true false (Some target) None false in
  let '(collider, w) := alloc c w in
  let w := sceneAdd collider w in
  set_targetColliders (mapSet target collider (targetColliders w)) w.

(** [removeTargetCollider(target)] *)
Definition removeTargetCollider (target : ObjId) (w : State) : State :=
  match mapGet target (targetColliders w) with
  | Some collider =>
      let w := sceneRemove collider w in
      set_targetColliders (mapDelete target (targetColliders w)) w
  | None => w
  end.

(** [registerTarget(target, colliderSize)] *)
Definition registerTarget (target : ObjId) (colliderSize : Vector3) (w : State)
  : State :=
  let w := set_heap (<[target := with_isTarget true (getObj w target)]> (heap w)) w in
  createTargetCollider target colliderSize w.

(** [unregisterTarget(target)] *)
Definition unregisterTarget (target : ObjId) (w : State) : State :=
  let w := removeTargetCollider target w in
  set_heap (<[target := with_isTarget false (getObj w target)]> (heap w)) w.

(** [scanForNewTargets()]: the traversal visits the children present when
    it starts; every flagged target without a collider gets one of the
    fixed size 2 x 2 x 4. *)
Definition scanForNewTargets (w : State) : State :=
  fold_left
    (fun w child =>
       if isTarget (getObj w child) then
         if mapHas child (targetColliders w) then w
         else createTargetCollider child (mkVector3 2 2 4) w
       else w)
    (scene w) w.

(** [updateTargetColliders()]: colliders follow targets that are still
    attached to the scene; the others are removed. *)
Definition updateTargetColliders (w : State) : State :=
  fold_left
    (fun w e =>
       let '(target, collider) := e in
       if inScene w target then
         let p := position (getObj w target) in
         setPosition collider (mkVector3 (vx p) (vy p + 1) (vz p)) w
       else removeTargetCollider target w)
    (targetColliders w) w.

(** ** Projectiles *)

(** [createBulletTrail(startPos, direction)]; no caller uses the bullet
    object it returns. *)
Definition createBulletTrail (startPos direction : Vector3) (w : State)
  : State :=
  let b := mkObject3D true startPos vzero true
             false false true false false false None None false in
  let '(bullet, w) := alloc b w in
  let w := sceneAdd bullet w in
  let w := createBulletCollider bullet w in
  let bulletObj :=
    mkBullet bullet (multiplyScalar direction bulletSpeed) bulletLifetime in
  let w := set_activeBullets (activeBullets w ++ [bulletObj]) w in
  if (maxBulletTrails <? length (activeBullets w))%nat then
    match activeBullets w with
    | oldBullet :: rest =>
        let w := set_activeBullets rest w in
        sceneRemove (mesh oldBullet) w
    | [] => w
    end
  else w.

(** [activeBullets.indexOf(bullet)] *)
Definition indexOf (bullet : Bullet) (bs : list Bullet) : option nat :=
  fst <$> list_find (fun b => mesh b = mesh bullet) bs.

(** [onTargetHit(target, hitInfo)] *)
Definition onTargetHit (target : ObjId) (hitInfo : Intersection) (w : State)
  : State :=
  if onHit (getObj w target) then emit (TargetHit target hitInfo) w else w.

(** The colliders handed to the ray caster: the values of
    [targetColliders], in insertion order, whose [visible] is not false. *)
Definition targetColliderList (w : State) : list ObjId :=
  List.filter (fun c => visible (getObj w c)) (List.map snd (targetColliders w)).

(** The meshes collected by the environment traversal. *)
Definition environmentTargets (w : State) : list ObjId :=
  List.filter
    (fun id =>
       let child := getObj w id in
       isMesh child && negb (isWeaponMesh child) && negb (isBullet child)
       && negb (isBulletCollider child) && negb (isTargetCollider child)
       && negb (isTarget child))
    (scene w).

(** The ray from the previous to the current position, limited to the
    distance travelled. *)
Definition sweepRay {T : THREE} (prevPosition pos : Vector3) : Ray :=
  let direction := subVectors pos prevPosition in
  mkRay prevPosition (normalize direction) 0 (vlength direction).

(** The common tail of both hit branches: snap to the hit point and remove
    the bullet. *)
Definition snapToHit (bullet : Bullet) (bulletCollider : ObjId)
    (hit : Intersection) (w : State) : State :=
  let w := setPosition (mesh bullet) (point hit) w in
  setPosition bulletCollider (point hit) w.

Definition removeAfterHit (bullet : Bullet) (w : State) : State :=
  let w := removeBulletCollider (mesh bullet) w in
  let w := sceneRemove (mesh bullet) w in
  match indexOf bullet (activeBullets w) with
  | Some bulletIndex =>
      set_activeBullets (delete bulletIndex (activeBullets w)) w
  | None => w
  end.

(** [checkBulletColliderCollision(bullet, prevPosition)] *)
Definition checkBulletColliderCollision {T : THREE}
    (bullet : Bullet) (prevPosition : Vector3) (w : State) : State * bool :=
  match bulletColliders w !! mesh bullet with
  | None => (w, false)
  | Some bulletCollider =>
      let direction := subVectors (position (getObj w (mesh bullet))) prevPosition in
      let distance := vlength direction in
      if Qeq_bool distance 0 then (w, false)
      else
        let raycaster :=
          sweepRay prevPosition (position (getObj w (mesh bullet))) in
        match intersectObjects (heap w) raycaster (targetColliderList w) false with
        | hit :: _ =>
            let parentTarget := parentTarget (getObj w (object hit)) in
            let w := snapToHit bullet bulletCollider hit w in
            let w :=
              match parentTarget with
              | Some t => if isTarget (getObj w t) then onTargetHit t hit w else w
              | None => w
              end in
            (removeAfterHit bullet w, true)
        | [] =>
            match intersectObjects (heap w) raycaster (environmentTargets w) true with
            | hit :: _ =>
                let w := snapToHit bullet bulletCollider hit w in
                (removeAfterHit bullet w, true)
            | [] => (w, false)
            end
        end
  end.

(** [bullet.life -= deltaTime] on the bullet object, wherever the array
    still refers to it. *)
Definition setLife (m : ObjId) (l : Q) (bs : list Bullet) : list Bullet :=
  List.map (fun b => if Nat.eqb (mesh b) m then mkBullet (mesh b) (velocity b) l else b) bs.

(** The body of the loop of [updateBullets] for index [i], where
    [bullet = activeBullets[i]]. *)
Definition bulletStep {T : THREE} (i : nat) (bullet : Bullet) (deltaTime : Q)
    (w : State) : State :=
  let prevPosition := position (getObj w (mesh bullet)) in
  let w := setPosition (mesh bullet)
             (add prevPosition (multiplyScalar (velocity bullet) deltaTime)) w in
  let w :=
    match bulletColliders w !! mesh bullet with
    | Some collider => setPosition collider (position (getObj w (mesh bullet))) w
    | None => w
    end in
  let w := fst (checkBulletColliderCollision bullet prevPosition w) in
  let life' := (life bullet - deltaTime)%Q in
  let w := set_activeBullets (setLife (mesh bullet) life' (activeBullets w)) w in
  if Qle_bool life' 0 then
    let w := removeBulletCollider (mesh bullet) w in
    let w := sceneRemove (mesh bullet) w in
    set_activeBullets (delete i (activeBullets w)) w
  else w.

(** [for (let i = k - 1; i >= 0; i--)]. Reading [activeBullets[i]] beyond
    the end of the array gives [undefined], whose [mesh] cannot be read:
    the exception is the result [None]. *)
Fixpoint updateBulletsFrom {T : THREE} (k : nat) (deltaTime : Q) (w : State)
  : option State :=
  match k with
  | O => Some w
  | S i =>
      match activeBullets w !! i with
      | Some bullet => updateBulletsFrom i deltaTime (bulletStep i bullet deltaTime w)
      | None => None
      end
  end.

(** [updateBullets(deltaTime)] *)
Definition updateBullets {T : THREE} (deltaTime : Q) (w : State) : option State :=
  updateBulletsFrom (length (activeBullets w)) deltaTime w.

(** ** Shooting *)

(** What a shot reads from the camera and the weapon model:
    [getGunMuzzlePosition()] and [camera.getWorldDirection()]. *)
Record Aim := mkAim {
  muzzlePos : Vector3;
  worldDirection : Vector3
}.

(** [startShooting()] *)
Definition startShooting (w : State) : State :=
  if negb (isLoaded w) then w
  else set_shootTimer 0 (set_isShooting true w).

(** [stopShooting()] *)
Definition stopShooting (w : State) : State := set_isShooting false w.

(** [shoot()] *)
Definition shoot {T : THREE} (aim : Aim) (w : State) : State * bool :=
  if (magAmmo w <=? 0)%Z then (reload w, false)
  else
    let w := set_ammo (magAmmo w - 1) (totalAmmo w) w in
    let shootDirection := normalize (worldDirection aim) in
    let w := createBulletTrail (muzzlePos aim) shootDirection w in
    let w := if onAmmoChange w
             then emit (AmmoChange (magAmmo w) (totalAmmo w)) w else w in
    (w, true).

(** [update(deltaTime)] *)
Definition update {T : THREE} (aim : Aim) (deltaTime : Q) (w : State)
  : option State :=
  if negb (isLoaded w) then Some w
  else
    let w := set_scanCounter (S (scanCounter w)) w in
    let w := if (scanCounter w mod 60 =? 0)%nat then scanForNewTargets w else w in
    match updateBullets deltaTime w with
    | None => None
    | Some w =>
        let w := updateTargetColliders w in
        let w :=
          if isShooting w && Qle_bool (shootTimer w) 0 then
            let '(w, fired) := shoot aim w in
            if fired then set_shootTimer fireRate w else w
          else w in
        let w :=
          if negb (Qle_bool (shootTimer w) 0)
          then set_shootTimer (shootTimer w - deltaTime)%Q w else w in
        Some w
    end.

(** [init()] once the models are loaded. *)
Definition init (w : State) : State :=
  scanForNewTargets (set_isLoaded true w).

(** ** Box geometry and reference ray casters

    Whether a point lies in the box of a collider (a [BoxGeometry] of the
    given size centred on the object's position), and an exact ray caster
    for such boxes (the slab method), used to run the model on concrete
    scenes. Its length is the taxicab length, which agrees with the
    Euclidean one on axis-parallel vectors. *)

Definition inBoxb (o : Object3D) (p : Vector3) : bool :=
  Qle_bool (vx (position o) - vx (boxSize o) / 2) (vx p)
  && Qle_bool (vx p) (vx (position o) + vx (boxSize o) / 2)
  && Qle_bool (vy (position o) - vy (boxSize o) / 2) (vy p)
  && Qle_bool (vy p) (vy (position o) + vy (boxSize o) / 2)
  && Qle_bool (vz (position o) - vz (boxSize o) / 2) (vz p)
  && Qle_bool (vz p) (vz (position o) + vz (boxSize o) / 2).

Definition qabs (q : Q) : Q := if Qle_bool 0 q then q else (- q)%Q.
Definition qmin (a b : Q) : Q := if Qle_bool a b then a else b.
Definition qmax (a b : Q) : Q := if Qle_bool a b then b else a.

Definition taxicab (v : Vector3) : Q := (qabs (vx v) + qabs (vy v) + qabs (vz v))%Q.

(** One axis of the slab method: the parameters [t] of [iv] at which
    [lo <= o + d * t <= hi]. *)
Definition slab (o d lo hi : Q) (iv : option (Q * Q)) : option (Q * Q) :=
  match iv with
  | None => None
  | Some (a, b) =>
      if Qeq_bool d 0 then
        if Qle_bool lo o && Qle_bool o hi then Some (a, b) else None
      else
        let t1 := ((lo - o) / d)%Q in
        let t2 := ((hi - o) / d)%Q in
        let a' := qmax a (qmin t1 t2) in
        let b' := qmin b (qmax t1 t2) in
        if Qle_bool a' b' then Some (a', b') else None
  end.

Definition boxSpan (r : Ray) (o : Object3D) : option (Q * Q) :=
  let c := position o in
  let s := boxSize o in
  slab (vz (origin r)) (vz (direction r)) (vz c - vz s / 2)%Q (vz c + vz s / 2)%Q
    (slab (vy (origin r)) (vy (direction r)) (vy c - vy s / 2)%Q (vy c + vy s / 2)%Q
       (slab (vx (origin r)) (vx (direction r)) (vx c - vx s / 2)%Q (vx c + vx s / 2)%Q
          (if Qle_bool (near r) (far r) then Some (near r, far r) else None))).

Fixpoint insertHit (h : Intersection) (hs : list Intersection) : list Intersection :=
  match hs with
  | [] => [h]
  | h' :: rest =>
      if Qle_bool (distance h') (distance h) then h' :: insertHit h rest
      else h :: hs
  end.

Fixpoint boxIntersect (hp : gmap ObjId Object3D) (r : Ray) (ids : list ObjId)
  : list Intersection :=
  match ids with
  | [] => []
  | id :: rest =>
      match boxSpan r (hp !!! id) with
      | Some (t, _) =>
          insertHit (mkIntersection t (rayAt r t) id vzero) (boxIntersect hp r rest)
      | None => boxIntersect hp r rest
      end
  end.

Definition boxCaster : THREE :=
  {| vlength := taxicab;
     intersectObjects := fun hp r ids _ => boxIntersect hp r ids |}.

(** [Mesh.raycast] of three.js tests the triangles of a geometry with
    back-face culling unless the material is double-sided, and the
    materials of the colliders ([createTargetCollider]) set no [side]: a
    box is reported at the point where the ray enters it, and not at all
    when the ray starts inside it. [frontFaceCaster] is [boxCaster] with
    that restriction. *)
Definition startsOutside (hp : gmap ObjId Object3D) (r : Ray) (id : ObjId)
  : bool :=
  negb (inBoxb (hp !!! id) (rayAt r (near r))).

Definition frontFaceCaster : THREE :=
  {| vlength := taxicab;
     intersectObjects := fun hp r ids _ =>
       boxIntersect hp r (List.filter (startsOutside hp r) ids) |}.

(** ** Input events

    The mouse listeners of [setupInput] call [startShooting] and
    [stopShooting]; the animation loop calls [update] once per frame. *)

Inductive Input :=
  | MouseDown
  | MouseUp
  | Frame (deltaTime : Q).

Definition step {T : THREE} (aim : Aim) (i : Input) (w : State) : option State :=
  match i with
  | MouseDown => Some (startShooting w)
  | MouseUp => Some (stopShooting w)
  | Frame deltaTime => update aim deltaTime w
  end.

Fixpoint run {T : THREE} (aim : Aim) (inputs : list Input) (w : State)
  : option State :=
  match inputs with
  | [] => Some w
  | i :: rest =>
      match step aim i w with
      | Some w' => run aim rest w'
      | None => None
      end
  end.

Definition isMouseDown (i : Input) : bool :=
  match i with MouseDown => true | _ => false end.

(** The simulated time that passes during the inputs. *)
Fixpoint elapsed (inputs : list Input) : Q :=
  match inputs with
  | [] => 0
  | Frame deltaTime :: rest => (deltaTime + elapsed rest)%Q
  | _ :: rest => elapsed rest
  end.

Definition nonnegFrame (i : Input) : Prop :=
  match i with Frame deltaTime => (0 <= deltaTime)%Q | _ => True end.

(** ** Vocabulary of the statements *)

(** The meshes of the bullets in flight, in array order. *)
Definition meshes (w : State) : list ObjId := List.map mesh (activeBullets w).

(** Bullets are pushed in order of creation and identities are allocated
    in increasing order: the array is chronological when the mesh
    identities increase along it and lie below the next identity. *)
Definition chronological (w : State) : Prop :=
  StronglySorted lt (meshes w) /\ Forall (fun m => m < nextId w) (meshes w).

(** Every bullet in flight has a collider, and the meshes in flight are
    distinct objects allocated earlier. *)
Definition armed (w : State) : Prop :=
  NoDup (meshes w)
  /\ forall m, In m (meshes w) ->
                is_Some (bulletColliders w !! m) /\ m < nextId w.

(** The bullet object built by [createBulletTrail]. *)
Definition newBullet (direction : Vector3) (w : State) : Bullet :=
  mkBullet (nextId w) (multiplyScalar direction bulletSpeed) bulletLifetime.

(** The fields of the trigger and of the ammunition. *)
Definition gun (w : State) : bool * bool * Q * Z * Z * Z * bool :=
  (isLoaded w, isShooting w, shootTimer w, magAmmo w, maxAmmo w, totalAmmo w,
   onAmmoChange w).

(** The fields no collider operation touches. *)
Definition core (w : State) :=
  (activeBullets w, bulletColliders w, events w, gun w).

(** [l'] is [l] with at most one element spliced out. *)
Definition splicedFrom {A} (l' l : list A) : Prop :=
  l' = l \/ exists i, i < length l /\ l' = delete i l.

(** The result of the target branch of [checkBulletColliderCollision] for
    the nearest target intersection [hit]: it mentions neither the
    environment nor the ray caster. *)
Definition resolveTargetHit (bullet : Bullet) (bulletCollider : ObjId)
    (hit : Intersection) (w : State) : State :=
  let parentTarget := parentTarget (getObj w (object hit)) in
  let w := snapToHit bullet bulletCollider hit w in
  let w :=
    match parentTarget with
    | Some t => if isTarget (getObj w t) then onTargetHit t hit w else w
    | None => w
    end in
  removeAfterHit bullet w.

(** The first statements of the loop body of [updateBullets]: the bullet
    moves by [velocity * deltaTime] and its collider follows. *)
Definition advance (bullet : Bullet) (deltaTime : Q) (w : State) : State :=
  let prevPosition := position (getObj w (mesh bullet)) in
  let w := setPosition (mesh bullet)
             (add prevPosition (multiplyScalar (velocity bullet) deltaTime)) w in
  match bulletColliders w !! mesh bullet with
  | Some collider => setPosition collider (position (getObj w (mesh bullet))) w
  | None => w
  end.

(** Where the bullet is before and after the frame. *)
Definition positionOf (bullet : Bullet) (w : State) : Vector3 :=
  position (getObj w (mesh bullet)).

Definition nextPosition (bullet : Bullet) (deltaTime : Q) (w : State) : Vector3 :=
  add (positionOf bullet w) (multiplyScalar (velocity bullet) deltaTime).

(** The point reached after the fraction [s] of the way from [a] to [b]. *)
Definition segmentPoint (a b : Vector3) (s : Q) : Vector3 :=
  add a (multiplyScalar (subVectors b a) s).

(** ** Sample states *)

(** A loaded weapon in an empty scene, aiming along the x axis. *)
Definition loaded : State := init constructed.

Definition ahead : Aim := mkAim vzero (mkVector3 1 0 0).

(** One bullet created at the origin, heading along the x axis. *)
Definition fireOnce : State -> State :=
  createBulletTrail vzero (mkVector3 1 0 0).

(** Two presses of the trigger one 16 ms frame apart. *)
Definition doubleTap : list Input :=
  [MouseDown; Frame 0.016; MouseUp; MouseDown; Frame 0.016].

(** The trigger held through three more frames and released. *)
Definition heldFrames : list Input :=
  [Frame 0.016; Frame 0.016; MouseUp; Frame 0.016].

(** An object put into the scene by the rest of the program. *)
Definition place (o : Object3D) (w : State) : ObjId * State :=
  let '(id, w) := alloc o w in (id, sceneAdd id w).

(** A target standing at x = 5 behind a wall at x = 3, and a bullet that
    has just moved from the origin to x = 10. *)
Definition behindWall : State :=
  let target :=
    mkObject3D false (mkVector3 5 (-1) 0) vzero true
      false false false false false true None None true in
  let wall := newMesh (mkVector3 3 0 0) (mkVector3 0.2 10 10) in
  let '(t, w) := place target loaded in
  let w := registerTarget t (mkVector3 2 2 4) w in
  let '(_, w) := place wall w in
  createBulletTrail (mkVector3 10 0 0) (mkVector3 1 0 0) w.

(** A thin collider (half-width 0.05) at x = 1 and a bullet at the origin
    about to move 2 units in one frame of 20 ms. *)
Definition thinCollider : State :=
  let target :=
    mkObject3D false (mkVector3 1 (-1) 0) vzero true
      false false false false false true None None true in
  let '(t, w) := place target loaded in
  let w := registerTarget t (mkVector3 0.1 2 4) w in
  createBulletTrail vzero (mkVector3 1 0 0) w.

(** A thin collider (half-width 0.05) around the muzzle, and a bullet just
    created at the muzzle: it starts inside the collider and is about to
    move 2 units in one frame of 20 ms. *)
Definition pointBlank : State :=
  let target :=
    mkObject3D false (mkVector3 0 (-1) 0) vzero true
      false false false false false true None None true in
  let '(t, w) := place target loaded in
  let w := registerTarget t (mkVector3 0.1 2 4) w in
  createBulletTrail vzero (mkVector3 1 0 0) w.

(** A thin collider at x = 250, and a burst of two shots in frames of one
    second: the first bullet will meet the collider in the frame in which
    its life of three seconds runs out. *)
Definition range250 : State :=
  let target :=
    mkObject3D false (mkVector3 250 (-1) 0) vzero true
      false false false false false true None None true in
  let '(t, w) := place target loaded in
  registerTarget t (mkVector3 0.1 2 4) w.

Definition burst : list Input :=
  [MouseDown; Frame 1; Frame 1; MouseUp; Frame 1].

(** The bullets of the two scenes above. *)
Definition wallBullet : Bullet := mkBullet 3 (mkVector3 100 0 0) 3.
Definition fastBullet : Bullet := mkBullet 2 (mkVector3 100 0 0) 3.

(** A weapon whose bullet array is at the cap. *)
Definition atCap : State := Nat.iter maxBulletTrails fireOnce loaded.

End Weapon.


(* ===================================================================== *)
(** * Part II: network event handlers ([scene.js]) *)
(* ===================================================================== *)

Module Scene.

Import Weapon.

(** ** Event payloads *)

(** An entry of [gameState.targets], also the payload of [targetSpawned].
    Optional JSON fields are options. *)
Record TargetData := mkTargetData {
  td_id : string;
  td_position : Vector3;
  td_scale : option Q;
  td_health : Z;
  td_maxHealth : option Z;
  td_points : Z;
  td_rotation : option Vector3;
  td_isAlive : bool
}.

Record PlayerData := mkPlayerData {
  pd_id : string;
  pd_position : Vector3
}.

Record GameState := mkGameState {
  gs_players : list PlayerData;
  gs_targets : list TargetData
}.

(** [targetHit{targetId, playerId, damage, health}] *)
Record HitData := mkHitData {
  hit_targetId : string;
  hit_playerId : string;
  hit_damage : Z;
  hit_health : Z
}.

(** [targetDestroyed{targetId, playerId, points}] *)
Record DestroyData := mkDestroyData {
  dd_targetId : string;
  dd_playerId : string;
  dd_points : Z
}.

(** ** Local targets *)

Record Material := mkMaterial {
  opacity : Q;
  transparent : bool
}.

(** A node visited by [target.traverse]. *)
Record Child := mkChild {
  childIsMesh : bool;
  material : option Material;
  originalOpacity : option Q
}.

(** A target object with its [userData]. *)
Record Target := mkTarget {
  targetId : string;
  health : Z;
  maxHealth : option Z;
  points : Z;
  locallyDestroyed : bool;
  targetPosition : Vector3;
  targetScale : Q;
  targetRotation : option Vector3;
  children : list Child
}.

(** The option object passed to [createTarget]. *)
Record TargetOptions := mkTargetOptions {
  opt_scale : Q;
  opt_health : Z;
  opt_points : Z;
  opt_rotation : option Vector3;
  opt_targetId : string
}.

(** The fields of [TargetManager] that [scene.js] reads, the model its
    targets are cloned from, and the hit flashes it was asked to show. *)
Record TargetManager := mkTargetManager {
  targets : list Target;
  isModelLoaded : bool;
  modelChildren : list Child;
  hitEffects : list string
}.

Definition set_targets (ts : list Target) (tm : TargetManager) : TargetManager :=
  mkTargetManager ts (isModelLoaded tm) (modelChildren tm) (hitEffects tm).

Definition hasId (id : string) (t : Target) : bool := String.eqb (targetId t) id.

(** Apply [f] to the first element satisfying [p]: a write through the
    reference returned by [find]. *)
Fixpoint updateFirst {A} (p : A -> bool) (f : A -> A) (l : list A) : list A :=
  match l with
  | [] => []
  | x :: rest => if p x then f x :: rest else x :: updateFirst p f rest
  end.

(** Modelled from the spec: [TargetManager.clearAllTargets] of
    [targets.js], which is not among the sources. "Unconditionally clear
    all local targets and colliders." *)
Definition clearAllTargets (tm : TargetManager) : TargetManager :=
  set_targets [] tm.

(** Modelled from the spec: [TargetManager.createTarget] of [targets.js],
    which is not among the sources. "Create-or-update target by
    identifier; no-op if already present with equal data." A new target
    is a clone of the loaded model; the callers treat a null result as a
    failed creation and wait for [isModelLoaded] before creating, so the
    result is null while the model is not loaded. The result is the
    identifier under which the target is found. *)
Definition createTarget (position : Vector3) (options : TargetOptions)
    (tm : TargetManager) : TargetManager * option string :=
  if negb (isModelLoaded tm) then (tm, None)
  else
    let id := opt_targetId options in
    if existsb (hasId id) (targets tm) then
      (set_targets
         (updateFirst (hasId id)
            (fun t => mkTarget (targetId t) (opt_health options) (maxHealth t)
                        (opt_points options) (locallyDestroyed t) position
                        (opt_scale options) (opt_rotation options) (children t))
            (targets tm)) tm,
       Some id)
    else
      (set_targets
         (targets tm ++
          [mkTarget id (opt_health options) (Some (opt_health options))
             (opt_points options) false position (opt_scale options)
             (opt_rotation options) (modelChildren tm)]) tm,
       Some id).

(** Modelled from the spec: [TargetManager.destroyTargetById] of
    [targets.js], which is not among the sources. "Remove target by
    identifier if present; destroying an already-absent identifier is a
    silent no-op." The result says whether the identifier was present. *)
Definition destroyTargetById (id : string) (tm : TargetManager)
  : TargetManager * bool :=
  if existsb (hasId id) (targets tm)
  then (set_targets (List.filter (fun t => negb (hasId id t)) (targets tm)) tm, true)
  else (tm, false).

(** Modelled from the spec: [TargetManager.showHitEffect] of [targets.js],
    which is not among the sources. "Trigger visual hit effect": the flash
    is a visual command, recorded by the identifier of the target. *)
Definition showHitEffect (t : Target) (tm : TargetManager) : TargetManager :=
  mkTargetManager (targets tm) (isModelLoaded tm) (modelChildren tm)
    (hitEffects tm ++ [targetId t]).

(** ** State of the scene script *)

(** The functions given to [setTimeout]: [processGameState] itself, the
    scan of [onTargetSpawned] and the scan after 2 s of [processGameState],
    the scan after 500 ms (which schedules a further callback), that
    further callback (it only writes to the console), and the delayed call
    of [weaponDebug]. *)
Inductive Callback :=
  | CbProcessGameState
  | CbScanForNewTargets
  | CbSecondaryScan
  | CbPostScanDebug
  | CbWeaponDebug.

(** The variables of the script. [weaponAvailable] says that [window.weapon]
    is set; [targetScans] and [debugActivations] count the calls of
    [window.weapon.scanForNewTargets()] and [window.weaponDebug()] made by
    the script. The class [RemotePlayer] is not among the sources:
    [remotePlayerThrows] says for which player data its constructor
    throws. *)
Record State := mkState {
  targetManager : option TargetManager;
  pendingGameState : option GameState;
  score : Z;
  playerId : string;
  remotePlayers : gmap string PlayerData;
  timers : list (nat * Callback);
  weaponAvailable : bool;
  targetScans : nat;
  debugActivations : nat;
  remotePlayerThrows : PlayerData -> bool
}.

Definition set_targetManager (tm : option TargetManager) (s : State) : State :=
  mkState tm (pendingGameState s) (score s) (playerId s) (remotePlayers s)
    (timers s) (weaponAvailable s) (targetScans s) (debugActivations s)
    (remotePlayerThrows s).

Definition set_pendingGameState (g : option GameState) (s : State) : State :=
  mkState (targetManager s) g (score s) (playerId s) (remotePlayers s)
    (timers s) (weaponAvailable s) (targetScans s) (debugActivations s)
    (remotePlayerThrows s).

Definition set_score (n : Z) (s : State) : State :=
  mkState (targetManager s) (pendingGameState s) n (playerId s)
    (remotePlayers s) (timers s) (weaponAvailable s) (targetScans s)
    (debugActivations s) (remotePlayerThrows s).

Definition set_remotePlayers (m : gmap string PlayerData) (s : State) : State :=
  mkState (targetManager s) (pendingGameState s) (score s) (playerId s) m
    (timers s) (weaponAvailable s) (targetScans s) (debugActivations s)
    (remotePlayerThrows s).

Definition set_timers (l : list (nat * Callback)) (s : State) : State :=
  mkState (targetManager s) (pendingGameState s) (score s) (playerId s)
    (remotePlayers s) l (weaponAvailable s) (targetScans s)
    (debugActivations s) (remotePlayerThrows s).

(** [setTimeout(cb, delay)] *)
Definition setTimeout (cb : Callback) (delay : nat) (s : State) : State :=
  set_timers (timers s ++ [(delay, cb)]) s.

(** [if (window.weapon && window.weapon.scanForNewTargets)
    window.weapon.scanForNewTargets()] *)
Definition scanTargets (s : State) : State :=
  if weaponAvailable s then
    mkState (targetManager s) (pendingGameState s) (score s) (playerId s)
      (remotePlayers s) (timers s) (weaponAvailable s) (S (targetScans s))
      (debugActivations s) (remotePlayerThrows s)
  else s.

(** [if (window.weaponDebug) window.weaponDebug()] *)
Definition activateDebug (s : State) : State :=
  if weaponAvailable s then
    mkState (targetManager s) (pendingGameState s) (score s) (playerId s)
      (remotePlayers s) (timers s) (weaponAvailable s) (targetScans s)
      (S (debugActivations s)) (remotePlayerThrows s)
  else s.

(** ** Handlers *)

(** Restoring the opacity of one traversed node. *)
Definition restoreOpacity (child : Child) : Child :=
  match material child, originalOpacity child with
  | Some m, Some o =>
      if childIsMesh child && negb (Qeq_bool o 0) then
        mkChild (childIsMesh child)
          (Some (mkMaterial o (if Qle_bool 1 o then false else transparent m)))
          (originalOpacity child)
      else child
  | _, _ => child
  end.

(** The writes of [onTargetHit] to the target it found. *)
Definition applyHit (hitData : HitData) (t : Target) : Target :=
  mkTarget (targetId t) (hit_health hitData) (maxHealth t) (points t) false
    (targetPosition t) (targetScale t) (targetRotation t)
    (if (0 <? hit_health hitData)%Z
     then List.map restoreOpacity (children t) else children t).

(** [networkManager.onTargetHit] *)
Definition onTargetHit (hitData : HitData) (s : State) : State :=
  match targetManager s with
  | None => s
  | Some tm =>
      match List.find (hasId (hit_targetId hitData)) (targets tm) with
      | Some target =>
          let tm := set_targets
                      (updateFirst (hasId (hit_targetId hitData))
                         (applyHit hitData) (targets tm)) tm in
          set_targetManager (Some (showHitEffect target tm)) s
      | None => s
      end
  end.

(** [networkManager.onTargetDestroyed] *)
Definition onTargetDestroyed (destroyData : DestroyData) (s : State) : State :=
  match targetManager s with
  | None => s
  | Some tm =>
      let '(tm, wasDestroyed) := destroyTargetById (dd_targetId destroyData) tm in
      let s := set_targetManager (Some tm) s in
      if wasDestroyed then
        if String.eqb (dd_playerId destroyData) (playerId s)
        then set_score (score s + dd_points destroyData)%Z s
        else s
      else s
  end.

(** [x || d] on an optional number. *)
Definition orQ (x : option Q) (d : Q) : Q :=
  match x with
  | Some q => if Qeq_bool q 0 then d else q
  | None => d
  end.

Definition orZ (x : option Z) (d : Z) : Z :=
  match x with
  | Some z => if (z =? 0)%Z then d else z
  | None => d
  end.

Definition optionsOf (targetData : TargetData) : TargetOptions :=
  mkTargetOptions (orQ (td_scale targetData) 5) (td_health targetData)
    (td_points targetData) (td_rotation targetData) (td_id targetData).

(** The writes to [target.userData] after a creation. *)
Definition setUserData (id : string) (h : Z) (mh : option Z) (p : Z)
    (t : Target) : Target :=
  mkTarget id h mh p (locallyDestroyed t) (targetPosition t) (targetScale t)
    (targetRotation t) (children t).

(** [networkManager.onTargetSpawned] *)
Definition onTargetSpawned (targetData : TargetData) (s : State) : State :=
  match targetManager s with
  | None => s
  | Some tm =>
      let '(tm, target) :=
        createTarget (td_position targetData) (optionsOf targetData) tm in
      match target with
      | Some h =>
          let tm := set_targets
                      (updateFirst (hasId h)
                         (setUserData (td_id targetData) (td_health targetData)
                            (td_maxHealth targetData) (td_points targetData))
                         (targets tm)) tm in
          setTimeout CbScanForNewTargets 100 (set_targetManager (Some tm) s)
      | None => set_targetManager (Some tm) s
      end
  end.

(** The body of [gameState.targets.forEach] in [processGameState]. *)
Definition createFromSnapshot (tm : TargetManager) (targetData : TargetData)
  : TargetManager :=
  if td_isAlive targetData then
    let '(tm, target) :=
      createTarget (td_position targetData) (optionsOf targetData) tm in
    match target with
    | Some h =>
        set_targets
          (updateFirst (hasId h)
             (setUserData (td_id targetData) (td_health targetData)
                (Some (orZ (td_maxHealth targetData) (td_health targetData)))
                (td_points targetData))
             (targets tm)) tm
    | None => tm
    end
  else tm.

(** The body of [gameState.players.forEach] in [processGameState]: the
    local player is skipped; for the others [new RemotePlayer(...)] runs
    inside [try]/[catch], and [remotePlayers.set] is reached only when the
    constructor has not thrown. *)
Definition createRemotePlayer (s : State) (playerData : PlayerData) : State :=
  if String.eqb (pd_id playerData) (playerId s) then s
  else if remotePlayerThrows s playerData then s
  else set_remotePlayers (<[pd_id playerData := playerData]> (remotePlayers s)) s.

(** [processGameState()] *)
Definition processGameState (s : State) : State :=
  match pendingGameState s with
  | None => s
  | Some gameState =>
      match targetManager s with
      | None => setTimeout CbProcessGameState 100 s
      | Some tm =>
          if negb (isModelLoaded tm) then setTimeout CbProcessGameState 200 s
          else
            let s := fold_left createRemotePlayer (gs_players gameState) s in
            let tm := clearAllTargets tm in
            let s :=
              if (0 <? length (gs_targets gameState))%nat then
                let tm := fold_left createFromSnapshot (gs_targets gameState) tm in
                let s := set_targetManager (Some tm) s in
                let s := scanTargets s in
                let s := setTimeout CbSecondaryScan 500 s in
                let s := setTimeout CbScanForNewTargets 2000 s in
                setTimeout CbWeaponDebug 2000 s
              else set_targetManager (Some tm) s in
            set_pendingGameState None s
      end
  end.

(** [networkManager.onGameStateReceived] *)
Definition onGameStateReceived (gameState : GameState) (s : State) : State :=
  processGameState (set_pendingGameState (Some gameState) s).

(** ** Timers *)

(** The callback of the 500 ms timer of [processGameState]: when the
    weapon is there it scans and schedules the console report 500 ms
    later. *)
Definition secondaryScan (s : State) : State :=
  if weaponAvailable s then setTimeout CbPostScanDebug 500 (scanTargets s)
  else s.

Definition runCallback (cb : Callback) (s : State) : State :=
  match cb with
  | CbProcessGameState => processGameState s
  | CbScanForNewTargets => scanTargets s
  | CbSecondaryScan => secondaryScan s
  | CbPostScanDebug => s
  | CbWeaponDebug => activateDebug s
  end.

(** The timer at position [i] of the queue expires and its callback runs. *)
Definition fireTimer (i : nat) (s : State) : State :=
  match timers s !! i with
  | Some (_, cb) => runCallback cb (set_timers (delete i (timers s)) s)
  | None => s
  end.

Definition isProcessTimer (t : nat * Callback) : bool :=
  match snd t with CbProcessGameState => true | _ => false end.

(** The number of scheduled calls of [processGameState]. *)
Definition scheduledRetries (s : State) : nat :=
  length (List.filter isProcessTimer (timers s)).

(** One round of polling: the oldest scheduled [processGameState] runs. *)
Definition retry (s : State) : State :=
  match list_find (fun t => isProcessTimer t = true) (timers s) with
  | Some (i, _) => fireTimer i s
  | None => s
  end.

(** The snapshot's alive targets, by identifier. *)
Definition aliveIds (gameState : GameState) : list string :=
  List.map td_id (List.filter td_isAlive (gs_targets gameState)).

Definition localIds (s : State) : list string :=
  match targetManager s with
  | Some tm => List.map targetId (targets tm)
  | None => []
  end.

(** ** Vocabulary of the statements *)

(** The identifiers of the local targets. *)
Definition ids (tm : TargetManager) : list string :=
  List.map targetId (targets tm).

(** Whether the handlers find a target with this identifier. *)
Definition present (id : string) (s : State) : bool :=
  match targetManager s with
  | Some tm => existsb (hasId id) (targets tm)
  | None => false
  end.

(** The snapshot can be processed: the target manager exists and its model
    is loaded. *)
Definition ready (s : State) : bool :=
  match targetManager s with
  | Some tm => isModelLoaded tm
  | None => false
  end.

(** The target built from a snapshot entry by [processGameState]. *)
Definition fromSnapshot (tm : TargetManager) (targetData : TargetData) : Target :=
  mkTarget (td_id targetData) (td_health targetData)
    (Some (orZ (td_maxHealth targetData) (td_health targetData)))
    (td_points targetData) false (td_position targetData)
    (orQ (td_scale targetData) 5) (td_rotation targetData) (modelChildren tm).

(** A target is alive when its health is positive and it carries no local
    destruction mark. *)
Definition alive (t : Target) : Prop :=
  (0 < health t)%Z /\ locallyDestroyed t = false.

(** A traversed node whose original opacity was recorded. *)
Definition recorded (child : Child) (o : Q) : Prop :=
  childIsMesh child = true
  /\ material child <> None
  /\ originalOpacity child = Some o
  /\ ~ (o == 0)%Q.

Definition opacityOf (child : Child) : option Q :=
  match material child with
  | Some m => Some (opacity m)
  | None => None
  end.

(** ** Sample states *)

(** A client whose target manager does not exist yet. *)
Definition starting : State :=
  mkState None None 0 "me" ∅ [] true 0 0 (fun _ => false).

(** A mesh faded to opacity 0.3 whose original opacity 1 was recorded. *)
Definition fadedMesh : Child :=
  mkChild true (Some (mkMaterial 0.3 true)) (Some 1%Q).

(** A target of health 10 that a local hit has brought to 0 and marked
    destroyed. *)
Definition fadedTarget : Target :=
  mkTarget "t1" 0 (Some 10%Z) 50 true vzero 5 None [fadedMesh].

Definition playing : State :=
  mkState (Some (mkTargetManager [fadedTarget] true [fadedMesh] []))
    None 0 "me" ∅ [] true 0 0 (fun _ => false).

Definition sampleTarget (id : string) (isAlive : bool) : TargetData :=
  mkTargetData id vzero None 10 None 50 None isAlive.

Definition sampleGameState : GameState :=
  mkGameState [mkPlayerData "me" vzero; mkPlayerData "you" vzero]
    [sampleTarget "a" true; sampleTarget "b" false; sampleTarget "c" true].

(** The snapshot has arrived while the target manager is missing. *)
Definition waiting : State := onGameStateReceived sampleGameState starting.

End Scene.


(* ===================================================================== *)
(** * Part II, continued: the weapon in play *)
(* ===================================================================== *)

Module Controls.

Import Weapon.

(** ** Input listeners

    [setupInput()] registers three listeners on the document: the left
    mouse button starts and stops shooting, the key R reloads. *)

Inductive DomEvent :=
  | mousedown (button : Z)
  | mouseup (button : Z)
  | keydown (code : string).

Definition dispatch (e : DomEvent) (w : State) : State :=
  match e with
  | mousedown button => if (button =? 0)%Z then startShooting w else w
  | mouseup button => if (button =? 0)%Z then stopShooting w else w
  | keydown code => if String.eqb code "KeyR" then reload w else w
  end.

(** What reaches the weapon while the game runs: the events above, the
    call [weapon.update(deltaTime)] of the animation loop, and the calls
    [window.weapon.scanForNewTargets()] made by the timers of [scene.js]. *)
Inductive Action :=
  | Dom (e : DomEvent)
  | Tick (deltaTime : Q)
  | Scan.

Definition act {T : THREE} (aim : Aim) (a : Action) (w : State) : option State :=
  match a with
  | Dom e => Some (dispatch e w)
  | Tick deltaTime => update aim deltaTime w
  | Scan => Some (scanForNewTargets w)
  end.

Fixpoint play {T : THREE} (aim : Aim) (actions : list Action) (w : State)
  : option State :=
  match actions with
  | [] => Some w
  | a :: rest =>
      match act aim a w with
      | Some w' => play aim rest w'
      | None => None
      end
  end.

(** ** Vocabulary of the statements *)

(** The magazine holds between 0 and [maxAmmo] rounds and the reserve is
    not negative. *)
Definition ammoOk (w : State) : Prop :=
  (0 <= magAmmo w <= maxAmmo w)%Z /\ (0 <= totalAmmo w)%Z.

(** All the rounds the player has. *)
Definition rounds (w : State) : Z := (magAmmo w + totalAmmo w)%Z.

(** From [w] to [w'] no round was gained and the magazine stayed within
    its capacity. *)
Definition spends (w w' : State) : Prop :=
  ammoOk w' /\ (rounds w' <= rounds w)%Z /\ maxAmmo w' = maxAmmo w.

(** The bullet array respects [maxBulletTrails]. *)
Definition capped (w : State) : Prop :=
  length (activeBullets w) <= maxBulletTrails.

(** Every bullet in flight has life left. *)
Definition fresh (w : State) : Prop :=
  Forall (fun b => (0 < life b)%Q) (activeBullets w).

(** Every object of the scene was allocated. *)
Definition sceneClosed (w : State) : Prop :=
  forall id, In id (scene w) -> id < nextId w.

(** Every flagged target of the scene has a collider. *)
Definition registered (w : State) : Prop :=
  forall id, In id (scene w) -> isTarget (getObj w id) = true ->
             mapHas id (targetColliders w) = true.

(** The bullet one frame older. *)
Definition aged (dt : Q) (b : Bullet) : Bullet :=
  mkBullet (mesh b) (velocity b) (life b - dt).

(** A bullet with life left. *)
Definition alive (b : Bullet) : bool := negb (Qle_bool (life b) 0).

(** The test of the environment traversal in
    [checkBulletColliderCollision]. *)
Definition isEnvironment (child : Object3D) : bool :=
  isMesh child && negb (isWeaponMesh child) && negb (isBullet child)
  && negb (isBulletCollider child) && negb (isTargetCollider child)
  && negb (isTarget child).

(** Nothing to hit: no target is registered and the scene holds no
    environment mesh (bullets, colliders and weapon parts do not count). *)
Definition openSpace (w : State) : Prop :=
  targetColliders w = [] /\ environmentTargets w = [].

(** A ray cast over no object finds nothing. *)
Definition castsOnObjects (T : THREE) : Prop :=
  forall hp r recursive, intersectObjects hp r [] recursive = [].

(** No collider of a bullet is itself the mesh of a bullet in flight, and
    two bullets do not share a collider. *)
Definition collidersApart (w : State) : Prop :=
  (forall m c, bulletColliders w !! m = Some c -> ~ In c (meshes w))
  /\ (forall m m' c, bulletColliders w !! m = Some c ->
                     bulletColliders w !! m' = Some c -> m = m').

(** The callback of the traversal in [scanForNewTargets]. *)
Definition scanVisit (w : State) (child : ObjId) : State :=
  if isTarget (getObj w child) then
    if mapHas child (targetColliders w) then w
    else createTargetCollider child (mkVector3 2 2 4) w
  else w.

(** [w'] is [w] after further colliders were allocated, put into the scene
    and appended to the registry: the objects of [w] are untouched and the
    new objects are not targets. *)
Definition grows (w w' : State) : Prop :=
  nextId w <= nextId w'
  /\ sceneClosed w'
  /\ (forall id, id < nextId w -> getObj w' id = getObj w id)
  /\ (forall id, nextId w <= id < nextId w' -> isTarget (getObj w' id) = false)
  /\ (forall id, In id (scene w') <->
                 In id (scene w) \/ nextId w <= id < nextId w')
  /\ (exists added, targetColliders w' = targetColliders w ++ added).

(** The callback of [targetColliders.forEach] in [updateTargetColliders]. *)
Definition followVisit (w : State) (e : ObjId * ObjId) : State :=
  let '(target, collider) := e in
  if inScene w target then
    let p := position (getObj w target) in
    setPosition collider (mkVector3 (vx p) (vy p + 1) (vz p)) w
  else removeTargetCollider target w.

(** Where the collider of a target at [p] is put. *)
Definition raised (p : Vector3) : Vector3 :=
  mkVector3 (vx p) (vy p + 1) (vz p).

(** The colliders of the registry are distinct objects, and none of them
    is itself registered as a target. *)
Definition separate (w : State) : Prop :=
  NoDup (List.map snd (targetColliders w))
  /\ forall e e', In e (targetColliders w) -> In e' (targetColliders w) ->
                  snd e <> fst e'.

(** ** Sample states *)

(** A magazine with 5 rounds left and 12 in reserve. *)
Definition lowAmmo : State := set_ammo 5 12 loaded.

(** A target that the target system has put into the scene at (0, 0, -10)
    and that no scan has seen yet. *)
Definition catTarget : Object3D :=
  mkObject3D false (mkVector3 0 0 (-10)) vzero true
    false false false false false true None None true.

Definition unscanned : State := snd (place catTarget loaded).

(** Two registered targets (objects 0 and 1, colliders 2 and 3): the
    first has since been taken out of the scene, the second has moved to
    (4, 0, -6). *)
Definition tracked : State :=
  let '(t1, w) := place catTarget loaded in
  let '(t2, w) := place catTarget w in
  let w := scanForNewTargets w in
  sceneRemove t1 (setPosition t2 (mkVector3 4 0 (-6)) w).

(** A session: a press, two frames, a reload, a scan, a release and a
    frame. *)
Definition session : list Action :=
  [Dom (mousedown 0); Tick 1; Tick 1; Dom (keydown "KeyR"); Scan;
   Dom (mouseup 0); Tick 1].

(** ** Targets in the scene *)

(** The target [t] stands in the scene: it is flagged, attached to the
    scene and allocated, and it is none of the weapon's own objects (the
    meshes of the bullets in flight, the colliders of bullets and of
    targets). *)
Definition standing (t : ObjId) (w : State) : Prop :=
  isTarget (getObj w t) = true
  /\ inScene w t = true
  /\ t < nextId w
  /\ ~ In t (meshes w)
  /\ (forall m c, bulletColliders w !! m = Some c -> c <> t)
  /\ (forall e, In e (targetColliders w) -> snd e <> t).

(** The registry of target colliders, the scan counter and the loaded
    flag: what neither bullets nor shots nor the trigger touch. *)
Definition registry (w : State) : list (ObjId * ObjId) * nat * bool :=
  (targetColliders w, scanCounter w, isLoaded w).

(** The number of frames among the actions. *)
Fixpoint tickCount (actions : list Action) : nat :=
  match actions with
  | [] => 0
  | Tick _ :: rest => S (tickCount rest)
  | _ :: rest => tickCount rest
  end.

(** The frames left until [update] scans the scene again. *)
Definition untilScan (w : State) : nat := 60 - scanCounter w mod 60.

(** The trigger is pressed and held for a second at 60 frames a second. *)
Definition heldSecond : list Action :=
  Dom (mousedown 0) :: List.repeat (Tick (1 # 60)) 60.

End Controls.


Module Sway.

#[local] Open Scope Q_scope.

(** ** Weapon sway ([updateWeaponRotation])

    Each frame the three Euler angles of the weapon model move a fixed
    fraction of the way towards a target orientation computed from the
    view of the player. *)

Record Euler := mkEuler { ex : Q; ey : Q; ez : Q }.

(** The fields of the player the weapon reads; [rotationX] and
    [rotationY] may be undefined. *)
Record Player := mkPlayer {
  rotationX : option Q;
  rotationY : option Q;
  isRunning : bool;
  isCrouching : bool
}.

(** [model] is [this.model.rotation] when the weapon has a model. *)
Record Rig := mkRig {
  model : option Euler;
  player : option Player;
  lastCameraRotation : Euler;
  weaponRotationOffset : Euler
}.

(** [THREE.MathUtils.lerp(x, y, t)] *)
Definition lerp (x y t : Q) : Q := (1 - t) * x + t * y.

(** [x || 0] on a number that may be undefined. *)
Definition orZero (x : option Q) : Q :=
  match x with Some q => q | None => 0 end.

(** The influences and the smoothing factor after their adjustment to the
    state of the player. *)
Definition pitchInfluence (p : Player) : Q :=
  if isRunning p then 0.4 * 1.2 else if isCrouching p then 0.4 * 0.7 else 0.4.

Definition yawInfluence (p : Player) : Q :=
  if isRunning p then 0.2 * 1.3 else if isCrouching p then 0.2 * 0.6 else 0.2.

Definition rollInfluence (p : Player) : Q :=
  if isRunning p then 0.1 * 1.5 else if isCrouching p then 0.1 * 0.5 else 0.1.

Definition lerpFactor (p : Player) : Q :=
  if isRunning p then 0.12 * 1.4 else if isCrouching p then 0.12 * 0.7 else 0.12.

(** [updateWeaponRotation()] *)
Definition updateWeaponRotation (r : Rig) : Rig :=
  match model r, player r with
  | Some rotation, Some p =>
      let pitchRotation := orZero (rotationX p) in
      let yawRotation := orZero (rotationY p) in
      let yawDelta := yawRotation - ey (lastCameraRotation r) in
      let rollFromYaw := yawDelta * rollInfluence p * 50 in
      let offset := weaponRotationOffset r in
      let targetRotation :=
        mkEuler (ex offset + pitchRotation * pitchInfluence p)
                (ey offset + yawRotation * yawInfluence p)
                (ez offset + rollFromYaw) in
      mkRig
        (Some (mkEuler
                 (lerp (ex rotation) (ex targetRotation) (lerpFactor p))
                 (lerp (ey rotation) (ey targetRotation) (lerpFactor p))
                 (lerp (ez rotation) (ez targetRotation) (lerpFactor p * 0.5))))
        (Some p)
        (mkEuler pitchRotation yawRotation 0)
        offset
  | _, _ => r
  end.

(** ** Vocabulary of the statements *)

(** The orientation the weapon tends to while the view does not turn. *)
Definition restRotation (r : Rig) (p : Player) : Euler :=
  mkEuler (ex (weaponRotationOffset r) + orZero (rotationX p) * pitchInfluence p)
          (ey (weaponRotationOffset r) + orZero (rotationY p) * yawInfluence p)
          (ez (weaponRotationOffset r)).

Fixpoint qpow (q : Q) (n : nat) : Q :=
  match n with
  | O => 1
  | S k => q * qpow q k
  end.

(** ** Sample *)

(** A weapon at rest orientation 0 whose player looks up by 1 radian and
    crouches. *)
Definition lookingUp : Rig :=
  mkRig (Some (mkEuler 0 0 0))
        (Some (mkPlayer (Some 1) None false true))
        (mkEuler 0 0 0) (mkEuler 0 0 0).

End Sway.


Module ShotEffect.

Import Weapon.

#[local] Open Scope Q_scope.

(** ** The bullet drawn for a shot of an unknown player
    ([createGenericShotEffect] of [scene.js]) *)

(** [playerShot{playerId, position, direction}] *)
Record ShotData := mkShotData {
  sd_playerId : string;
  sd_position : Vector3;
  sd_direction : Vector3
}.

(** The bullet mesh with its trail and the variables captured by
    [animateBullet]. [fx_inScene] says that the bullet is a child of the
    scene, [fx_disposed] that its geometries and materials were disposed. *)
Record Effect := mkEffect {
  fx_position : Vector3;
  fx_bulletOpacity : Q;
  fx_trailOpacity : Q;
  fx_velocity : Vector3;
  fx_time : Q;
  fx_inScene : bool;
  fx_disposed : bool
}.

Definition speed : Q := 30.
Definition maxTime : Q := 3.

(** [animateBullet()]; the second component says whether another frame
    was requested with [requestAnimationFrame]. *)
Definition animateBullet (e : Effect) : Effect * bool :=
  let time := fx_time e + 0.016 in
  if negb (Qle_bool time maxTime) then
    (mkEffect (fx_position e) (fx_bulletOpacity e) (fx_trailOpacity e)
       (fx_velocity e) time false true,
     false)
  else
    let position := add (fx_position e) (multiplyScalar (fx_velocity e) 0.016) in
    let fadeProgress := time / maxTime in
    (mkEffect position (qmax 0 (1 * (1 - fadeProgress)))
       (qmax 0 (0.8 * (1 - fadeProgress))) (fx_velocity e) time
       (fx_inScene e) (fx_disposed e),
     true).

(** [createGenericShotEffect(shotData)]: the bullet is added to the scene
    and [animateBullet()] is called once. *)
Definition createGenericShotEffect {T : THREE} (shotData : ShotData)
  : Effect * bool :=
  let startPos := sd_position shotData in
  let direction := normalize (sd_direction shotData) in
  let velocity := multiplyScalar direction speed in
  animateBullet (mkEffect startPos 1 0.8 velocity 0 true false).

(** One animation frame: the requested callback runs, if any. *)
Definition frame (r : Effect * bool) : Effect * bool :=
  if snd r then animateBullet (fst r) else r.

Definition frames (n : nat) (r : Effect * bool) : Effect * bool :=
  Nat.iter n frame r.

(** ** Vocabulary of the statements *)

(** The simulated time after [m] calls of [animateBullet]. *)
Definition ticks (m : nat) : Q := inject_Z (Z.of_nat m) * 0.016.

(** After [m] calls the bullet launched at [start] with velocity [v] is
    still in the scene with another frame requested: it has advanced by
    [v * ticks m] and faded linearly. *)
Definition flying (start v : Vector3) (m : nat) (r : Effect * bool) : Prop :=
  snd r = true
  /\ fx_inScene (fst r) = true
  /\ fx_disposed (fst r) = false
  /\ fx_velocity (fst r) = v
  /\ fx_time (fst r) == ticks m
  /\ veq (fx_position (fst r)) (add start (multiplyScalar v (ticks m)))
  /\ fx_bulletOpacity (fst r) == 1 - ticks m / maxTime
  /\ fx_trailOpacity (fst r) == 0.8 * (1 - ticks m / maxTime).

(** The bullet has been removed and disposed, and no frame is requested. *)
Definition landed (r : Effect * bool) : Prop :=
  snd r = false /\ fx_inScene (fst r) = false /\ fx_disposed (fst r) = true.

(** ** Sample *)

Definition strayShot : ShotData :=
  mkShotData "ghost" (mkVector3 0 2 0) (mkVector3 0 0 (-1)).

End ShotEffect.


Module Snapshots.

Import Weapon Scene.

(** ** Sample states for the snapshot handlers *)

(** The snapshot has arrived at a client whose target manager is ready. *)
Definition arrived : State :=
  set_pendingGameState (Some sampleGameState) playing.

(** The same arrival when [new RemotePlayer] throws for the player
    "you". *)
Definition unbuildable : State :=
  mkState (targetManager arrived) (pendingGameState arrived) 0 "me" ∅ []
    true 0 0 (fun p => String.eqb (pd_id p) "you").

(** A snapshot without targets. *)
Definition emptyGameState : GameState :=
  mkGameState [mkPlayerData "you" vzero] [].

End Snapshots.


(* ===================================================================== *)
(** * Part III: properties of the weapon system *)
(* ===================================================================== *)

Module WeaponProofs.

Import Weapon.

(** ** Ammunition *)

Lemma addAmmo_totalAmmo (amount : Z) (w : State) :
  totalAmmo (addAmmo amount w) = Z.min (totalAmmo w + amount) 300.
Proof. unfold addAmmo; simpl. destruct (onAmmoChange w); reflexivity. Qed.

Lemma addAmmo_magAmmo (amount : Z) (w : State) :
  magAmmo (addAmmo amount w) = magAmmo w.
Proof. unfold addAmmo; simpl. destruct (onAmmoChange w); reflexivity. Qed.

(** C10. For a non-negative amount, [addAmmo] sets the reserve to
    [min (totalAmmo + amount) 300] and leaves the magazine alone; the
    constructor starts the reserve at 1200, and whenever the reserve is
    above 300 a call to [addAmmo] strictly decreases it. *)
Theorem addAmmo_caps_reserve (amount : Z) (w : State) :
  (0 <= amount)%Z ->
  totalAmmo (addAmmo amount w) = Z.min (totalAmmo w + amount) 300
  /\ magAmmo (addAmmo amount w) = magAmmo w
  /\ totalAmmo constructed = 1200%Z
  /\ ((300 < totalAmmo w)%Z ->
      (totalAmmo (addAmmo amount w) < totalAmmo w)%Z).
Proof.
  intros Hamount.
  rewrite addAmmo_totalAmmo, addAmmo_magAmmo.
  repeat split; lia.
Qed.

Lemma addAmmo_caps_reserve_witness :
  (0 <= 50)%Z
  /\ totalAmmo (addAmmo 50 constructed) = 300%Z
  /\ (totalAmmo (addAmmo 50 constructed) < totalAmmo constructed)%Z.
Proof.
  destruct (addAmmo_caps_reserve 50 constructed) as (Ht & _ & _ & Hlt).
  - lia.
  - split; [lia |]. split; [exact Ht |]. apply Hlt. reflexivity.
Defined.

(** ** The projectile cap *)


Lemma createBulletTrail_activeBullets (startPos direction : Vector3) (w : State) :
  activeBullets (createBulletTrail startPos direction w) =
  let l := activeBullets w ++ [newBullet direction w] in
  if (maxBulletTrails <? length l)%nat then List.tl l else l.
Proof.
  unfold createBulletTrail, createBulletCollider, alloc, sceneAdd; simpl.
  fold (newBullet direction w).
  destruct (maxBulletTrails <? length (activeBullets w ++ [newBullet direction w]))%nat;
    [| reflexivity].
  destruct (activeBullets w ++ [newBullet direction w]); reflexivity.
Qed.

Lemma createBulletTrail_nextId (startPos direction : Vector3) (w : State) :
  nextId (createBulletTrail startPos direction w) = S (S (nextId w)).
Proof.
  unfold createBulletTrail, createBulletCollider, alloc, sceneAdd; simpl.
  destruct (maxBulletTrails <? _)%nat; [| reflexivity].
  destruct (activeBullets w ++ _); reflexivity.
Qed.

Lemma StronglySorted_snoc (l : list nat) (n : nat) :
  StronglySorted lt l -> Forall (fun m => m < n) l -> StronglySorted lt (l ++ [n]).
Proof.
  induction 1 as [| a l Hl IH Ha]; intros Hn; simpl.
  - repeat constructor.
  - inversion Hn; subst. constructor.
    + apply IH; assumption.
    + apply Forall_app. split; [assumption | repeat constructor; assumption].
Qed.

Lemma StronglySorted_tl (l : list nat) :
  StronglySorted lt l -> StronglySorted lt (List.tl l).
Proof. destruct 1; simpl; [constructor | assumption]. Qed.

Lemma map_tl {A B} (f : A -> B) (l : list A) :
  List.map f (List.tl l) = List.tl (List.map f l).
Proof. destruct l; reflexivity. Qed.

Lemma Forall_tl {A} (P : A -> Prop) (l : list A) :
  Forall P l -> Forall P (List.tl l).
Proof. destruct 1; simpl; [constructor | assumption]. Qed.

(** Creating a bullet keeps the array chronological. *)
Lemma createBulletTrail_chronological (startPos direction : Vector3) (w : State) :
  chronological w -> chronological (createBulletTrail startPos direction w).
Proof.
  intros [Hs Hb]. unfold chronological, meshes.
  rewrite createBulletTrail_activeBullets, createBulletTrail_nextId. cbv zeta.
  assert (Hs' : StronglySorted lt
                  (List.map mesh (activeBullets w ++ [newBullet direction w]))).
  { rewrite List.map_app. simpl. apply StronglySorted_snoc; assumption. }
  assert (Hb' : Forall (fun m => m < S (S (nextId w)))
                  (List.map mesh (activeBullets w ++ [newBullet direction w]))).
  { rewrite List.map_app. apply Forall_app. split.
    - eapply List.Forall_impl; [| exact Hb]. simpl. intros; lia.
    - simpl. constructor; [lia | constructor]. }
  destruct (maxBulletTrails <? _)%nat.
  - rewrite map_tl. split; [apply StronglySorted_tl | apply Forall_tl]; assumption.
  - split; assumption.
Qed.

(** Below the cap nothing is evicted. *)
Lemma createBulletTrail_below_cap (startPos direction : Vector3) (w : State) :
  length (activeBullets w) < maxBulletTrails ->
  activeBullets (createBulletTrail startPos direction w) =
  activeBullets w ++ [newBullet direction w].
Proof.
  intros Hlen. rewrite createBulletTrail_activeBullets. cbv zeta.
  rewrite length_app. simpl.
  destruct (Nat.ltb_spec maxBulletTrails (length (activeBullets w) + 1)); [lia | reflexivity].
Qed.

Lemma filter_out_not_in (id : ObjId) (l : list ObjId) :
  ~ In id (List.filter (fun x => negb (Nat.eqb x id)) l).
Proof.
  rewrite filter_In. intros [_ H]. rewrite Nat.eqb_refl in H. discriminate.
Qed.

Lemma sceneRemove_not_in (id : ObjId) (w : State) :
  ~ In id (scene (sceneRemove id w)).
Proof. apply filter_out_not_in. Qed.

(** C7. When a shot is fired with the array already at the cap of 50, the
    bullet at the front of the array is the one evicted: the array becomes
    its former tail followed by the new bullet, the evicted mesh leaves the
    scene, and, the array being chronological, the evicted bullet was
    created before every bullet that stays. *)
Theorem createBulletTrail_evicts_oldest
    (startPos direction : Vector3) (w : State) :
  length (activeBullets w) = maxBulletTrails ->
  chronological w ->
  exists oldest rest,
    activeBullets w = oldest :: rest
    /\ activeBullets (createBulletTrail startPos direction w) =
       rest ++ [newBullet direction w]
    /\ ~ In (mesh oldest) (scene (createBulletTrail startPos direction w))
    /\ (forall b, In b (activeBullets (createBulletTrail startPos direction w)) ->
                  mesh oldest < mesh b)
    /\ chronological (createBulletTrail startPos direction w).
Proof.
  intros Hlen Hchr.
  destruct (activeBullets w) as [| oldest rest] eqn:Hbs; [discriminate Hlen |].
  exists oldest, rest. split; [reflexivity |].
  assert (Hact : activeBullets (createBulletTrail startPos direction w) =
                 rest ++ [newBullet direction w]).
  { rewrite createBulletTrail_activeBullets, Hbs. cbv zeta.
    replace (maxBulletTrails <? length ((oldest :: rest) ++ [newBullet direction w]))%nat
      with true; [reflexivity |].
    symmetry. apply Nat.ltb_lt. rewrite length_app, Hlen. unfold maxBulletTrails. simpl. lia. }
  split; [exact Hact |]. split; [| split].
  - unfold createBulletTrail, createBulletCollider, alloc, sceneAdd. simpl.
    rewrite Hbs.
    replace (maxBulletTrails <? length ((oldest :: rest) ++ _))%nat with true.
    + simpl. apply filter_out_not_in.
    + symmetry. apply Nat.ltb_lt. rewrite length_app, Hlen. unfold maxBulletTrails. simpl. lia.
  - intros b Hb. rewrite Hact in Hb.
    destruct Hchr as [Hs Hn]. unfold meshes in Hs, Hn. rewrite Hbs in Hs, Hn.
    simpl in Hs, Hn. inversion Hs as [| ? ? _ Hlt]; subst.
    inversion Hn as [| ? ? Hold _]; subst.
    apply in_app_or in Hb. destruct Hb as [Hb | [Hb | []]].
    + rewrite List.Forall_forall in Hlt. apply Hlt. apply in_map. exact Hb.
    + subst b. exact Hold.
  - apply createBulletTrail_chronological. exact Hchr.
Qed.

Lemma loaded_chronological : chronological loaded.
Proof. split; vm_compute; constructor. Qed.

Lemma iter_invariant {A} (P : A -> Prop) (f : A -> A) (n : nat) (x : A) :
  (forall a, P a -> P (f a)) -> P x -> P (Nat.iter n f x).
Proof.
  intros Hf Hx. induction n as [| n IH]; simpl; [exact Hx | apply Hf, IH].
Qed.

Lemma atCap_chronological : chronological atCap.
Proof.
  apply (iter_invariant chronological fireOnce maxBulletTrails loaded).
  - intros a. apply createBulletTrail_chronological.
  - exact loaded_chronological.
Qed.

Lemma createBulletTrail_evicts_oldest_witness :
  exists oldest rest,
    activeBullets atCap = oldest :: rest
    /\ activeBullets (createBulletTrail vzero (mkVector3 1 0 0) atCap) =
       rest ++ [newBullet (mkVector3 1 0 0) atCap]
    /\ ~ In (mesh oldest) (scene (createBulletTrail vzero (mkVector3 1 0 0) atCap))
    /\ (forall b,
          In b (activeBullets (createBulletTrail vzero (mkVector3 1 0 0) atCap)) ->
          mesh oldest < mesh b)
    /\ chronological (createBulletTrail vzero (mkVector3 1 0 0) atCap).
Proof.
  apply (createBulletTrail_evicts_oldest vzero (mkVector3 1 0 0) atCap).
  - vm_compute. reflexivity.
  - exact atCap_chronological.
Defined.

(** ** Bullet colliders *)

Lemma createBulletTrail_collider (startPos direction : Vector3) (w : State) :
  bulletColliders (createBulletTrail startPos direction w) !! nextId w =
  Some (S (nextId w)).
Proof.
  unfold createBulletTrail, createBulletCollider, alloc, sceneAdd; simpl.
  destruct (maxBulletTrails <? _)%nat.
  - destruct (activeBullets w ++ _); simpl; apply lookup_insert_eq.
  - simpl. apply lookup_insert_eq.
Qed.

Lemma removeBulletCollider_gone (bullet : ObjId) (w : State) :
  bulletColliders (removeBulletCollider bullet w) !! bullet = None.
Proof.
  unfold removeBulletCollider.
  destruct (bulletColliders w !! bullet) eqn:E; simpl; [| exact E].
  apply lookup_delete_eq.
Qed.

(** After a hit, the bullet's collider is gone from the map. *)
Lemma removeAfterHit_collider_gone (bullet : Bullet) (w : State) :
  bulletColliders (removeAfterHit bullet w) !! mesh bullet = None.
Proof.
  unfold removeAfterHit.
  destruct (indexOf bullet _); simpl; apply removeBulletCollider_gone.
Qed.

(** The eviction branch leaves the collider of the evicted bullet in the
    map. *)
Lemma eviction_keeps_collider (startPos direction : Vector3) (w : State)
    (oldest : Bullet) (rest : list Bullet) (c : ObjId) :
  activeBullets w = oldest :: rest ->
  length (activeBullets w) = maxBulletTrails ->
  bulletColliders w !! mesh oldest = Some c ->
  mesh oldest <> nextId w ->
  activeBullets (createBulletTrail startPos direction w) =
    rest ++ [newBullet direction w]
  /\ bulletColliders (createBulletTrail startPos direction w) !! mesh oldest =
     Some c.
Proof.
  intros Hbs Hlen Hc Hfresh.
  assert (Hcap : (maxBulletTrails <?
                  length (activeBullets w ++ [newBullet direction w]))%nat = true).
  { apply Nat.ltb_lt. rewrite length_app, Hlen. unfold maxBulletTrails.
    simpl. lia. }
  split.
  - rewrite createBulletTrail_activeBullets. cbv zeta. rewrite Hcap, Hbs.
    reflexivity.
  - unfold createBulletTrail, createBulletCollider, alloc, sceneAdd.
    cbv zeta.
    cbn [activeBullets set_activeBullets set_bulletColliders set_scene
         set_nextId set_heap].
    fold (newBullet direction w). rewrite Hcap.
    destruct (activeBullets w ++ [newBullet direction w]);
      cbn [bulletColliders set_activeBullets set_bulletColliders set_scene
           set_nextId set_heap sceneRemove];
      rewrite lookup_insert_ne by congruence; exact Hc.
Qed.

(** C8, on the failing input. With the array at the cap, the oldest bullet
    (mesh 0) owns collider 1. The next shot evicts that bullet from the array
    and its mesh from the scene, yet collider 1 stays both in
    [bulletColliders] and in the scene: the eviction branch of
    [createBulletTrail] does not call [removeBulletCollider], which the hit
    and expiry branches do. *)
Theorem cap_eviction_keeps_collider :
  let w' := createBulletTrail vzero (mkVector3 1 0 0) atCap in
  hd_error (meshes atCap) = Some 0
  /\ bulletColliders atCap !! 0 = Some 1
  /\ existsb (Nat.eqb 0) (meshes w') = false
  /\ inScene w' 0 = false
  /\ bulletColliders w' !! 0 = Some 1
  /\ inScene w' 1 = true.
Proof. vm_compute. repeat split; reflexivity. Qed.

(** ** Frame properties of a tick

    What the parts of [update] other than [shoot] leave alone: the fields
    of the trigger and of the ammunition ([gun]), and the bullets, of which
    [updateBullets] only ever removes some. *)


Lemma fold_left_preserves {A B X} (g : A -> X) (f : A -> B -> A)
    (l : list B) (a : A) :
  (forall a b, g (f a b) = g a) -> g (fold_left f l a) = g a.
Proof.
  intros Hf. revert a. induction l as [| b l IH]; intros a; simpl;
    [reflexivity |]. rewrite IH. apply Hf.
Qed.


Lemma core_createTargetCollider (target : ObjId) (size : Vector3) (w : State) :
  core (createTargetCollider target size w) = core w.
Proof. reflexivity. Qed.

Lemma core_removeTargetCollider (target : ObjId) (w : State) :
  core (removeTargetCollider target w) = core w.
Proof.
  unfold removeTargetCollider. destruct (mapGet target _); reflexivity.
Qed.

Lemma core_scanForNewTargets (w : State) : core (scanForNewTargets w) = core w.
Proof.
  unfold scanForNewTargets. apply fold_left_preserves. intros a b.
  destruct (isTarget _); [| reflexivity].
  destruct (mapHas _ _); [reflexivity | apply core_createTargetCollider].
Qed.

Lemma core_updateTargetColliders (w : State) :
  core (updateTargetColliders w) = core w.
Proof.
  unfold updateTargetColliders. apply fold_left_preserves. intros a [t c].
  destruct (inScene a t); [reflexivity | apply core_removeTargetCollider].
Qed.

Lemma gun_of_core (w w' : State) : core w' = core w -> gun w' = gun w.
Proof. intros H. exact (f_equal snd H). Qed.

Lemma activeBullets_of_core (w w' : State) :
  core w' = core w -> activeBullets w' = activeBullets w.
Proof. intros H. exact (f_equal (fun c => fst (fst (fst c))) H). Qed.

Lemma gun_set_activeBullets (l : list Bullet) (w : State) :
  gun (set_activeBullets l w) = gun w.
Proof. reflexivity. Qed.

Lemma gun_sceneRemove (id : ObjId) (w : State) : gun (sceneRemove id w) = gun w.
Proof. reflexivity. Qed.

Lemma gun_setPosition (id : ObjId) (p : Vector3) (w : State) :
  gun (setPosition id p w) = gun w.
Proof. reflexivity. Qed.

Lemma activeBullets_sceneRemove (id : ObjId) (w : State) :
  activeBullets (sceneRemove id w) = activeBullets w.
Proof. reflexivity. Qed.

Lemma activeBullets_setPosition (id : ObjId) (p : Vector3) (w : State) :
  activeBullets (setPosition id p w) = activeBullets w.
Proof. reflexivity. Qed.

Lemma activeBullets_set_activeBullets (l : list Bullet) (w : State) :
  activeBullets (set_activeBullets l w) = l.
Proof. reflexivity. Qed.

Lemma gun_removeBulletCollider (bullet : ObjId) (w : State) :
  gun (removeBulletCollider bullet w) = gun w.
Proof. unfold removeBulletCollider. destruct (_ !! _); reflexivity. Qed.

Lemma activeBullets_removeBulletCollider (bullet : ObjId) (w : State) :
  activeBullets (removeBulletCollider bullet w) = activeBullets w.
Proof. unfold removeBulletCollider. destruct (_ !! _); reflexivity. Qed.

Lemma gun_onTargetHit (t : ObjId) (h : Intersection) (w : State) :
  gun (onTargetHit t h w) = gun w.
Proof. unfold onTargetHit. destruct (onHit _); reflexivity. Qed.

Lemma activeBullets_onTargetHit (t : ObjId) (h : Intersection) (w : State) :
  activeBullets (onTargetHit t h w) = activeBullets w.
Proof. unfold onTargetHit. destruct (onHit _); reflexivity. Qed.

Lemma gun_removeAfterHit (bullet : Bullet) (w : State) :
  gun (removeAfterHit bullet w) = gun w.
Proof.
  unfold removeAfterHit. destruct (indexOf _ _); simpl;
    apply gun_removeBulletCollider.
Qed.


Lemma indexOf_lt (bullet : Bullet) (bs : list Bullet) (i : nat) :
  indexOf bullet bs = Some i -> i < length bs.
Proof.
  unfold indexOf. destruct (list_find _ bs) as [[j b] |] eqn:E; [| discriminate].
  simpl. intros [= <-]. apply list_find_Some in E as [E _].
  eapply lookup_lt_Some, E.
Qed.

Lemma activeBullets_removeAfterHit (bullet : Bullet) (w : State) :
  splicedFrom (activeBullets (removeAfterHit bullet w)) (activeBullets w).
Proof.
  unfold removeAfterHit. cbv zeta.
  set (w1 := sceneRemove (mesh bullet) (removeBulletCollider (mesh bullet) w)).
  assert (H1 : activeBullets w1 = activeBullets w)
    by apply activeBullets_removeBulletCollider.
  clearbody w1. rewrite H1.
  destruct (indexOf bullet (activeBullets w)) as [i |] eqn:E.
  - right. exists i. split; [eapply indexOf_lt, E | reflexivity].
  - left. exact H1.
Qed.

Create Rewrite HintDb frame.

#[local] Hint Rewrite gun_set_activeBullets gun_sceneRemove gun_setPosition
  gun_removeBulletCollider gun_onTargetHit gun_removeAfterHit
  activeBullets_sceneRemove activeBullets_setPosition
  activeBullets_set_activeBullets activeBullets_removeBulletCollider
  activeBullets_onTargetHit : frame.

Section Tick.

Context {T : THREE}.

Lemma gun_checkBulletColliderCollision (b : Bullet) (prev : Vector3) (w : State) :
  gun (fst (checkBulletColliderCollision b prev w)) = gun w.
Proof.
  unfold checkBulletColliderCollision.
  destruct (bulletColliders w !! mesh b); [| reflexivity].
  destruct (Qeq_bool _ 0); [reflexivity |].
  destruct (intersectObjects _ _ (targetColliderList w) false) as [| hit ?].
  - destruct (intersectObjects _ _ _ true); [reflexivity |].
    simpl. rewrite gun_removeAfterHit. reflexivity.
  - simpl. rewrite gun_removeAfterHit.
    destruct (parentTarget _); [| reflexivity].
    destruct (isTarget _); [| reflexivity].
    rewrite gun_onTargetHit. reflexivity.
Qed.

Lemma activeBullets_checkBulletColliderCollision
    (b : Bullet) (prev : Vector3) (w : State) :
  splicedFrom (activeBullets (fst (checkBulletColliderCollision b prev w)))
              (activeBullets w).
Proof.
  unfold checkBulletColliderCollision.
  destruct (bulletColliders w !! mesh b); [| left; reflexivity].
  destruct (Qeq_bool _ 0); [left; reflexivity |].
  destruct (intersectObjects _ _ (targetColliderList w) false) as [| hit ?].
  - destruct (intersectObjects _ _ _ true); [left; reflexivity |].
    simpl. apply (activeBullets_removeAfterHit b (snapToHit b _ _ w)).
  - simpl.
    match goal with
    | |- splicedFrom (activeBullets (removeAfterHit b ?w')) _ =>
        replace (activeBullets w) with (activeBullets w');
          [apply activeBullets_removeAfterHit |]
    end.
    destruct (parentTarget _); [| reflexivity].
    destruct (isTarget _); [| reflexivity].
    rewrite activeBullets_onTargetHit. reflexivity.
Qed.

Lemma gun_bulletStep (i : nat) (b : Bullet) (dt : Q) (w : State) :
  gun (bulletStep i b dt w) = gun w.
Proof.
  unfold bulletStep. cbv zeta.
  destruct (Qle_bool (life b - dt) 0);
    autorewrite with frame;
    rewrite gun_checkBulletColliderCollision;
    destruct (_ !! _); reflexivity.
Qed.

End Tick.

Lemma splicedFrom_length {A} (l' l : list A) :
  splicedFrom l' l -> length l' <= length l /\ length l <= S (length l').
Proof.
  intros [-> | (i & Hi & ->)]; [lia |].
  rewrite length_delete; [lia | apply lookup_lt_is_Some; exact Hi].
Qed.

Lemma splicedFrom_sublist {A} (l' l : list A) : splicedFrom l' l -> sublist l' l.
Proof. intros [-> | (i & _ & ->)]; [reflexivity | apply sublist_delete]. Qed.

(** [splice(i, 1)] beyond the end of the array changes nothing. *)
Lemma delete_beyond {A} (l : list A) (i : nat) :
  length l <= i -> delete i l = l.
Proof.
  intros Hi. rewrite delete_take_drop, take_ge, drop_ge by lia.
  apply app_nil_r.
Qed.

Lemma sublist_map {A B} (f : A -> B) (l' l : list A) :
  sublist l' l -> sublist (List.map f l') (List.map f l).
Proof. induction 1; simpl; constructor; assumption. Qed.

Lemma map_mesh_setLife (m : ObjId) (q : Q) (bs : list Bullet) :
  List.map mesh (setLife m q bs) = List.map mesh bs.
Proof.
  unfold setLife. rewrite List.map_map. apply List.map_ext. intros b.
  destruct (Nat.eqb (mesh b) m); reflexivity.
Qed.

Lemma length_setLife (m : ObjId) (q : Q) (bs : list Bullet) :
  length (setLife m q bs) = length bs.
Proof. apply List.length_map. Qed.

Section Loop.

Context {T : THREE}.

(** The bullets after one step of the loop: at most the current bullet is
    spliced out by a hit, and the expiry splice acts on index [i]. *)
Lemma activeBullets_bulletStep (i : nat) (b : Bullet) (dt : Q) (w : State) :
  exists l,
    splicedFrom l (activeBullets w)
    /\ (activeBullets (bulletStep i b dt w) = setLife (mesh b) (life b - dt) l
        \/ activeBullets (bulletStep i b dt w) =
           delete i (setLife (mesh b) (life b - dt) l)).
Proof.
  unfold bulletStep. cbv zeta.
  match goal with
  | |- context [checkBulletColliderCollision b ?prev ?w1] =>
      exists (activeBullets (fst (checkBulletColliderCollision b prev w1)));
      split;
      [ replace (activeBullets w) with (activeBullets w1)
          by (destruct (_ !! _); reflexivity);
        apply activeBullets_checkBulletColliderCollision |]
  end.
  destruct (Qle_bool (life b - dt) 0); autorewrite with frame; auto.
Qed.

Lemma length_bulletStep (i : nat) (b : Bullet) (dt : Q) (w : State) :
  i < length (activeBullets w) ->
  i <= length (activeBullets (bulletStep i b dt w)).
Proof.
  intros Hi. destruct (activeBullets_bulletStep i b dt w) as (l & Hl & [-> | ->]).
  - rewrite length_setLife. apply splicedFrom_length in Hl. lia.
  - apply splicedFrom_length in Hl.
    destruct (decide (i < length l)) as [Hlt | Hge].
    + rewrite length_delete; [rewrite length_setLife; lia |].
      apply lookup_lt_is_Some. rewrite length_setLife. exact Hlt.
    + rewrite delete_beyond; rewrite length_setLife; lia.
Qed.

Lemma meshes_bulletStep (i : nat) (b : Bullet) (dt : Q) (w : State) :
  sublist (meshes (bulletStep i b dt w)) (meshes w).
Proof.
  unfold meshes.
  destruct (activeBullets_bulletStep i b dt w) as (l & Hl & [-> | ->]).
  - rewrite map_mesh_setLife. apply sublist_map, splicedFrom_sublist, Hl.
  - etransitivity; [apply sublist_map, sublist_delete |].
    rewrite map_mesh_setLife. apply sublist_map, splicedFrom_sublist, Hl.
Qed.

(** [updateBullets] never reads beyond the end of the array: the loop
    runs to completion, keeps the trigger and ammunition fields, and only
    removes bullets. *)
Lemma updateBulletsFrom_total (k : nat) (dt : Q) (w : State) :
  k <= length (activeBullets w) ->
  exists w', updateBulletsFrom k dt w = Some w'
             /\ gun w' = gun w
             /\ sublist (meshes w') (meshes w).
Proof.
  revert w. induction k as [| i IH]; intros w Hk; simpl.
  - exists w. repeat split; reflexivity.
  - destruct (lookup_lt_is_Some_2 (activeBullets w) i) as [b Hb]; [lia |].
    rewrite Hb.
    destruct (IH (bulletStep i b dt w)) as (w' & Hrun & Hgun & Hsub).
    { apply length_bulletStep. lia. }
    exists w'. split; [exact Hrun |]. split.
    + rewrite Hgun. apply gun_bulletStep.
    + etransitivity; [exact Hsub | apply meshes_bulletStep].
Qed.

Lemma updateBullets_total (dt : Q) (w : State) :
  exists w', updateBullets dt w = Some w'
             /\ gun w' = gun w
             /\ sublist (meshes w') (meshes w).
Proof. apply updateBulletsFrom_total. reflexivity. Qed.

End Loop.

(** ** The fire-rate gate *)

Lemma gun_createBulletTrail (startPos direction : Vector3) (w : State) :
  gun (createBulletTrail startPos direction w) = gun w.
Proof.
  unfold createBulletTrail, createBulletCollider, alloc, sceneAdd. simpl.
  destruct (maxBulletTrails <? _)%nat; [| reflexivity].
  destruct (activeBullets w ++ _); reflexivity.
Qed.

Lemma meshes_reload (w : State) : meshes (reload w) = meshes w.
Proof.
  unfold reload. destruct (_ || _); [reflexivity |]. simpl.
  destruct (onAmmoChange w); reflexivity.
Qed.

Lemma elapsed_nonneg (inputs : list Input) :
  Forall nonnegFrame inputs -> (0 <= elapsed inputs)%Q.
Proof.
  induction 1 as [| i rest Hi _ IH]; simpl; [lra |].
  destruct i; simpl in Hi; lra.
Qed.

Section Gate.

Context {T : THREE}.

(** The state in which [update] reaches its shooting block. *)
Lemma update_prefix (aim : Aim) (dt : Q) (w : State) :
  isLoaded w = true ->
  exists wb,
    gun wb = gun w
    /\ sublist (meshes wb) (meshes w)
    /\ update aim dt w =
       Some
         (let w1 :=
            if isShooting wb && Qle_bool (shootTimer wb) 0 then
              let '(w1, fired) := shoot aim wb in
              if fired then set_shootTimer fireRate w1 else w1
            else wb in
          if negb (Qle_bool (shootTimer w1) 0)
          then set_shootTimer (shootTimer w1 - dt)%Q w1 else w1).
Proof.
  intros Hl. unfold update. rewrite Hl. cbv zeta. simpl negb. cbv iota.
  set (w0 := if (_ =? 0)%nat then _ else _).
  assert (H0 : core w0 = core w).
  { subst w0. destruct (_ =? 0)%nat; [| reflexivity].
    rewrite core_scanForNewTargets. reflexivity. }
  clearbody w0.
  destruct (updateBullets_total dt w0) as (w2 & Hrun & Hgun & Hsub).
  rewrite Hrun.
  exists (updateTargetColliders w2). split; [| split; [| reflexivity]].
  - rewrite (gun_of_core _ _ (core_updateTargetColliders w2)), Hgun.
    apply gun_of_core, H0.
  - unfold meshes.
    rewrite (activeBullets_of_core _ _ (core_updateTargetColliders w2)).
    rewrite <- (activeBullets_of_core _ _ H0). exact Hsub.
Qed.

(** With the timer running, a frame neither shoots nor reloads: it only
    lets the timer run down. *)
Lemma update_gated (aim : Aim) (dt : Q) (w : State) :
  isLoaded w = true ->
  (0 < shootTimer w)%Q ->
  exists w',
    update aim dt w = Some w'
    /\ gun w' = (isLoaded w, isShooting w, (shootTimer w - dt)%Q, magAmmo w,
                 maxAmmo w, totalAmmo w, onAmmoChange w)
    /\ sublist (meshes w') (meshes w).
Proof.
  intros Hl Ht.
  destruct (update_prefix aim dt w Hl) as (wb & Hgun & Hsub & ->).
  assert (Htb : Qle_bool (shootTimer wb) 0 = false).
  { injection Hgun as _ _ -> _ _ _ _.
    destruct (Qle_bool (shootTimer w) 0) eqn:E; [| reflexivity].
    apply Qle_bool_iff in E. lra. }
  eexists. split; [reflexivity |]. cbv zeta.
  rewrite Htb, andb_false_r. rewrite Htb. simpl negb. cbv iota.
  split; [| exact Hsub].
  unfold gun in *. simpl. injection Hgun as -> -> -> -> -> -> ->. reflexivity.
Qed.

(** With the trigger held, the timer run out and a round in the magazine,
    a frame creates exactly one bullet and arms the timer. *)
Lemma update_fires (aim : Aim) (dt : Q) (w : State) :
  isLoaded w = true ->
  isShooting w = true ->
  (shootTimer w <= 0)%Q ->
  (0 < magAmmo w)%Z ->
  exists wb w',
    update aim dt w = Some w'
    /\ sublist (meshes wb) (meshes w)
    /\ activeBullets w' =
       activeBullets
         (createBulletTrail (muzzlePos aim) (normalize (worldDirection aim)) wb)
    /\ gun w' = (true, true, (fireRate - dt)%Q, (magAmmo w - 1)%Z, maxAmmo w,
                 totalAmmo w, onAmmoChange w).
Proof.
  intros Hl Hs Ht Hm.
  destruct (update_prefix aim dt w Hl) as (wb & Hgun & Hsub & ->).
  unfold gun in Hgun. injection Hgun as Hl' Hs' Ht' Hm' Hx' Hr' Hc'.
  exists wb. eexists. split; [reflexivity |]. split; [exact Hsub |].
  cbv zeta. rewrite Hs', Hs, Ht'.
  replace (Qle_bool (shootTimer w) 0) with true
    by (symmetry; apply Qle_bool_iff; exact Ht).
  simpl andb. cbv iota. unfold shoot. rewrite Hm'.
  replace (magAmmo w <=? 0)%Z with false by (symmetry; apply Z.leb_gt; exact Hm).
  cbv zeta.
  set (w1 := createBulletTrail _ _ (set_ammo _ _ wb)).
  assert (Hg1 : gun w1 = (isLoaded w, true, shootTimer w, (magAmmo w - 1)%Z,
                          maxAmmo w, totalAmmo w, onAmmoChange w)).
  { subst w1. rewrite gun_createBulletTrail. unfold gun. simpl.
    rewrite Hl', Hs', Hs, Ht', Hx', Hr', Hc'. reflexivity. }
  assert (Ha1 : activeBullets w1 =
                activeBullets (createBulletTrail (muzzlePos aim)
                                 (normalize (worldDirection aim)) wb)).
  { subst w1. rewrite !createBulletTrail_activeBullets. reflexivity. }
  clearbody w1. unfold gun in Hg1.
  injection Hg1 as Hl1 Hs1 Ht1 Hm1 Hx1 Hr1 Hc1.
  destruct (onAmmoChange w1) eqn:Ec; simpl;
    (split; [exact Ha1 |]); unfold gun; simpl;
    rewrite ?Hl1, ?Hs1, ?Hm1, ?Hx1, ?Hr1, ?Ec, ?Hl; congruence.
Qed.

(** With the trigger held, the timer run out and an empty magazine, a
    frame calls [reload], creates no bullet and does not arm the timer. *)
Lemma update_reloads (aim : Aim) (dt : Q) (w : State) :
  isLoaded w = true ->
  isShooting w = true ->
  (shootTimer w <= 0)%Q ->
  (magAmmo w <= 0)%Z ->
  exists wb w',
    update aim dt w = Some w'
    /\ gun wb = gun w
    /\ gun w' = gun (reload wb)
    /\ shootTimer w' = shootTimer w
    /\ sublist (meshes w') (meshes w).
Proof.
  intros Hl Hs Ht Hm.
  destruct (update_prefix aim dt w Hl) as (wb & Hgun & Hsub & ->).
  exists wb. eexists. split; [reflexivity |]. split; [exact Hgun |].
  unfold gun in Hgun. injection Hgun as Hl' Hs' Ht' Hm' Hx' Hr' Hc'.
  cbv zeta. rewrite Hs', Hs, Ht'.
  replace (Qle_bool (shootTimer w) 0) with true
    by (symmetry; apply Qle_bool_iff; exact Ht).
  simpl andb. cbv iota. unfold shoot. rewrite Hm'.
  replace (magAmmo w <=? 0)%Z with true by (symmetry; apply Z.leb_le; exact Hm).
  cbv iota.
  assert (Htr : shootTimer (reload wb) = shootTimer w).
  { unfold reload. destruct (_ || _); [exact Ht' |]. simpl.
    destruct (onAmmoChange wb); exact Ht'. }
  rewrite Htr.
  replace (Qle_bool (shootTimer w) 0) with true
    by (symmetry; apply Qle_bool_iff; exact Ht).
  simpl negb. cbv iota. split; [reflexivity |]. split; [exact Htr |].
  rewrite meshes_reload. exact Hsub.
Qed.

(** No shot and no reload while the timer outlasts the inputs. *)
Lemma run_gated (aim : Aim) (inputs : list Input) (w : State) :
  isLoaded w = true ->
  forallb (fun i => negb (isMouseDown i)) inputs = true ->
  Forall nonnegFrame inputs ->
  (elapsed inputs < shootTimer w)%Q ->
  exists w',
    run aim inputs w = Some w'
    /\ magAmmo w' = magAmmo w
    /\ totalAmmo w' = totalAmmo w
    /\ sublist (meshes w') (meshes w).
Proof.
  revert w. induction inputs as [| i rest IH]; intros w Hl Hno Hnn Ht.
  - exists w. repeat split; reflexivity.
  - simpl in Hno. apply andb_true_iff in Hno as [Hi Hno].
    inversion Hnn as [| ? ? Hi0 Hnn']; subst.
    pose proof (elapsed_nonneg rest Hnn') as Hrest.
    destruct i as [| | dt]; [discriminate Hi | |]; simpl in *.
    + destruct (IH (stopShooting w)) as (w' & Hrun & Hm & Hr & Hsub);
        try assumption.
      exists w'. repeat split; assumption.
    + destruct (update_gated aim dt w Hl) as (w1 & Hup & Hgun & Hsub1);
        [lra |].
      rewrite Hup. unfold gun in Hgun.
      injection Hgun as Hl1 Hs1 Ht1 Hm1 Hx1 Hr1 Hc1.
      destruct (IH w1) as (w' & Hrun & Hm & Hr & Hsub); try assumption.
      * congruence.
      * rewrite Ht1. lra.
      * exists w'. split; [exact Hrun |]. split; [congruence |].
        split; [congruence |]. etransitivity; eassumption.
Qed.

Lemma isLoaded_reload (w : State) : isLoaded (reload w) = isLoaded w.
Proof.
  unfold reload. destruct (_ || _); [reflexivity |].
  cbv zeta. destruct (onAmmoChange _); reflexivity.
Qed.

Lemma isLoaded_createBulletTrail (startPos direction : Vector3) (w : State) :
  isLoaded (createBulletTrail startPos direction w) = isLoaded w.
Proof.
  unfold createBulletTrail, createBulletCollider, alloc, sceneAdd. simpl.
  destruct (maxBulletTrails <? _)%nat; [| reflexivity].
  destruct (activeBullets w ++ _); reflexivity.
Qed.

Lemma isLoaded_emit (e : Event) (w : State) : isLoaded (emit e w) = isLoaded w.
Proof. reflexivity. Qed.

Lemma isLoaded_set_ammo (m r : Z) (w : State) :
  isLoaded (set_ammo m r w) = isLoaded w.
Proof. reflexivity. Qed.

Lemma isLoaded_shoot (aim : Aim) (w : State) :
  isLoaded (fst (shoot aim w)) = isLoaded w.
Proof.
  unfold shoot. destruct (_ <=? 0)%Z; cbv zeta; cbn [fst].
  - apply isLoaded_reload.
  - destruct (onAmmoChange _); rewrite ?isLoaded_emit;
      rewrite isLoaded_createBulletTrail; apply isLoaded_set_ammo.
Qed.

Lemma update_isLoaded (aim : Aim) (dt : Q) (w w' : State) :
  isLoaded w = true -> update aim dt w = Some w' -> isLoaded w' = true.
Proof.
  intros Hl Hup.
  destruct (update_prefix aim dt w Hl) as (wb & Hg & _ & Hup').
  rewrite Hup' in Hup. injection Hup as <-. cbv zeta.
  unfold gun in Hg. injection Hg as Hlb _ _ _ _ _ _.
  destruct (isShooting wb && _).
  - pose proof (isLoaded_shoot aim wb) as Hshoot.
    destruct (shoot aim wb) as [wz [|]]; simpl in Hshoot;
      destruct (negb _); simpl; congruence.
  - destruct (negb _); simpl; congruence.
Qed.

Lemma run_isLoaded (aim : Aim) (inputs : list Input) (w w' : State) :
  isLoaded w = true -> run aim inputs w = Some w' -> isLoaded w' = true.
Proof.
  revert w. induction inputs as [| i rest IH]; intros w Hl Hrun; simpl in Hrun.
  - congruence.
  - destruct (step aim i w) as [w1 |] eqn:Est; [| discriminate].
    apply (IH w1); [| exact Hrun].
    destruct i; simpl in Est.
    + injection Est as <-. unfold startShooting. rewrite Hl. exact Hl.
    + injection Est as <-. exact Hl.
    + eapply update_isLoaded; eassumption.
Qed.

End Gate.

Section GateClaim.

Context {T : THREE}.

(** C6, as amended. The gate works within one hold of the trigger. When a
    frame fires (trigger held, timer run out, a round in the magazine) it
    creates exactly one bullet, and as long as no new press arrives and
    the frame times summed from the firing frame on stay below [fireRate],
    the following frames create no bullet, consume no round and trigger no
    reload; nothing is queued. A new press resets the timer to zero. With an
    empty magazine the frame calls [reload] once, creates no bullet and
    leaves the timer unarmed. *)
Theorem fire_rate_gate_within_hold
    (aim : Aim) (w : State) (d0 : Q) (inputs : list Input) :
  isLoaded w = true ->
  isShooting w = true ->
  (shootTimer w <= 0)%Q ->
  forallb (fun i => negb (isMouseDown i)) inputs = true ->
  Forall nonnegFrame inputs ->
  (d0 + elapsed inputs < fireRate)%Q ->
  ((0 < magAmmo w)%Z ->
   exists wb w1 w2,
     update aim d0 w = Some w1
     /\ sublist (meshes wb) (meshes w)
     /\ activeBullets w1 =
        activeBullets
          (createBulletTrail (muzzlePos aim) (normalize (worldDirection aim)) wb)
     /\ magAmmo w1 = (magAmmo w - 1)%Z
     /\ run aim inputs w1 = Some w2
     /\ magAmmo w2 = magAmmo w1
     /\ totalAmmo w2 = totalAmmo w
     /\ sublist (meshes w2) (meshes w1)
     /\ shootTimer (startShooting w2) = 0%Q)
  /\ ((magAmmo w <= 0)%Z ->
      exists wb w1,
        update aim d0 w = Some w1
        /\ gun wb = gun w
        /\ gun w1 = gun (reload wb)
        /\ shootTimer w1 = shootTimer w
        /\ sublist (meshes w1) (meshes w)).
Proof.
  intros Hl Hs Ht Hno Hnn Hsum. split; intros Hm.
  - destruct (update_fires aim d0 w Hl Hs Ht Hm) as (wb & w1 & Hup & Hsub & Hact & Hgun).
    unfold gun in Hgun. injection Hgun as Hl1 Hs1 Ht1 Hm1 Hx1 Hr1 Hc1.
    destruct (run_gated aim inputs w1) as (w2 & Hrun & Hm2 & Hr2 & Hsub2);
      try assumption.
    { rewrite Ht1. lra. }
    exists wb, w1, w2. repeat split; try assumption; try congruence.
    unfold startShooting.
    rewrite (run_isLoaded aim inputs w1 w2 Hl1 Hrun). reflexivity.
  - destruct (update_reloads aim d0 w Hl Hs Ht Hm) as (wb & w1 & H).
    exists wb, w1. exact H.
Qed.

End GateClaim.

Lemma fire_rate_gate_within_hold_witness :
  exists w1 w2,
    update (T := boxCaster) ahead 0.016 (startShooting loaded) = Some w1
    /\ magAmmo w1 = 29%Z
    /\ run (T := boxCaster) ahead heldFrames w1 = Some w2
    /\ magAmmo w2 = 29%Z
    /\ sublist (meshes w2) (meshes w1).
Proof.
  destruct (fire_rate_gate_within_hold (T := boxCaster) ahead
              (startShooting loaded) 0.016 heldFrames)
    as [Hfire _].
  - vm_compute. reflexivity.
  - vm_compute. reflexivity.
  - vm_compute. discriminate.
  - vm_compute. reflexivity.
  - repeat constructor; vm_compute; discriminate.
  - vm_compute. reflexivity.
  - destruct Hfire as (wb & w1 & w2 & Hup & _ & _ & Hm1 & Hrun & Hm2 & _ & Hsub & _).
    + vm_compute. reflexivity.
    + exists w1, w2.
      split; [exact Hup |].
      split; [rewrite Hm1; vm_compute; reflexivity |].
      split; [exact Hrun |].
      split; [rewrite Hm2, Hm1; vm_compute; reflexivity | exact Hsub].
Defined.

(** Counterexample to C6 as stated: two presses of the trigger one frame
    (16 ms, less than [fireRate]) apart, with a full magazine, spawn two
    projectiles, because [startShooting] resets [shootTimer] to zero. *)
Lemma fire_rate_gate_counterexample :
  (0.016 < fireRate)%Q
  /\ (0 < magAmmo loaded)%Z
  /\ exists w',
       run (T := boxCaster) ahead doubleTap loaded = Some w'
       /\ length (activeBullets w') = 2
       /\ magAmmo w' = (magAmmo loaded - 2)%Z.
Proof.
  split; [vm_compute; reflexivity |]. split; [vm_compute; reflexivity |].
  eexists. split; [vm_compute; reflexivity |].
  split; vm_compute; reflexivity.
Qed.

(** ** Registered colliders are visible

    The ray cast of the target branch is given the colliders whose
    [visible] is not false. Every collider the weapon creates is visible,
    and then the list is that of all registered colliders. *)

Lemma mapGet_mapSet (k v : ObjId) (m : list (ObjId * ObjId)) :
  mapGet k (mapSet k v m) = Some v.
Proof.
  unfold mapSet, mapGet. destruct (mapHas k m) eqn:Eh.
  - induction m as [| [k' v'] m IH]; [discriminate |].
    cbn [mapHas existsb fst] in Eh. cbn [List.map fst].
    destruct (Nat.eqb k' k) eqn:E; cbn [List.find fst].
    + rewrite Nat.eqb_refl. reflexivity.
    + rewrite E. apply IH. exact Eh.
  - induction m as [| [k' v'] m IH]; cbn [app List.find fst].
    + rewrite Nat.eqb_refl. reflexivity.
    + cbn [mapHas existsb fst] in Eh. apply orb_false_iff in Eh as [E Eh].
      rewrite E. apply IH. exact Eh.
Qed.

Lemma createTargetCollider_visible (target : ObjId) (size : Vector3) (w : State) :
  mapGet target (targetColliders (createTargetCollider target size w)) =
    Some (nextId w)
  /\ visible (getObj (createTargetCollider target size w) (nextId w)) = true
  /\ parentTarget (getObj (createTargetCollider target size w) (nextId w)) =
     Some target.
Proof.
  unfold createTargetCollider, alloc, sceneAdd. cbv zeta.
  cbn [targetColliders set_targetColliders set_scene set_nextId set_heap].
  split; [apply mapGet_mapSet |].
  unfold getObj. cbn [heap set_targetColliders set_scene set_nextId set_heap].
  rewrite lookup_total_insert_eq. split; reflexivity.
Qed.

Lemma targetColliderList_all_visible (w : State) :
  (forall c, In c (List.map snd (targetColliders w)) ->
             visible (getObj w c) = true) ->
  targetColliderList w = List.map snd (targetColliders w).
Proof.
  unfold targetColliderList. induction (List.map snd (targetColliders w))
    as [| c l IH]; intros Hv; [reflexivity |].
  cbn [List.filter]. rewrite (Hv c) by (left; reflexivity).
  f_equal. apply IH. intros c' Hc'. apply Hv. right. exact Hc'.
Qed.

(** ** Collision precedence *)

Lemma getObj_setPosition (id : ObjId) (p : Vector3) (w : State) (x : ObjId) :
  getObj (setPosition id p w) x =
  if decide (id = x) then with_position p (getObj w id) else getObj w x.
Proof. unfold getObj, setPosition. cbn [heap set_heap]. apply lookup_total_insert. Qed.

Lemma getObj_setPosition_eq (id : ObjId) (p : Vector3) (w : State) :
  getObj (setPosition id p w) id = with_position p (getObj w id).
Proof. rewrite getObj_setPosition. destruct (decide (id = id)); congruence. Qed.

Lemma getObj_setPosition_ne (id : ObjId) (p : Vector3) (w : State) (x : ObjId) :
  id <> x -> getObj (setPosition id p w) x = getObj w x.
Proof. intros H. rewrite getObj_setPosition. destruct (decide (id = x)); congruence. Qed.

(** Moving an object changes none of its flags. *)
Lemma flags_setPosition (id : ObjId) (p : Vector3) (w : State) (x : ObjId) :
  isTarget (getObj (setPosition id p w) x) = isTarget (getObj w x)
  /\ onHit (getObj (setPosition id p w) x) = onHit (getObj w x)
  /\ visible (getObj (setPosition id p w) x) = visible (getObj w x)
  /\ parentTarget (getObj (setPosition id p w) x) = parentTarget (getObj w x)
  /\ boxSize (getObj (setPosition id p w) x) = boxSize (getObj w x).
Proof.
  rewrite getObj_setPosition.
  destruct (decide (id = x)) as [-> |]; repeat split; reflexivity.
Qed.

Lemma getObj_snapToHit_mesh (b : Bullet) (c : ObjId) (hit : Intersection)
    (w : State) :
  position (getObj (snapToHit b c hit w) (mesh b)) = point hit.
Proof.
  unfold snapToHit. cbv zeta. rewrite getObj_setPosition.
  destruct (decide (c = mesh b)) as [-> |]; [reflexivity |].
  rewrite getObj_setPosition_eq. reflexivity.
Qed.

Lemma flags_snapToHit (b : Bullet) (c : ObjId) (hit : Intersection)
    (w : State) (x : ObjId) :
  isTarget (getObj (snapToHit b c hit w) x) = isTarget (getObj w x)
  /\ onHit (getObj (snapToHit b c hit w) x) = onHit (getObj w x).
Proof.
  unfold snapToHit. cbv zeta.
  destruct (flags_setPosition c (point hit)
              (setPosition (mesh b) (point hit) w) x) as (-> & -> & _).
  destruct (flags_setPosition (mesh b) (point hit) w x) as (-> & -> & _).
  split; reflexivity.
Qed.

Lemma heap_removeBulletCollider (m : ObjId) (w : State) :
  heap (removeBulletCollider m w) = heap w.
Proof. unfold removeBulletCollider. destruct (_ !! _); reflexivity. Qed.

Lemma events_removeBulletCollider (m : ObjId) (w : State) :
  events (removeBulletCollider m w) = events w.
Proof. unfold removeBulletCollider. destruct (_ !! _); reflexivity. Qed.

Lemma heap_removeAfterHit (b : Bullet) (w : State) :
  heap (removeAfterHit b w) = heap w.
Proof.
  unfold removeAfterHit. cbv zeta.
  destruct (indexOf _ _); cbn [heap set_activeBullets sceneRemove set_scene];
    apply heap_removeBulletCollider.
Qed.

Lemma events_removeAfterHit (b : Bullet) (w : State) :
  events (removeAfterHit b w) = events w.
Proof.
  unfold removeAfterHit. cbv zeta.
  destruct (indexOf _ _); cbn [events set_activeBullets sceneRemove set_scene];
    apply events_removeBulletCollider.
Qed.

Lemma getObj_removeAfterHit (b : Bullet) (w : State) (x : ObjId) :
  getObj (removeAfterHit b w) x = getObj w x.
Proof. unfold getObj. rewrite heap_removeAfterHit. reflexivity. Qed.

Lemma heap_onTargetHit (t : ObjId) (h : Intersection) (w : State) :
  heap (onTargetHit t h w) = heap w.
Proof. unfold onTargetHit. destruct (onHit _); reflexivity. Qed.

(** The target branch snaps the bullet to the hit point, removes its
    collider and reports the hit to the parent target. *)
Lemma resolveTargetHit_spec (b : Bullet) (c : ObjId) (hit : Intersection)
    (w : State) :
  position (getObj (resolveTargetHit b c hit w) (mesh b)) = point hit
  /\ bulletColliders (resolveTargetHit b c hit w) !! mesh b = None
  /\ splicedFrom (activeBullets (resolveTargetHit b c hit w)) (activeBullets w)
  /\ (forall t,
        parentTarget (getObj w (object hit)) = Some t ->
        isTarget (getObj w t) = true ->
        onHit (getObj w t) = true ->
        events (resolveTargetHit b c hit w) = events w ++ [TargetHit t hit]).
Proof.
  unfold resolveTargetHit. cbv zeta.
  set (w1 := snapToHit b c hit w).
  set (w2 := match parentTarget (getObj w (object hit)) with
             | Some t => if isTarget (getObj w1 t) then onTargetHit t hit w1 else w1
             | None => w1
             end).
  assert (Hheap : heap w2 = heap w1).
  { subst w2. destruct (parentTarget _); [| reflexivity].
    destruct (isTarget _); [apply heap_onTargetHit | reflexivity]. }
  assert (Hact : activeBullets w2 = activeBullets w).
  { subst w2. destruct (parentTarget _); [| reflexivity].
    destruct (isTarget _); [| reflexivity].
    rewrite activeBullets_onTargetHit. reflexivity. }
  split; [| split; [| split]].
  - rewrite getObj_removeAfterHit. unfold getObj. rewrite Hheap.
    apply getObj_snapToHit_mesh.
  - apply removeAfterHit_collider_gone.
  - rewrite <- Hact. apply activeBullets_removeAfterHit.
  - intros t Hp Ht Ho. rewrite events_removeAfterHit. subst w2. rewrite Hp.
    destruct (flags_snapToHit b c hit w t) as [Ht1 Ho1]. fold w1 in Ht1, Ho1.
    rewrite Ht1, Ht. unfold onTargetHit. rewrite Ho1, Ho. reflexivity.
Qed.

Section Precedence.

Context {T : THREE}.


End Precedence.

(** The environment ray cast is not consulted: two ray casters that agree
    on lengths and on the target colliders give the same result, whatever
    they answer about the environment. *)
Lemma environment_not_consulted (T1 T2 : THREE)
    (bullet : Bullet) (prevPosition : Vector3) (w : State)
    (hit : Intersection) (others1 others2 : list Intersection) :
  (forall v, @vlength T1 v = @vlength T2 v) ->
  @intersectObjects T1 (heap w)
    (sweepRay (T := T1) prevPosition (position (getObj w (mesh bullet))))
    (targetColliderList w) false = hit :: others1 ->
  @intersectObjects T2 (heap w)
    (sweepRay (T := T2) prevPosition (position (getObj w (mesh bullet))))
    (targetColliderList w) false = hit :: others2 ->
  checkBulletColliderCollision (T := T1) bullet prevPosition w =
  checkBulletColliderCollision (T := T2) bullet prevPosition w.
Proof.
  intros Hlen H1 H2. unfold checkBulletColliderCollision.
  destruct (bulletColliders w !! mesh bullet); [| reflexivity].
  rewrite Hlen. destruct (Qeq_bool _ 0); [reflexivity |].
  rewrite H1, H2. reflexivity.
Qed.


(** ** The sweep of a bullet *)

Lemma Qle_bool_false (a b : Q) : Qle_bool a b = false -> (b < a)%Q.
Proof.
  intros H. apply Qnot_le_lt. intros Hle. apply Qle_bool_iff in Hle. congruence.
Qed.

Lemma bulletColliders_advance (b : Bullet) (dt : Q) (w : State) :
  bulletColliders (advance b dt w) = bulletColliders w.
Proof. unfold advance. cbv zeta. destruct (_ !! _); reflexivity. Qed.

Lemma targetColliders_advance (b : Bullet) (dt : Q) (w : State) :
  targetColliders (advance b dt w) = targetColliders w.
Proof. unfold advance. cbv zeta. destruct (_ !! _); reflexivity. Qed.

Lemma activeBullets_advance (b : Bullet) (dt : Q) (w : State) :
  activeBullets (advance b dt w) = activeBullets w.
Proof. unfold advance. cbv zeta. destruct (_ !! _); reflexivity. Qed.

Lemma position_advance (b : Bullet) (dt : Q) (w : State) :
  positionOf b (advance b dt w) = nextPosition b dt w.
Proof.
  unfold positionOf, nextPosition, advance, positionOf. cbv zeta.
  destruct (_ !! _) as [c |].
  - rewrite getObj_setPosition. destruct (decide (c = mesh b)) as [-> |].
    + rewrite !getObj_setPosition_eq. reflexivity.
    + rewrite getObj_setPosition_eq. reflexivity.
  - rewrite getObj_setPosition_eq. reflexivity.
Qed.

Lemma visible_advance (b : Bullet) (dt : Q) (w : State) (x : ObjId) :
  visible (getObj (advance b dt w) x) = visible (getObj w x).
Proof.
  unfold advance. cbv zeta. destruct (_ !! _) as [c |].
  - match goal with
    | |- visible (getObj (setPosition c ?p ?w1) x) = _ =>
        destruct (flags_setPosition c p w1 x) as (_ & _ & -> & _)
    end.
    match goal with
    | |- visible (getObj (setPosition ?m ?p w) x) = _ =>
        destruct (flags_setPosition m p w x) as (_ & _ & -> & _)
    end.
    reflexivity.
  - match goal with
    | |- visible (getObj (setPosition ?m ?p w) x) = _ =>
        destruct (flags_setPosition m p w x) as (_ & _ & -> & _)
    end.
    reflexivity.
Qed.

Lemma targetColliderList_advance (b : Bullet) (dt : Q) (w : State) :
  targetColliderList (advance b dt w) = targetColliderList w.
Proof.
  unfold targetColliderList. rewrite targetColliders_advance.
  apply List.filter_ext. intros x. apply visible_advance.
Qed.

(** The bullet's own move does not move any other object. *)
Lemma getObj_advance (b : Bullet) (dt : Q) (w : State) (bc x : ObjId) :
  bulletColliders w !! mesh b = Some bc ->
  x <> mesh b -> x <> bc ->
  getObj (advance b dt w) x = getObj w x.
Proof.
  intros Hbc Hm Hc. unfold advance. cbv zeta.
  replace (bulletColliders (setPosition (mesh b) _ w) !! mesh b) with (Some bc)
    by (symmetry; exact Hbc).
  rewrite !getObj_setPosition_ne by congruence. reflexivity.
Qed.

Lemma bulletStep_advance {T : THREE} (i : nat) (b : Bullet) (dt : Q) (w : State) :
  bulletStep i b dt w =
  let w1 := fst (checkBulletColliderCollision b (positionOf b w) (advance b dt w)) in
  let w2 := set_activeBullets
              (setLife (mesh b) (life b - dt) (activeBullets w1)) w1 in
  if Qle_bool (life b - dt) 0 then
    let w3 := sceneRemove (mesh b) (removeBulletCollider (mesh b) w2) in
    set_activeBullets (delete i (activeBullets w3)) w3
  else w2.
Proof. reflexivity. Qed.

(** The sweep ray starts at the previous position, and its far end is the
    new position. *)
Lemma sweepRay_covers_segment {T : THREE} (prev pos : Vector3) (s : Q) :
  ~ (vlength (subVectors pos prev) == 0)%Q ->
  origin (sweepRay prev pos) = prev
  /\ near (sweepRay prev pos) = 0%Q
  /\ far (sweepRay prev pos) = vlength (subVectors pos prev)
  /\ veq (rayAt (sweepRay prev pos) (far (sweepRay prev pos))) pos
  /\ veq (rayAt (sweepRay prev pos) (s * vlength (subVectors pos prev)))
         (segmentPoint prev pos s).
Proof.
  intros HL. unfold sweepRay. cbv zeta. cbn [origin near far direction].
  repeat split; try reflexivity;
    unfold rayAt, segmentPoint, normalize, add, multiplyScalar, subVectors;
    cbn [origin direction vx vy vz];
    (destruct (Qeq_bool _ 0) eqn:E;
     [apply Qeq_bool_iff in E; contradiction | field; exact HL]).
Qed.

Lemma indexOf_spec (b : Bullet) (bs : list Bullet) (i : nat) :
  indexOf b bs = Some i ->
  exists b', bs !! i = Some b' /\ mesh b' = mesh b.
Proof.
  unfold indexOf. destruct (list_find _ bs) as [[j b'] |] eqn:E; [| discriminate].
  simpl. intros [= <-]. apply list_find_Some in E as (E1 & E2 & _). eauto.
Qed.

Lemma indexOf_None (b : Bullet) (bs : list Bullet) :
  indexOf b bs = None -> ~ In (mesh b) (List.map mesh bs).
Proof.
  unfold indexOf. destruct (list_find _ bs) as [[j b'] |] eqn:E; [discriminate |].
  intros _ Hin. apply in_map_iff in Hin as (b' & Hm & Hb').
  apply list_find_None in E. rewrite Forall_forall in E.
  apply (E b'); [apply list_elem_of_In; exact Hb' | exact Hm].
Qed.

(** Splicing a bullet out of an array without duplicates removes its mesh. *)
Lemma delete_mesh_gone (bs : list Bullet) (i : nat) (b : Bullet) :
  NoDup (List.map mesh bs) -> bs !! i = Some b ->
  ~ In (mesh b) (List.map mesh (delete i bs)).
Proof.
  revert i. induction bs as [| a bs IH]; intros i Hnd Hi; [discriminate |].
  apply NoDup_cons in Hnd as [Ha Hnd]. destruct i as [| i]; simpl in *.
  - injection Hi as ->. rewrite <- list_elem_of_In. exact Ha.
  - intros [E | Hin].
    + apply Ha. rewrite E. apply list_elem_of_In, in_map.
      apply list_elem_of_In. eapply list_elem_of_lookup_2, Hi.
    + eapply IH; eassumption.
Qed.

Lemma removeAfterHit_mesh_gone (b : Bullet) (w : State) :
  NoDup (meshes w) -> ~ In (mesh b) (meshes (removeAfterHit b w)).
Proof.
  intros Hnd. unfold meshes, removeAfterHit. cbv zeta.
  rewrite activeBullets_sceneRemove, activeBullets_removeBulletCollider.
  destruct (indexOf b (activeBullets w)) as [i |] eqn:E.
  - rewrite activeBullets_set_activeBullets.
    destruct (indexOf_spec b _ i E) as (b' & Hb' & <-).
    apply delete_mesh_gone; assumption.
  - rewrite activeBullets_sceneRemove, activeBullets_removeBulletCollider.
    apply indexOf_None, E.
Qed.

Lemma heap_set_activeBullets (l : list Bullet) (w : State) :
  heap (set_activeBullets l w) = heap w.
Proof. reflexivity. Qed.

Lemma heap_sceneRemove (id : ObjId) (w : State) : heap (sceneRemove id w) = heap w.
Proof. reflexivity. Qed.

Lemma bulletColliders_set_activeBullets (l : list Bullet) (w : State) :
  bulletColliders (set_activeBullets l w) = bulletColliders w.
Proof. reflexivity. Qed.

Lemma bulletColliders_sceneRemove (id : ObjId) (w : State) :
  bulletColliders (sceneRemove id w) = bulletColliders w.
Proof. reflexivity. Qed.

#[local] Hint Rewrite heap_set_activeBullets heap_sceneRemove
  heap_removeBulletCollider bulletColliders_set_activeBullets
  bulletColliders_sceneRemove : frame.

Lemma sublist_not_In {A} (x : A) (l' l : list A) :
  sublist l' l -> ~ In x l -> ~ In x l'.
Proof.
  induction 1; simpl; intros Hn; [tauto | |].
  - intros [E | Hin]; [apply Hn; left; exact E |].
    apply IHsublist; [| exact Hin]. intros H'. apply Hn. right. exact H'.
  - apply IHsublist. intros H'. apply Hn. right. exact H'.
Qed.

Lemma resolveTargetHit_mesh_gone (b : Bullet) (c : ObjId) (hit : Intersection)
    (w : State) :
  NoDup (meshes w) -> ~ In (mesh b) (meshes (resolveTargetHit b c hit w)).
Proof.
  intros Hnd. unfold resolveTargetHit. cbv zeta.
  apply removeAfterHit_mesh_gone. unfold meshes.
  replace (activeBullets _) with (activeBullets w); [exact Hnd |].
  destruct (parentTarget _); [| reflexivity].
  destruct (isTarget _); [| reflexivity].
  rewrite activeBullets_onTargetHit. reflexivity.
Qed.

(** ** Bullets in flight keep their colliders

    In every state reached from the loaded weapon by presses, releases and
    frames, each bullet in the array has a collider: the colliders that are
    lost are those of bullets already out of the array. *)

Lemma armed_ext (w w' : State) :
  activeBullets w' = activeBullets w ->
  bulletColliders w' = bulletColliders w ->
  nextId w <= nextId w' ->
  armed w -> armed w'.
Proof.
  unfold armed, meshes. intros -> -> Hn [Hnd Hc]. split; [exact Hnd |].
  intros m Hm. destruct (Hc m Hm) as [Hs Hlt]. split; [exact Hs | lia].
Qed.

Lemma sublist_In {A} (x : A) (l' l : list A) :
  sublist l' l -> In x l' -> In x l.
Proof.
  intros Hs Hin. apply list_elem_of_In. eapply elem_of_sublist; [| exact Hs].
  apply list_elem_of_In. exact Hin.
Qed.

Lemma bulletColliders_removeBulletCollider (m : ObjId) (w : State) :
  bulletColliders (removeBulletCollider m w) = delete m (bulletColliders w).
Proof.
  unfold removeBulletCollider. destruct (bulletColliders w !! m) eqn:E.
  - reflexivity.
  - symmetry. apply delete_id. exact E.
Qed.

Lemma nextId_removeBulletCollider (m : ObjId) (w : State) :
  nextId (removeBulletCollider m w) = nextId w.
Proof. unfold removeBulletCollider. destruct (_ !! _); reflexivity. Qed.

Lemma nextId_set_activeBullets (l : list Bullet) (w : State) :
  nextId (set_activeBullets l w) = nextId w.
Proof. reflexivity. Qed.

Lemma nextId_sceneRemove (id : ObjId) (w : State) :
  nextId (sceneRemove id w) = nextId w.
Proof. reflexivity. Qed.

Lemma nextId_setPosition (id : ObjId) (p : Vector3) (w : State) :
  nextId (setPosition id p w) = nextId w.
Proof. reflexivity. Qed.

Lemma nextId_onTargetHit (t : ObjId) (h : Intersection) (w : State) :
  nextId (onTargetHit t h w) = nextId w.
Proof. unfold onTargetHit. destruct (onHit _); reflexivity. Qed.

Lemma bulletColliders_setPosition (id : ObjId) (p : Vector3) (w : State) :
  bulletColliders (setPosition id p w) = bulletColliders w.
Proof. reflexivity. Qed.

Lemma bulletColliders_onTargetHit (t : ObjId) (h : Intersection) (w : State) :
  bulletColliders (onTargetHit t h w) = bulletColliders w.
Proof. unfold onTargetHit. destruct (onHit _); reflexivity. Qed.

Lemma nextId_advance (b : Bullet) (dt : Q) (w : State) :
  nextId (advance b dt w) = nextId w.
Proof. unfold advance. cbv zeta. destruct (_ !! _); reflexivity. Qed.

#[local] Hint Rewrite bulletColliders_removeBulletCollider
  nextId_removeBulletCollider nextId_set_activeBullets nextId_sceneRemove
  nextId_setPosition nextId_onTargetHit bulletColliders_setPosition
  bulletColliders_onTargetHit : frame.

Lemma removeAfterHit_frame (b : Bullet) (w : State) :
  bulletColliders (removeAfterHit b w) = delete (mesh b) (bulletColliders w)
  /\ nextId (removeAfterHit b w) = nextId w.
Proof.
  unfold removeAfterHit. cbv zeta.
  destruct (indexOf _ _); autorewrite with frame; split; reflexivity.
Qed.

Section Armed.

Context {T : THREE}.

(** The two outcomes of the collision test. *)
Lemma check_cases (b : Bullet) (prev : Vector3) (w : State) :
  checkBulletColliderCollision b prev w = (w, false)
  \/ exists w2,
       checkBulletColliderCollision b prev w = (removeAfterHit b w2, true)
       /\ activeBullets w2 = activeBullets w
       /\ bulletColliders w2 = bulletColliders w
       /\ nextId w2 = nextId w.
Proof.
  unfold checkBulletColliderCollision.
  destruct (bulletColliders w !! mesh b) as [bc |]; [| left; reflexivity].
  destruct (Qeq_bool _ 0); [left; reflexivity |].
  destruct (intersectObjects _ _ (targetColliderList w) false) as [| hit ?].
  - destruct (intersectObjects _ _ _ true) as [| hit ?]; [left; reflexivity |].
    right. eexists. split; [reflexivity |]. repeat split; reflexivity.
  - right. eexists. split; [reflexivity |].
    destruct (parentTarget _); [| repeat split; reflexivity].
    destruct (isTarget _); [| repeat split; reflexivity].
    unfold snapToHit. autorewrite with frame. repeat split; reflexivity.
Qed.

Lemma setLife_lookup (bs : list Bullet) (i : nat) (b : Bullet) (q : Q) :
  bs !! i = Some b ->
  exists b', setLife (mesh b) q bs !! i = Some b' /\ mesh b' = mesh b.
Proof.
  intros Hi. unfold setLife.
  assert (H : List.map (fun b0 => if Nat.eqb (mesh b0) (mesh b)
                                  then mkBullet (mesh b0) (velocity b0) q else b0) bs
              !! i
              = Some (if Nat.eqb (mesh b) (mesh b)
                      then mkBullet (mesh b) (velocity b) q else b)).
  { revert i Hi. induction bs as [| a bs IH]; intros [| i] Hi;
      try discriminate; simpl in *.
    - injection Hi as ->. reflexivity.
    - apply IH. exact Hi. }
  rewrite H, Nat.eqb_refl. eexists. split; reflexivity.
Qed.

(** One step of the loop either keeps the collider map or removes the entry
    of the current bullet, and in that case the bullet has left the array. *)
Lemma bulletStep_frame (i : nat) (b : Bullet) (dt : Q) (w : State) :
  NoDup (meshes w) ->
  activeBullets w !! i = Some b ->
  nextId (bulletStep i b dt w) = nextId w
  /\ (bulletColliders (bulletStep i b dt w) = bulletColliders w
      \/ (bulletColliders (bulletStep i b dt w) =
            delete (mesh b) (bulletColliders w)
          /\ ~ In (mesh b) (meshes (bulletStep i b dt w)))).
Proof.
  intros Hnd Hi. rewrite bulletStep_advance. cbv zeta.
  pose proof (activeBullets_advance b dt w) as Ha0.
  pose proof (bulletColliders_advance b dt w) as Hc0.
  pose proof (nextId_advance b dt w) as Hn0.
  set (w0 := advance b dt w) in *. clearbody w0.
  destruct (check_cases b (positionOf b w) w0)
    as [E | (w2 & E & Ha & Hc & Hn)]; rewrite E; cbn [fst].
  - destruct (Qle_bool (life b - dt) 0).
    + autorewrite with frame. split; [exact Hn0 |]. right.
      split; [rewrite Hc0; reflexivity |].
      unfold meshes. autorewrite with frame. rewrite Ha0.
      destruct (setLife_lookup (activeBullets w) i b (life b - dt) Hi)
        as (b' & Hb' & Hm).
      intros Hin.
      apply (delete_mesh_gone
               (setLife (mesh b) (life b - dt) (activeBullets w)) i b');
        [rewrite map_mesh_setLife; exact Hnd | exact Hb' |].
      rewrite Hm. exact Hin.
    + autorewrite with frame. split; [exact Hn0 |]. left. exact Hc0.
  - destruct (removeAfterHit_frame b w2) as [Hcr Hnr].
    assert (Hgone : ~ In (mesh b) (meshes (removeAfterHit b w2))).
    { apply removeAfterHit_mesh_gone. unfold meshes. rewrite Ha, Ha0. exact Hnd. }
    set (wr := removeAfterHit b w2) in *. clearbody wr.
    destruct (Qle_bool (life b - dt) 0).
    + autorewrite with frame. split; [congruence |]. right. split.
      * rewrite Hcr, Hc, Hc0. apply delete_delete_eq.
      * unfold meshes in *. autorewrite with frame.
        eapply sublist_not_In; [apply sublist_map, sublist_delete |].
        rewrite map_mesh_setLife. exact Hgone.
    + autorewrite with frame. split; [congruence |]. right. split.
      * rewrite Hcr, Hc, Hc0. reflexivity.
      * unfold meshes in *. autorewrite with frame.
        rewrite map_mesh_setLife. exact Hgone.
Qed.

Lemma armed_bulletStep (i : nat) (b : Bullet) (dt : Q) (w : State) :
  armed w -> activeBullets w !! i = Some b -> armed (bulletStep i b dt w).
Proof.
  intros [Hnd Hc] Hi.
  destruct (bulletStep_frame i b dt w Hnd Hi) as (Hn & Hcol).
  pose proof (meshes_bulletStep i b dt w) as Hsub.
  split; [eapply sublist_NoDup; eassumption |].
  intros m Hm. destruct (Hc m (sublist_In m _ _ Hsub Hm)) as [Hs Hlt].
  split; [| lia].
  destruct Hcol as [-> | [-> Hgone]]; [exact Hs |].
  rewrite lookup_delete_ne; [exact Hs |]. intros <-. contradiction.
Qed.

Lemma armed_updateBulletsFrom (k : nat) (dt : Q) (w w' : State) :
  armed w -> updateBulletsFrom k dt w = Some w' -> armed w'.
Proof.
  revert w. induction k as [| i IH]; intros w Hw Hrun; simpl in Hrun.
  - congruence.
  - destruct (activeBullets w !! i) as [b |] eqn:Hb; [| discriminate].
    eapply IH; [| exact Hrun]. apply armed_bulletStep; assumption.
Qed.

Lemma fold_left_le {B} (f : State -> B -> State) (l : list B) (w : State) :
  (forall a b, nextId a <= nextId (f a b)) ->
  nextId w <= nextId (fold_left f l w).
Proof.
  intros Hf. revert w. induction l as [| b l IH]; intros w; simpl; [lia |].
  etransitivity; [apply Hf | apply IH].
Qed.

Lemma nextId_scanForNewTargets (w : State) :
  nextId w <= nextId (scanForNewTargets w).
Proof.
  unfold scanForNewTargets. apply fold_left_le. intros a b.
  destruct (isTarget _); [| lia]. destruct (mapHas _ _); [lia |].
  unfold createTargetCollider, alloc, sceneAdd. simpl. lia.
Qed.

Lemma nextId_updateTargetColliders (w : State) :
  nextId (updateTargetColliders w) = nextId w.
Proof.
  unfold updateTargetColliders. apply fold_left_preserves. intros a [t c].
  destruct (inScene a t); [reflexivity |].
  unfold removeTargetCollider. destruct (mapGet _ _); reflexivity.
Qed.

Lemma armed_createBulletTrail (startPos direction : Vector3) (w : State) :
  armed w -> armed (createBulletTrail startPos direction w).
Proof.
  intros [Hnd Hc].
  assert (Hcol : bulletColliders (createBulletTrail startPos direction w) =
                 <[nextId w := S (nextId w)]> (bulletColliders w)).
  { unfold createBulletTrail, createBulletCollider, alloc, sceneAdd. cbv zeta.
    cbn [activeBullets set_activeBullets set_bulletColliders set_scene
         set_nextId set_heap].
    destruct (maxBulletTrails <? _)%nat; [| reflexivity].
    destruct (activeBullets w ++ _); reflexivity. }
  assert (Hall : NoDup (meshes w ++ [nextId w])
                 /\ forall m, In m (meshes w ++ [nextId w]) ->
                      is_Some (<[nextId w := S (nextId w)]> (bulletColliders w) !! m)
                      /\ m < S (S (nextId w))).
  { split.
    - apply NoDup_app. split; [exact Hnd |]. split; [| apply NoDup_singleton].
      intros x Hx Hx'. apply list_elem_of_singleton in Hx'. subst x.
      apply list_elem_of_In in Hx. destruct (Hc _ Hx) as [_ Hlt]. lia.
    - intros m Hm. apply in_app_or in Hm as [Hm | [<- | []]].
      + destruct (Hc m Hm) as [Hs Hlt]. split; [| lia].
        rewrite lookup_insert_ne by lia. exact Hs.
      + rewrite lookup_insert_eq. split; [eauto | lia]. }
  destruct Hall as [Hnd' Hc'].
  unfold armed, meshes.
  rewrite createBulletTrail_activeBullets, createBulletTrail_nextId, Hcol.
  cbv zeta. unfold meshes in *.
  replace (List.map mesh (activeBullets w ++ [newBullet direction w]))
    with (List.map mesh (activeBullets w) ++ [nextId w]) in *
    by (rewrite List.map_app; reflexivity).
  destruct (maxBulletTrails <? _)%nat.
  - rewrite map_tl.
    replace (List.map mesh (activeBullets w ++ [newBullet direction w]))
      with (List.map mesh (activeBullets w) ++ [nextId w])
      by (rewrite List.map_app; reflexivity).
    assert (Hsub : sublist (List.tl (List.map mesh (activeBullets w) ++ [nextId w]))
                     (List.map mesh (activeBullets w) ++ [nextId w])).
    { destruct (List.map mesh (activeBullets w) ++ [nextId w]);
        [reflexivity | apply sublist_cons; reflexivity]. }
    split; [eapply sublist_NoDup; eassumption |].
    intros m Hm. apply Hc'. eapply sublist_In; eassumption.
  - replace (List.map mesh (activeBullets w ++ [newBullet direction w]))
      with (List.map mesh (activeBullets w) ++ [nextId w])
      by (rewrite List.map_app; reflexivity).
    split; assumption.
Qed.

Lemma armed_emit (e : Event) (w : State) : armed w -> armed (emit e w).
Proof. apply armed_ext; reflexivity. Qed.

Lemma armed_set_ammo (m t : Z) (w : State) :
  armed w -> armed (set_ammo m t w).
Proof. apply armed_ext; reflexivity. Qed.

Lemma armed_set_shootTimer (q : Q) (w : State) :
  armed w -> armed (set_shootTimer q w).
Proof. apply armed_ext; reflexivity. Qed.

Lemma armed_set_scanCounter (n : nat) (w : State) :
  armed w -> armed (set_scanCounter n w).
Proof. apply armed_ext; reflexivity. Qed.

Lemma armed_scanForNewTargets (w : State) :
  armed w -> armed (scanForNewTargets w).
Proof.
  pose proof (core_scanForNewTargets w) as Hc.
  apply armed_ext.
  - exact (f_equal (fun c => fst (fst (fst c))) Hc).
  - exact (f_equal (fun c => snd (fst (fst c))) Hc).
  - apply nextId_scanForNewTargets.
Qed.

Lemma armed_updateTargetColliders (w : State) :
  armed w -> armed (updateTargetColliders w).
Proof.
  pose proof (core_updateTargetColliders w) as Hc.
  apply armed_ext.
  - exact (f_equal (fun c => fst (fst (fst c))) Hc).
  - exact (f_equal (fun c => snd (fst (fst c))) Hc).
  - rewrite nextId_updateTargetColliders. reflexivity.
Qed.

Lemma armed_reload (w : State) : armed w -> armed (reload w).
Proof.
  unfold reload. destruct (_ || _); [auto |]. cbv zeta.
  intros Hw. destruct (onAmmoChange _); [apply armed_emit |];
    apply armed_set_ammo, Hw.
Qed.

Lemma armed_shoot (aim : Aim) (w : State) :
  armed w -> armed (fst (shoot aim w)).
Proof.
  intros Hw. unfold shoot. destruct (_ <=? 0)%Z; cbv zeta; cbn [fst].
  - apply armed_reload. exact Hw.
  - destruct (onAmmoChange _); [apply armed_emit |];
      apply armed_createBulletTrail, armed_set_ammo, Hw.
Qed.

Lemma armed_update (aim : Aim) (dt : Q) (w w' : State) :
  armed w -> update aim dt w = Some w' -> armed w'.
Proof.
  intros Hw. unfold update. destruct (negb (isLoaded w)); [congruence |].
  cbv zeta.
  set (w0 := if (_ =? 0)%nat then _ else _).
  assert (H0 : armed w0).
  { subst w0. destruct (_ =? 0)%nat; [apply armed_scanForNewTargets |];
      apply armed_set_scanCounter, Hw. }
  clearbody w0.
  destruct (updateBullets dt w0) as [w1 |] eqn:Hub; [| discriminate].
  assert (H1 : armed w1) by (eapply armed_updateBulletsFrom; eassumption).
  pose proof (armed_updateTargetColliders w1 H1) as H2.
  set (w2 := updateTargetColliders w1) in *. clearbody w2.
  intros [= <-].
  assert (Hx : forall x q (c : bool),
             armed x -> armed (if c then set_shootTimer q x else x)).
  { intros x q [|] Hx; [apply armed_set_shootTimer |]; exact Hx. }
  apply Hx.
  destruct (isShooting w2 && _); [| exact H2].
  pose proof (armed_shoot aim w2 H2) as Hs.
  destruct (shoot aim w2) as [w3 [|]]; cbn [fst] in Hs;
    [apply armed_set_shootTimer |]; exact Hs.
Qed.

Lemma update_total (aim : Aim) (dt : Q) (w : State) :
  exists w', update aim dt w = Some w'.
Proof.
  destruct (isLoaded w) eqn:Hl.
  - destruct (update_prefix aim dt w Hl) as (wb & _ & _ & ->). eauto.
  - unfold update. rewrite Hl. eauto.
Qed.

(** Every run of inputs completes, and from an armed state it ends in an
    armed state. *)
Lemma run_armed (aim : Aim) (inputs : list Input) (w : State) :
  armed w -> exists w', run aim inputs w = Some w' /\ armed w'.
Proof.
  revert w. induction inputs as [| i rest IH]; intros w Hw; simpl.
  - eauto.
  - destruct i as [| | dt]; simpl.
    + apply IH. unfold startShooting. destruct (negb _); [exact Hw |].
      revert Hw. apply armed_ext; reflexivity.
    + apply IH. revert Hw. apply armed_ext; reflexivity.
    + destruct (update_total aim dt w) as (w1 & Hup). rewrite Hup.
      apply IH. eapply armed_update; eassumption.
Qed.

End Armed.

Lemma loaded_armed : armed loaded.
Proof. split; vm_compute; [constructor | intros m []]. Qed.

(** Whatever the player does after loading, the run completes and every
    bullet then in flight has its collider. *)
Lemma reachable_armed {T : THREE} (aim : Aim) (inputs : list Input) :
  exists w', run aim inputs loaded = Some w' /\ armed w'.
Proof. apply run_armed, loaded_armed. Qed.

(** With a single bullet in flight, [updateBullets] is one loop body. *)
Lemma updateBullets_single {T : THREE} (b : Bullet) (dt : Q) (w : State) :
  activeBullets w = [b] ->
  updateBullets dt w = Some (bulletStep 0 b dt w).
Proof.
  intros Hb. unfold updateBullets. rewrite Hb. cbn [length updateBulletsFrom].
  rewrite Hb. reflexivity.
Qed.

(** A whole frame on the scene [thinCollider]: the bullet that jumps from
    x = 0 to x = 2 is reported as a hit on the target and removed. *)
Lemma thin_collider_frame :
  exists w' hit,
    update (T := boxCaster) ahead 0.02 thinCollider = Some w'
    /\ activeBullets w' = []
    /\ events w' = [TargetHit 0 hit]
    /\ veq (point hit) (mkVector3 0.95 0 0).
Proof.
  eexists. eexists. split; [vm_compute; reflexivity |].
  split; [reflexivity |]. split; [reflexivity |].
  vm_compute. repeat split.
Qed.

(** A second way in which a bullet loses its place without losing its
    collider. After [burst] on [range250] two bullets are in flight; in the
    next frame the older one (mesh 2) hits the collider while its life runs
    out: the hit branch splices it out, and the expiry branch then splices
    index 0 again, which by now holds the newer bullet (mesh 4). That bullet
    leaves the array while its mesh and its collider 5 stay in the scene. *)
Lemma hit_and_expiry_splice_twice :
  exists w1 w2,
    run (T := boxCaster) ahead burst range250 = Some w1
    /\ meshes w1 = [2; 4]
    /\ update (T := boxCaster) ahead 1 w1 = Some w2
    /\ meshes w2 = []
    /\ length (events w2) = 1
    /\ bulletColliders w2 !! 4 = Some 5
    /\ inScene w2 4 = true
    /\ inScene w2 5 = true.
Proof.
  eexists. eexists. split; [vm_compute; reflexivity |].
  split; [vm_compute; reflexivity |].
  split; [vm_compute; reflexivity |].
  repeat split; vm_compute; reflexivity.
Qed.

End WeaponProofs.

(* ===================================================================== *)
(** * Part IV: properties of the network event handlers *)
(* ===================================================================== *)

Module SceneProofs.

Import Weapon Scene.

(** ** Lists of targets *)

Lemma hasId_eq (id : string) (t : Target) : hasId id t = true <-> targetId t = id.
Proof. unfold hasId. apply String.eqb_eq. Qed.

Lemma existsb_filter_out (id : string) (ts : list Target) :
  existsb (hasId id) (List.filter (fun t => negb (hasId id t)) ts) = false.
Proof.
  induction ts as [| t ts IH]; simpl; [reflexivity |].
  destruct (hasId id t) eqn:E; simpl; [exact IH |].
  rewrite E. exact IH.
Qed.

Lemma find_existsb {A} (p : A -> bool) (l : list A) :
  existsb p l = match List.find p l with Some _ => true | None => false end.
Proof.
  induction l as [| x l IH]; simpl; [reflexivity |].
  destruct (p x); [reflexivity | exact IH].
Qed.

Lemma find_updateFirst {A} (p : A -> bool) (f : A -> A) (l : list A) (x : A) :
  List.find p l = Some x -> p (f x) = true ->
  List.find p (updateFirst p f l) = Some (f x).
Proof.
  induction l as [| y l IH]; simpl; [discriminate |].
  destruct (p y) eqn:E; intros Hx Hf.
  - injection Hx as ->. simpl. rewrite Hf. reflexivity.
  - simpl. rewrite E. apply IH; assumption.
Qed.

Lemma map_updateFirst {A B} (p : A -> bool) (f : A -> A) (g : A -> B)
    (l : list A) :
  (forall x, p x = true -> g (f x) = g x) ->
  List.map g (updateFirst p f l) = List.map g l.
Proof.
  intros Hg. induction l as [| y l IH]; simpl; [reflexivity |].
  destruct (p y) eqn:E; simpl; [rewrite Hg by exact E | rewrite IH]; reflexivity.
Qed.

Lemma In_updateFirst_other {A} (p : A -> bool) (f : A -> A) (l : list A) (x : A) :
  In x l -> p x = false -> In x (updateFirst p f l).
Proof.
  induction l as [| y l IH]; simpl; [tauto |].
  intros [-> | Hin] Hp.
  - rewrite Hp. left. reflexivity.
  - destruct (p y); right; [exact Hin | apply IH; assumption].
Qed.

(** ** Target destruction *)

(** C3. Applying the same [targetDestroyed] event twice leaves the state as
    one application does: after the first one the identifier is absent, so
    the second removes nothing and changes no score. The score grows, by the
    event's points, exactly when the target was present and the destroying
    player is the local player. *)
Theorem onTargetDestroyed_idempotent (destroyData : DestroyData) (s : State) :
  onTargetDestroyed destroyData (onTargetDestroyed destroyData s)
  = onTargetDestroyed destroyData s
  /\ present (dd_targetId destroyData) (onTargetDestroyed destroyData s) = false
  /\ score (onTargetDestroyed destroyData s) =
     (if present (dd_targetId destroyData) s
         && String.eqb (dd_playerId destroyData) (playerId s)
      then score s + dd_points destroyData else score s)%Z
  /\ playerId (onTargetDestroyed destroyData s) = playerId s.
Proof.
  unfold onTargetDestroyed, present.
  destruct (targetManager s) as [tm |] eqn:Etm.
  - unfold destroyTargetById.
    destruct (existsb (hasId (dd_targetId destroyData)) (targets tm)) eqn:Ex.
    + cbn [set_targetManager playerId].
      destruct (String.eqb (dd_playerId destroyData) (playerId s)) eqn:Ep;
        cbn [targetManager set_score set_targetManager set_targets targets
             playerId score];
        rewrite existsb_filter_out;
        cbn [targetManager set_score set_targetManager set_targets targets
             playerId score andb];
        repeat split; reflexivity.
    + cbn [set_targetManager targetManager playerId score andb].
      rewrite Ex. cbn [set_targetManager targetManager playerId score andb].
      repeat split; try reflexivity; exact Ex.
  - rewrite Etm. repeat split; reflexivity.
Qed.

(** ** Authoritative hits *)

Lemma restoreOpacity_recorded (child : Child) (o : Q) :
  recorded child o -> opacityOf (restoreOpacity child) = Some o.
Proof.
  intros (Hm & Hmat & Ho & Hnz). unfold restoreOpacity, opacityOf.
  destruct (material child) as [m |]; [| congruence].
  rewrite Ho, Hm.
  destruct (Qeq_bool o 0) eqn:E; [apply Qeq_bool_iff in E; contradiction |].
  reflexivity.
Qed.

(** C2. An authoritative [targetHit] for a target that is present overwrites
    its health with the event's health, whatever the event's damage and the
    local health were, clears [locallyDestroyed], asks for the hit flash, and
    leaves the other targets alone. When the event's health is positive,
    every traversed mesh whose original opacity was recorded gets it back,
    and the target is alive again. *)
Theorem onTargetHit_overwrites_health
    (hitData : HitData) (s : State) (tm : TargetManager) (target : Target) :
  targetManager s = Some tm ->
  List.find (hasId (hit_targetId hitData)) (targets tm) = Some target ->
  exists tm' target',
    targetManager (onTargetHit hitData s) = Some tm'
    /\ List.find (hasId (hit_targetId hitData)) (targets tm') = Some target'
    /\ targetId target' = targetId target
    /\ health target' = hit_health hitData
    /\ locallyDestroyed target' = false
    /\ hitEffects tm' = hitEffects tm ++ [targetId target]
    /\ List.map targetId (targets tm') = List.map targetId (targets tm)
    /\ (forall other,
          In other (targets tm) ->
          targetId other <> hit_targetId hitData -> In other (targets tm'))
    /\ (forall damage,
          onTargetHit
            (mkHitData (hit_targetId hitData) (hit_playerId hitData) damage
               (hit_health hitData)) s
          = onTargetHit hitData s)
    /\ ((0 < hit_health hitData)%Z ->
        alive target'
        /\ children target' = List.map restoreOpacity (children target)
        /\ forall child o,
             In child (children target) -> recorded child o ->
             In (restoreOpacity child) (children target')
             /\ opacityOf (restoreOpacity child) = Some o).
Proof.
  intros Htm Hfind.
  exists (showHitEffect target
            (set_targets
               (updateFirst (hasId (hit_targetId hitData)) (applyHit hitData)
                  (targets tm)) tm)),
         (applyHit hitData target).
  assert (Hid : hasId (hit_targetId hitData) target = true).
  { apply List.find_some in Hfind. apply Hfind. }
  split; [| split; [| split; [| split; [| split; [| split; [| split;
    [| split; [| split]]]]]]]].
  - unfold onTargetHit. rewrite Htm, Hfind. reflexivity.
  - cbn [showHitEffect set_targets targets].
    apply find_updateFirst; [exact Hfind | exact Hid].
  - reflexivity.
  - reflexivity.
  - reflexivity.
  - reflexivity.
  - cbn [showHitEffect set_targets targets].
    apply map_updateFirst. reflexivity.
  - intros other Hin Hne. cbn [showHitEffect set_targets targets].
    apply In_updateFirst_other; [exact Hin |].
    destruct (hasId (hit_targetId hitData) other) eqn:E; [| reflexivity].
    apply hasId_eq in E. contradiction.
  - intros damage. reflexivity.
  - intros Hpos. unfold alive. cbn [applyHit health locallyDestroyed children].
    replace (0 <? hit_health hitData)%Z with true
      by (symmetry; apply Z.ltb_lt; exact Hpos).
    split; [split; [exact Hpos | reflexivity] |]. split; [reflexivity |].
    intros child o Hin Hrec. split.
    + apply in_map. exact Hin.
    + apply restoreOpacity_recorded. exact Hrec.
Qed.

(** The rollback of an optimistic destruction: the target of health 10
    brought locally to 0 and faded returns to health 3, unmarked, with its
    opacity back at 1. *)
Lemma onTargetHit_overwrites_health_witness :
  exists tm' target',
    targetManager (onTargetHit (mkHitData "t1" "you" 10 3) playing) = Some tm'
    /\ List.find (hasId "t1") (targets tm') = Some target'
    /\ health target' = 3%Z
    /\ alive target'
    /\ opacityOf (restoreOpacity fadedMesh) = Some 1%Q.
Proof.
  destruct (onTargetHit_overwrites_health (mkHitData "t1" "you" 10 3) playing
              (mkTargetManager [fadedTarget] true [fadedMesh] []) fadedTarget)
    as (tm' & target' & Htm & Hfind & _ & Hh & _ & _ & _ & _ & _ & Hpos).
  - reflexivity.
  - reflexivity.
  - destruct Hpos as (Halive & _ & Hop); [reflexivity |].
    exists tm', target'.
    split; [exact Htm |]. split; [exact Hfind |]. split; [exact Hh |].
    split; [exact Halive |].
    apply (Hop fadedMesh 1%Q).
    + left. reflexivity.
    + repeat split; [discriminate | discriminate].
Defined.

(** ** Polling for the dependencies of a snapshot *)

Lemma scheduledRetries_setTimeout (delay : nat) (s : State) :
  scheduledRetries (setTimeout CbProcessGameState delay s) =
  S (scheduledRetries s).
Proof.
  unfold scheduledRetries, setTimeout. cbn [timers set_timers].
  rewrite List.filter_app, length_app. simpl. lia.
Qed.

Lemma processGameState_not_ready (s : State) (gameState : GameState) :
  pendingGameState s = Some gameState ->
  ready s = false ->
  exists delay,
    (delay = 100 \/ delay = 200)
    /\ processGameState s = setTimeout CbProcessGameState delay s.
Proof.
  intros Hp Hr. unfold processGameState, ready in *. rewrite Hp.
  destruct (targetManager s) as [tm |].
  - rewrite Hr. exists 200. split; [right |]; reflexivity.
  - exists 100. split; [left |]; reflexivity.
Qed.

Lemma filter_delete_length {A} (p : A -> bool) (l : list A) (i : nat) (x : A) :
  l !! i = Some x -> p x = true ->
  S (length (List.filter p (delete i l))) = length (List.filter p l).
Proof.
  revert i. induction l as [| y l IH]; intros i Hi Hp; [discriminate |].
  destruct i as [| i]; simpl in *.
  - injection Hi as ->. rewrite Hp. reflexivity.
  - destruct (p y); simpl; rewrite (IH i Hi Hp); reflexivity.
Qed.

Lemma list_find_process (l : list (nat * Callback)) :
  1 <= length (List.filter isProcessTimer l) ->
  exists i delay,
    list_find (fun t => isProcessTimer t = true) l =
      Some (i, (delay, CbProcessGameState))
    /\ l !! i = Some (delay, CbProcessGameState).
Proof.
  induction l as [| [d cb] l IH]; simpl; [lia |].
  intros Hlen. destruct cb; cbn [isProcessTimer snd] in *.
  1:{ exists 0, d. split; [| reflexivity].
      cbn [list_find]. destruct (decide _) as [| Hn]; [reflexivity |].
      exfalso. apply Hn. reflexivity. }
  all: destruct (IH Hlen) as (i & d' & Hf & Hl); exists (S i), d';
    (split; [| exact Hl]); cbn [list_find];
    (destruct (decide _) as [Hd |]; [discriminate Hd |]);
    rewrite Hf; reflexivity.
Qed.

(** One round of polling while the dependencies are missing: the expired
    timer is replaced by a new one and nothing else changes. *)
Lemma retry_not_ready (s : State) (gameState : GameState) :
  pendingGameState s = Some gameState ->
  ready s = false ->
  1 <= scheduledRetries s ->
  scheduledRetries (retry s) = scheduledRetries s
  /\ pendingGameState (retry s) = Some gameState
  /\ targetManager (retry s) = targetManager s.
Proof.
  intros Hp Hr Hn.
  destruct (list_find_process (timers s) Hn) as (i & d & Hfind & Hi).
  unfold retry. rewrite Hfind. unfold fireTimer. rewrite Hi.
  cbn [runCallback].
  destruct (processGameState_not_ready
              (set_timers (delete i (timers s)) s) gameState)
    as (delay & _ & ->); [exact Hp | exact Hr |].
  rewrite scheduledRetries_setTimeout.
  split; [| split; [exact Hp | reflexivity]].
  unfold scheduledRetries at 1. cbn [timers set_timers].
  apply (filter_delete_length isProcessTimer (timers s) i (d, CbProcessGameState));
    [exact Hi | reflexivity].
Qed.

Lemma retries_not_ready (n : nat) (s : State) (gameState : GameState) :
  pendingGameState s = Some gameState ->
  ready s = false ->
  1 <= scheduledRetries s ->
  scheduledRetries (Nat.iter n retry s) = scheduledRetries s
  /\ pendingGameState (Nat.iter n retry s) = Some gameState
  /\ targetManager (Nat.iter n retry s) = targetManager s.
Proof.
  intros Hp Hr Hn. induction n as [| n (IH1 & IH2 & IH3)].
  - repeat split; assumption.
  - change (Nat.iter (S n) retry s) with (retry (Nat.iter n retry s)).
    destruct (retry_not_ready (Nat.iter n retry s) gameState) as (H1 & H2 & H3).
    + exact IH2.
    + unfold ready in *. rewrite IH3. exact Hr.
    + lia.
    + rewrite H1, H2, H3. repeat split; assumption.
Qed.

Lemma targetManager_createRemotePlayers (l : list PlayerData) (s : State) :
  targetManager (fold_left createRemotePlayer l s) = targetManager s
  /\ pendingGameState (fold_left createRemotePlayer l s) = pendingGameState s.
Proof.
  split; apply WeaponProofs.fold_left_preserves; intros a b;
    unfold createRemotePlayer; destruct (String.eqb _ _);
    try destruct (remotePlayerThrows _ _); reflexivity.
Qed.

(** What [processGameState] does once both dependencies are there. *)
Lemma processGameState_ready (s : State) (gameState : GameState)
    (tm : TargetManager) :
  pendingGameState s = Some gameState ->
  targetManager s = Some tm ->
  isModelLoaded tm = true ->
  pendingGameState (processGameState s) = None
  /\ targetManager (processGameState s) =
     Some (fold_left createFromSnapshot (gs_targets gameState) (clearAllTargets tm)).
Proof.
  intros Hp Htm Hl. unfold processGameState. rewrite Hp, Htm, Hl.
  cbn [negb]. cbv zeta.
  destruct (0 <? length (gs_targets gameState)) eqn:Elen.
  - unfold scanTargets. split; [reflexivity |].
    destruct (weaponAvailable _); reflexivity.
  - split; [reflexivity |].
    destruct (gs_targets gameState); [reflexivity | discriminate].
Qed.

Lemma timers_createRemotePlayers (l : list PlayerData) (s : State) :
  timers (fold_left createRemotePlayer l s) = timers s.
Proof.
  apply WeaponProofs.fold_left_preserves. intros a b.
  unfold createRemotePlayer. destruct (String.eqb _ _);
    try destruct (remotePlayerThrows _ _); reflexivity.
Qed.

(** Once both dependencies are there, [processGameState] schedules no
    further call of itself. *)
Lemma scheduledRetries_processGameState_ready (s : State)
    (gameState : GameState) :
  pendingGameState s = Some gameState ->
  ready s = true ->
  scheduledRetries (processGameState s) = scheduledRetries s.
Proof.
  intros Hp Hr. unfold ready in Hr. unfold processGameState. rewrite Hp.
  destruct (targetManager s) as [tm |]; [| discriminate]. rewrite Hr.
  cbn [negb]. cbv zeta. unfold scheduledRetries.
  destruct (0 <? length (gs_targets gameState)).
  - unfold scanTargets.
    destruct (weaponAvailable _);
      cbn [timers set_pendingGameState setTimeout set_timers set_targetManager];
      rewrite timers_createRemotePlayers, !List.filter_app; cbn;
      rewrite !app_nil_r; reflexivity.
  - cbn [timers set_pendingGameState set_targetManager].
    rewrite timers_createRemotePlayers. reflexivity.
Qed.

(** The round of polling that finds both dependencies ready processes the
    snapshot and is the last one it causes. *)
Lemma retry_ready (s : State) (gameState : GameState) :
  pendingGameState s = Some gameState ->
  ready s = true ->
  1 <= scheduledRetries s ->
  S (scheduledRetries (retry s)) = scheduledRetries s
  /\ pendingGameState (retry s) = None.
Proof.
  intros Hp Hr Hn.
  destruct (list_find_process (timers s) Hn) as (i & d & Hfind & Hi).
  unfold retry. rewrite Hfind. unfold fireTimer. rewrite Hi.
  cbn [runCallback].
  set (s1 := set_timers (delete i (timers s)) s).
  assert (Hp1 : pendingGameState s1 = Some gameState) by exact Hp.
  assert (Hr1 : ready s1 = true) by exact Hr.
  split.
  - rewrite (scheduledRetries_processGameState_ready s1 gameState Hp1 Hr1).
    unfold scheduledRetries, s1. cbn [timers set_timers].
    apply (filter_delete_length isProcessTimer (timers s) i (d, CbProcessGameState));
      [exact Hi | reflexivity].
  - unfold ready in Hr1. destruct (targetManager s1) as [tm |] eqn:Htm;
      [| discriminate].
    apply (processGameState_ready s1 gameState tm Hp1 Htm Hr1).
Qed.


Lemma waiting_facts :
  pendingGameState waiting = Some sampleGameState
  /\ ready waiting = false
  /\ scheduledRetries waiting = 1.
Proof. repeat split; reflexivity. Qed.



(** ** Snapshot reconciliation *)


Lemma updateFirst_snoc {A} (p : A -> bool) (f : A -> A) (l : list A) (y : A) :
  existsb p l = false -> p y = true ->
  updateFirst p f (l ++ [y]) = l ++ [f y].
Proof.
  intros Hl Hy. induction l as [| x l IH]; simpl in *.
  - rewrite Hy. reflexivity.
  - apply orb_false_iff in Hl as [Hx Hl]. rewrite Hx, IH by exact Hl.
    reflexivity.
Qed.

Lemma existsb_hasId (id : string) (ts : list Target) :
  existsb (hasId id) ts = true <-> In id (List.map targetId ts).
Proof.
  rewrite existsb_exists, in_map_iff. split.
  - intros (t & Hin & Ht). exists t. split; [apply hasId_eq, Ht | exact Hin].
  - intros (t & Ht & Hin). exists t. split; [exact Hin | apply hasId_eq, Ht].
Qed.

(** One snapshot entry: a dead entry changes nothing; an alive entry whose
    identifier is absent appends its target; one whose identifier is present
    rewrites that target in place. *)
Lemma createFromSnapshot_spec (tm : TargetManager) (targetData : TargetData) :
  isModelLoaded tm = true ->
  isModelLoaded (createFromSnapshot tm targetData) = true
  /\ modelChildren (createFromSnapshot tm targetData) = modelChildren tm
  /\ ids (createFromSnapshot tm targetData) =
     (if td_isAlive targetData
         && negb (existsb (hasId (td_id targetData)) (targets tm))
      then ids tm ++ [td_id targetData] else ids tm)
  /\ (td_isAlive targetData = true ->
      existsb (hasId (td_id targetData)) (targets tm) = false ->
      targets (createFromSnapshot tm targetData) =
      targets tm ++ [fromSnapshot tm targetData]).
Proof.
  intros Hl. unfold createFromSnapshot, ids.
  destruct (td_isAlive targetData); cbn [andb];
    [| repeat split; [assumption | discriminate]].
  unfold createTarget. rewrite Hl. cbn [negb optionsOf opt_targetId].
  destruct (existsb (hasId (td_id targetData)) (targets tm)) eqn:Ex;
    cbn [negb set_targets targets isModelLoaded modelChildren].
  - repeat split; [assumption | | discriminate].
    rewrite !map_updateFirst; [reflexivity | |];
      intros x Hx; apply hasId_eq in Hx; cbn [targetId setUserData]; congruence.
  - repeat split; [assumption | |].
    + rewrite map_updateFirst.
      * rewrite List.map_app. reflexivity.
      * intros x Hx. apply hasId_eq in Hx. cbn [targetId setUserData].
        congruence.
    + intros _ _. rewrite updateFirst_snoc; [reflexivity | exact Ex |].
      apply hasId_eq. reflexivity.
Qed.

Lemma fold_createFromSnapshot_ids (l : list TargetData) (tm : TargetManager) :
  isModelLoaded tm = true ->
  NoDup (ids tm) ->
  isModelLoaded (fold_left createFromSnapshot l tm) = true
  /\ modelChildren (fold_left createFromSnapshot l tm) = modelChildren tm
  /\ NoDup (ids (fold_left createFromSnapshot l tm))
  /\ forall id,
       In id (ids (fold_left createFromSnapshot l tm)) <->
       In id (ids tm) \/ In id (List.map td_id (List.filter td_isAlive l)).
Proof.
  revert tm. induction l as [| d l IH]; intros tm Hl Hnd; cbn [fold_left].
  - repeat split; try assumption; cbn; tauto.
  - destruct (createFromSnapshot_spec tm d Hl) as (Hl1 & Hc1 & Hids & _).
    assert (Hnd1 : NoDup (ids (createFromSnapshot tm d))).
    { rewrite Hids. destruct (td_isAlive d); cbn [andb]; [| exact Hnd].
      destruct (existsb (hasId (td_id d)) (targets tm)) eqn:Ex;
        cbn [negb]; [exact Hnd |].
      apply NoDup_app. split; [exact Hnd |]. split; [| apply NoDup_singleton].
      intros x Hx Hx'. apply list_elem_of_singleton in Hx'. subst x.
      apply list_elem_of_In in Hx. apply existsb_hasId in Hx. congruence. }
    destruct (IH (createFromSnapshot tm d) Hl1 Hnd1) as (H1 & H2 & H3 & H4).
    split; [exact H1 |]. split; [congruence |]. split; [exact H3 |].
    intros id. rewrite H4, Hids. cbn [List.filter].
    destruct (td_isAlive d); cbn [andb List.map]; [| tauto].
    destruct (existsb (hasId (td_id d)) (targets tm)) eqn:Ex; cbn [negb].
    + apply existsb_hasId in Ex. fold (ids tm) in Ex. cbn [In].
      split; [tauto |]. intros [H | [<- | H]]; tauto.
    + rewrite in_app_iff. cbn [In]. tauto.
Qed.

Lemma fold_createFromSnapshot_exact (l : list TargetData) (tm : TargetManager) :
  isModelLoaded tm = true ->
  NoDup (List.map td_id (List.filter td_isAlive l)) ->
  (forall id, In id (List.map td_id (List.filter td_isAlive l)) -> ~ In id (ids tm)) ->
  targets (fold_left createFromSnapshot l tm) =
  targets tm ++ List.map (fromSnapshot tm) (List.filter td_isAlive l).
Proof.
  revert tm. induction l as [| d l IH]; intros tm Hl Hnd Hfresh; cbn [fold_left].
  - cbn. rewrite app_nil_r. reflexivity.
  - destruct (createFromSnapshot_spec tm d Hl) as (Hl1 & Hc1 & Hids & Hnew).
    cbn [List.filter] in *. destruct (td_isAlive d) eqn:Ea; cbn [andb] in *.
    + cbn [List.map] in *. apply NoDup_cons in Hnd as [Hd Hnd].
      assert (Ex : existsb (hasId (td_id d)) (targets tm) = false).
      { destruct (existsb _ _) eqn:E; [| reflexivity].
        apply existsb_hasId in E. exfalso. apply (Hfresh (td_id d)); [left |];
          [reflexivity | exact E]. }
      rewrite Ex in Hids. cbn [negb] in Hids.
      rewrite IH; [| exact Hl1 | exact Hnd |].
      * rewrite (Hnew eq_refl Ex), <- app_assoc. cbn [app].
        do 2 f_equal. apply List.map_ext. intros x. unfold fromSnapshot.
        rewrite Hc1. reflexivity.
      * intros id Hin. rewrite Hids, in_app_iff. cbn [In].
        intros [H | [<- | []]].
        -- apply (Hfresh id); [right; exact Hin | exact H].
        -- apply Hd. apply list_elem_of_In. exact Hin.
    + assert (Htm : createFromSnapshot tm d = tm).
      { unfold createFromSnapshot. rewrite Ea. reflexivity. }
      rewrite Htm. apply IH; assumption.
Qed.

(** C1. A pending snapshot is processed only when the target manager exists
    and its model is loaded; until then [processGameState] only schedules
    itself again, after a fixed delay, and the snapshot stays pending. When
    both are there, the local targets are cleared and rebuilt from the
    snapshot: whatever the local targets were, the identifiers present
    afterwards are exactly those of the snapshot's alive targets, without
    duplicates, and when the alive identifiers are distinct the targets are
    exactly those built from the alive entries, in order. *)
Theorem snapshot_resynchronises (s : State) (gameState : GameState) :
  pendingGameState s = Some gameState ->
  (ready s = false ->
   exists delay,
     (delay = 100 \/ delay = 200)
     /\ processGameState s = setTimeout CbProcessGameState delay s
     /\ pendingGameState (processGameState s) = Some gameState
     /\ targetManager (processGameState s) = targetManager s)
  /\ (ready s = true ->
      pendingGameState (processGameState s) = None
      /\ (forall id, In id (localIds (processGameState s)) <->
                     In id (aliveIds gameState))
      /\ NoDup (localIds (processGameState s))
      /\ (NoDup (aliveIds gameState) ->
          exists tm tm',
            targetManager s = Some tm
            /\ targetManager (processGameState s) = Some tm'
            /\ targets tm' =
               List.map (fromSnapshot tm)
                 (List.filter td_isAlive (gs_targets gameState)))).
Proof.
  intros Hp. split; intros Hr.
  - destruct (processGameState_not_ready s gameState Hp Hr) as (delay & Hd & ->).
    exists delay. repeat split; [exact Hd | exact Hp].
  - unfold ready in Hr. destruct (targetManager s) as [tm |] eqn:Htm;
      [| discriminate].
    destruct (processGameState_ready s gameState tm Hp Htm Hr) as (Hnone & Hres).
    split; [exact Hnone |].
    assert (Hl0 : isModelLoaded (clearAllTargets tm) = true) by exact Hr.
    assert (Hnd0 : NoDup (ids (clearAllTargets tm))) by apply NoDup_nil_2.
    destruct (fold_createFromSnapshot_ids (gs_targets gameState)
                (clearAllTargets tm) Hl0 Hnd0) as (_ & _ & Hnd & Hiff).
    unfold localIds. rewrite Hres. fold (ids (fold_left createFromSnapshot
      (gs_targets gameState) (clearAllTargets tm))).
    split; [| split].
    + intros id. rewrite Hiff. unfold aliveIds. cbn. tauto.
    + exact Hnd.
    + intros Hdistinct. exists tm. eexists. split; [reflexivity |].
      split; [reflexivity |].
      rewrite fold_createFromSnapshot_exact; [reflexivity | exact Hl0 | exact Hdistinct |].
      intros id _ [].
Qed.

(** A client holding a stale target receives the sample snapshot: the
    targets "a" and "c" replace it. *)
Lemma snapshot_resynchronises_witness :
  ready (set_pendingGameState (Some sampleGameState) playing) = true
  /\ localIds playing = ["t1"]
  /\ (forall id,
        In id (localIds (onGameStateReceived sampleGameState playing)) <->
        In id ["a"; "c"])
  /\ NoDup (localIds (onGameStateReceived sampleGameState playing)).
Proof.
  split; [reflexivity |]. split; [reflexivity |].
  destruct (snapshot_resynchronises
              (set_pendingGameState (Some sampleGameState) playing)
              sampleGameState eq_refl) as (_ & Hready).
  destruct (Hready eq_refl) as (_ & Hids & Hnd & _).
  split; [exact Hids | exact Hnd].
Defined.

End SceneProofs.


(* ===================================================================== *)
(** * Part V: further properties of the weapon system *)
(* ===================================================================== *)

Module WeaponInvariants.

Import Weapon Controls WeaponProofs.

#[local] Hint Rewrite gun_set_activeBullets gun_sceneRemove gun_setPosition
  gun_removeBulletCollider gun_onTargetHit gun_removeAfterHit
  activeBullets_sceneRemove activeBullets_setPosition
  activeBullets_set_activeBullets activeBullets_removeBulletCollider
  activeBullets_onTargetHit heap_set_activeBullets heap_sceneRemove
  bulletColliders_set_activeBullets bulletColliders_sceneRemove
  bulletColliders_removeBulletCollider
  nextId_removeBulletCollider nextId_set_activeBullets nextId_sceneRemove
  nextId_setPosition nextId_onTargetHit bulletColliders_setPosition
  bulletColliders_onTargetHit : frame.

(** ** Reloading *)

(** X1. [reload()] moves rounds from the reserve to the magazine without
    creating or losing any, never takes rounds out of the magazine, and
    stops only when the magazine is full or the reserve is empty. *)
Theorem reload_conserves_rounds (w : State) :
  rounds (reload w) = rounds w
  /\ maxAmmo (reload w) = maxAmmo w
  /\ (magAmmo w <= magAmmo (reload w))%Z
  /\ ((maxAmmo w <= magAmmo (reload w))%Z \/ (totalAmmo (reload w) <= 0)%Z).
Proof.
  unfold rounds, reload.
  destruct ((maxAmmo w <=? magAmmo w)%Z || (totalAmmo w <=? 0)%Z) eqn:G.
  - apply orb_true_iff in G. repeat split; lia.
  - apply orb_false_iff in G as [G1 G2]. cbv zeta.
    destruct (onAmmoChange _); cbn [magAmmo totalAmmo maxAmmo set_ammo emit];
      repeat split; lia.
Qed.

(** X2. A second [reload()] right after a reload changes nothing and
    notifies nobody: the state, callback log included, is the same. *)
Theorem reload_idempotent (w : State) : reload (reload w) = reload w.
Proof.
  assert (H : forall w', (maxAmmo w' <=? magAmmo w')%Z || (totalAmmo w' <=? 0)%Z = true
                         -> reload w' = w').
  { intros w' Hw'. unfold reload. rewrite Hw'. reflexivity. }
  apply H. unfold reload.
  destruct ((maxAmmo w <=? magAmmo w)%Z || (totalAmmo w <=? 0)%Z) eqn:G;
    [exact G |].
  cbv zeta.
  destruct (onAmmoChange _); cbn [magAmmo totalAmmo maxAmmo set_ammo emit]; lia.
Qed.

(** ** Invariants of play *)

Lemma play_invariant {T : THREE} (I : State -> Prop) (aim : Aim) :
  (forall a w, I w -> exists w', act aim a w = Some w' /\ I w') ->
  forall actions w, I w -> exists w', play aim actions w = Some w' /\ I w'.
Proof.
  intros Hstep actions. induction actions as [| a rest IH]; intros w Hw; simpl.
  - eauto.
  - destruct (Hstep a w Hw) as (w1 & -> & H1). apply IH, H1.
Qed.

Lemma spends_refl (w : State) : ammoOk w -> spends w w.
Proof. intros H. repeat split; try apply H; lia. Qed.

Lemma spends_trans (w1 w2 w3 : State) :
  spends w1 w2 -> spends w2 w3 -> spends w1 w3.
Proof.
  unfold spends. intros (_ & H1 & H2) (H3 & H4 & H5).
  repeat split; try apply H3; [lia | congruence].
Qed.

Lemma spends_gun (w w' : State) : gun w' = gun w -> ammoOk w -> spends w w'.
Proof.
  unfold gun, spends, ammoOk, rounds. intros [= _ _ _ -> -> -> _] H.
  repeat split; try apply H; lia.
Qed.

Lemma spends_reload (w : State) : ammoOk w -> spends w (reload w).
Proof.
  unfold spends, ammoOk, rounds, reload. intros H.
  destruct ((maxAmmo w <=? magAmmo w)%Z || (totalAmmo w <=? 0)%Z) eqn:G.
  - repeat split; lia.
  - apply orb_false_iff in G as [G1 G2]. cbv zeta.
    destruct (onAmmoChange _); cbn [magAmmo totalAmmo maxAmmo set_ammo emit];
      repeat split; lia.
Qed.

Lemma gun_emit_ammo (e : Event) (w : State) :
  magAmmo (emit e w) = magAmmo w /\ maxAmmo (emit e w) = maxAmmo w
  /\ totalAmmo (emit e w) = totalAmmo w.
Proof. repeat split. Qed.

Lemma spends_shoot {T : THREE} (aim : Aim) (w : State) :
  ammoOk w -> spends w (fst (shoot aim w)).
Proof.
  intros H. unfold shoot. destruct (magAmmo w <=? 0)%Z eqn:G; cbv zeta; cbn [fst].
  - apply spends_reload, H.
  - pose proof (gun_createBulletTrail (muzzlePos aim)
                  (normalize (worldDirection aim))
                  (set_ammo (magAmmo w - 1) (totalAmmo w) w)) as Hg.
    set (x := createBulletTrail _ _ _) in *. clearbody x.
    unfold gun in Hg. injection Hg as _ _ _ Hm Hx Ht _.
    cbn [magAmmo totalAmmo maxAmmo set_ammo] in Hm, Hx, Ht.
    unfold spends, ammoOk, rounds in *.
    destruct (onAmmoChange x); cbn [magAmmo totalAmmo maxAmmo emit];
      rewrite Hm, Hx, Ht; repeat split; lia.
Qed.

Lemma spends_set_shootTimer (q : Q) (w0 w : State) :
  spends w0 w -> spends w0 (set_shootTimer q w).
Proof. intros H. exact H. Qed.

Lemma spends_update {T : THREE} (aim : Aim) (dt : Q) (w : State) :
  ammoOk w -> exists w', update aim dt w = Some w' /\ spends w w'.
Proof.
  intros H. destruct (isLoaded w) eqn:Hl.
  - destruct (update_prefix aim dt w Hl) as (wb & Hg & _ & ->).
    eexists. split; [reflexivity |]. cbv zeta.
    pose proof (spends_gun w wb Hg H) as Hb.
    assert (Hx : forall x q (c : bool),
               spends w x -> spends w (if c then set_shootTimer q x else x)).
    { intros x q [|] Hx; exact Hx. }
    apply Hx.
    destruct (isShooting wb && _); [| exact Hb].
    pose proof (spends_shoot aim wb (proj1 Hb)) as Hs.
    destruct (shoot aim wb) as [w3 [|]]; cbn [fst] in Hs;
      [apply spends_set_shootTimer |]; eapply spends_trans; eassumption.
  - unfold update. rewrite Hl. eexists. split; [reflexivity |].
    apply spends_refl, H.
Qed.

Lemma spends_dispatch (e : DomEvent) (w : State) :
  ammoOk w -> spends w (dispatch e w).
Proof.
  intros H. destruct e as [b | b | code]; simpl.
  - destruct (b =? 0)%Z; [| apply spends_refl, H].
    unfold startShooting. destruct (negb _); exact (spends_refl w H).
  - destruct (b =? 0)%Z; exact (spends_refl w H).
  - destruct (String.eqb _ _); [apply spends_reload | apply spends_refl]; exact H.
Qed.

Lemma spends_act {T : THREE} (aim : Aim) (a : Action) (w : State) :
  ammoOk w -> exists w', act aim a w = Some w' /\ spends w w'.
Proof.
  intros H. destruct a as [e | dt |]; simpl.
  - eexists. split; [reflexivity | apply spends_dispatch, H].
  - apply spends_update, H.
  - eexists. split; [reflexivity |].
    apply spends_gun; [apply gun_of_core, core_scanForNewTargets | exact H].
Qed.

(** X3. Whatever the player does (clicks, key presses, frames, scans),
    the run completes, the magazine stays between 0 and its capacity, the
    reserve stays non-negative, and the rounds the player has never
    increase. *)
Theorem play_keeps_ammunition {T : THREE} (aim : Aim) (actions : list Action)
    (w : State) :
  ammoOk w ->
  exists w', play aim actions w = Some w'
             /\ ammoOk w'
             /\ (rounds w' <= rounds w)%Z
             /\ maxAmmo w' = maxAmmo w.
Proof.
  intros H.
  apply (play_invariant (spends w) aim); [| apply spends_refl, H].
  intros a w1 H1. destruct (spends_act aim a w1 (proj1 H1)) as (w2 & E & H2).
  exists w2. split; [exact E | eapply spends_trans; eassumption].
Qed.

Lemma play_keeps_ammunition_witness :
  ammoOk lowAmmo
  /\ exists w', play (T := boxCaster) ahead session lowAmmo = Some w'
                /\ ammoOk w'
                /\ (rounds w' <= rounds lowAmmo)%Z
                /\ maxAmmo w' = maxAmmo lowAmmo.
Proof.
  assert (H : ammoOk lowAmmo) by (unfold ammoOk; vm_compute; intuition discriminate).
  split; [exact H |].
  exact (play_keeps_ammunition (T := boxCaster) ahead session lowAmmo H).
Defined.

(** ** The cap on bullets in flight *)

Lemma capped_gun_bullets (w w' : State) :
  activeBullets w' = activeBullets w -> capped w -> capped w'.
Proof. unfold capped. intros ->. exact id. Qed.

Lemma capped_sublist (w w' : State) :
  sublist (meshes w') (meshes w) -> capped w -> capped w'.
Proof.
  unfold capped, meshes. intros Hs Hc. apply sublist_length in Hs.
  rewrite !List.length_map in Hs. lia.
Qed.

Lemma capped_createBulletTrail (startPos direction : Vector3) (w : State) :
  capped w -> capped (createBulletTrail startPos direction w).
Proof.
  unfold capped. intros H. rewrite createBulletTrail_activeBullets. cbv zeta.
  destruct (maxBulletTrails <? _)%nat eqn:E.
  - destruct (activeBullets w ++ _) eqn:El; simpl.
    + unfold maxBulletTrails. lia.
    + apply (f_equal (@length _)) in El. rewrite length_app in El.
      simpl in El. lia.
  - apply Nat.ltb_ge in E. exact E.
Qed.

Lemma capped_emit (e : Event) (w : State) : capped w -> capped (emit e w).
Proof. exact id. Qed.

Lemma capped_set_ammo (m t : Z) (w : State) :
  capped w -> capped (set_ammo m t w).
Proof. exact id. Qed.

Lemma capped_reload (w : State) : capped w -> capped (reload w).
Proof.
  unfold capped. intros H.
  replace (activeBullets (reload w)) with (activeBullets w); [exact H |].
  unfold reload. destruct (_ || _); [reflexivity |]. cbv zeta.
  destruct (onAmmoChange _); reflexivity.
Qed.

Lemma capped_shoot {T : THREE} (aim : Aim) (w : State) :
  capped w -> capped (fst (shoot aim w)).
Proof.
  intros H. unfold shoot. destruct (_ <=? 0)%Z; cbv zeta; cbn [fst].
  - apply capped_reload, H.
  - destruct (onAmmoChange _); [apply capped_emit |];
      apply capped_createBulletTrail, capped_set_ammo, H.
Qed.

Lemma capped_update {T : THREE} (aim : Aim) (dt : Q) (w : State) :
  capped w -> exists w', update aim dt w = Some w' /\ capped w'.
Proof.
  intros H. destruct (isLoaded w) eqn:Hl.
  - destruct (update_prefix aim dt w Hl) as (wb & _ & Hs & ->).
    eexists. split; [reflexivity |]. cbv zeta.
    pose proof (capped_sublist w wb Hs H) as Hb.
    assert (Hx : forall x q (c : bool),
               capped x -> capped (if c then set_shootTimer q x else x)).
    { intros x q [|] Hx; exact Hx. }
    apply Hx.
    destruct (isShooting wb && _); [| exact Hb].
    pose proof (capped_shoot aim wb Hb) as Hc.
    destruct (shoot aim wb) as [w3 [|]]; exact Hc.
  - unfold update. rewrite Hl. eauto.
Qed.

Lemma capped_act {T : THREE} (aim : Aim) (a : Action) (w : State) :
  capped w -> exists w', act aim a w = Some w' /\ capped w'.
Proof.
  intros H. destruct a as [[b | b | code] | dt |]; simpl.
  - eexists. split; [reflexivity |].
    destruct (b =? 0)%Z; [| exact H].
    unfold startShooting. destruct (negb _); exact H.
  - eexists. split; [reflexivity |]. destruct (b =? 0)%Z; exact H.
  - eexists. split; [reflexivity |].
    destruct (String.eqb _ _); [apply capped_reload |]; exact H.
  - apply capped_update, H.
  - eexists. split; [reflexivity |].
    eapply capped_gun_bullets; [| exact H].
    apply activeBullets_of_core, core_scanForNewTargets.
Qed.

(** X4. Whatever the player does, there are never more than
    [maxBulletTrails] (50) bullets in flight. *)
Theorem play_keeps_cap {T : THREE} (aim : Aim) (actions : list Action)
    (w : State) :
  capped w ->
  exists w', play aim actions w = Some w'
             /\ length (activeBullets w') <= maxBulletTrails.
Proof. apply (play_invariant capped aim). apply capped_act. Qed.

Lemma play_keeps_cap_witness :
  capped atCap
  /\ exists w', play (T := boxCaster) ahead session atCap = Some w'
                /\ length (activeBullets w') <= maxBulletTrails.
Proof.
  assert (H : capped atCap) by (unfold capped; vm_compute; lia).
  split; [exact H |].
  exact (play_keeps_cap (T := boxCaster) ahead session atCap H).
Defined.

(** ** Completion *)

Lemma act_total {T : THREE} (aim : Aim) (a : Action) (w : State) :
  True -> exists w', act aim a w = Some w' /\ True.
Proof.
  intros _. destruct a as [e | dt |]; simpl; eauto.
  destruct (update_total aim dt w) as (w' & ->). eauto.
Qed.

(** X5. No sequence of clicks, key presses, frames and scans makes the
    weapon throw: although [updateBullets] splices the array it iterates
    over (once for a hit, once more for an expiry), it never reads an
    index beyond the end, in any state. *)
Theorem play_never_throws {T : THREE} (aim : Aim) (actions : list Action)
    (w : State) :
  exists w', play aim actions w = Some w'.
Proof.
  destruct (play_invariant (fun _ => True) aim (fun a w => act_total aim a w)
              actions w I) as (w' & E & _).
  eauto.
Qed.

(** ** Expired bullets leave the array *)

Lemma indexOf_NoDup (b : Bullet) (bs : list Bullet) (i : nat) :
  NoDup (List.map mesh bs) -> bs !! i = Some b -> indexOf b bs = Some i.
Proof.
  intros Hnd Hi. unfold indexOf.
  destruct (list_find (fun b' => mesh b' = mesh b) bs) as [[j x] |] eqn:E.
  - apply list_find_Some in E as (Hj & Hm & _). simpl. f_equal.
    eapply NoDup_lookup; [exact Hnd | |].
    + change (List.map mesh bs) with (mesh <$> bs).
      rewrite list_lookup_fmap, Hj. simpl. rewrite Hm. reflexivity.
    + change (List.map mesh bs) with (mesh <$> bs).
      rewrite list_lookup_fmap, Hi. reflexivity.
  - apply list_find_None in E. rewrite Forall_lookup in E.
    exfalso. apply (E i b Hi). reflexivity.
Qed.

Lemma activeBullets_removeAfterHit_at (b : Bullet) (w : State) (i : nat) :
  indexOf b (activeBullets w) = Some i ->
  activeBullets (removeAfterHit b w) = delete i (activeBullets w).
Proof.
  intros E. unfold removeAfterHit. cbv zeta.
  set (w1 := sceneRemove (mesh b) (removeBulletCollider (mesh b) w)).
  assert (H1 : activeBullets w1 = activeBullets w)
    by apply activeBullets_removeBulletCollider.
  clearbody w1. rewrite H1, E. reflexivity.
Qed.

Lemma setLife_delete (m : ObjId) (q : Q) (bs : list Bullet) (i : nat) :
  setLife m q (delete i bs) = delete i (setLife m q bs).
Proof.
  revert i. induction bs as [| a bs IH]; intros [| i]; simpl; try reflexivity.
  f_equal. apply IH.
Qed.

Lemma setLife_lookup_same (bs : list Bullet) (i : nat) (b : Bullet) (q : Q) :
  bs !! i = Some b ->
  setLife (mesh b) q bs !! i = Some (mkBullet (mesh b) (velocity b) q).
Proof.
  revert i. induction bs as [| a bs IH]; intros [| i] Hi;
    try discriminate; simpl in *.
  - injection Hi as ->. rewrite Nat.eqb_refl. reflexivity.
  - apply IH. exact Hi.
Qed.

Lemma setLife_lookup_other (bs : list Bullet) (j : nat) (x : Bullet)
    (m : ObjId) (q : Q) :
  bs !! j = Some x -> mesh x <> m -> setLife m q bs !! j = Some x.
Proof.
  revert j. induction bs as [| a bs IH]; intros [| j] Hj Hm;
    try discriminate; simpl in *.
  - injection Hj as ->. apply Nat.eqb_neq in Hm. rewrite Hm. reflexivity.
  - apply IH; assumption.
Qed.

Lemma setLife_lookup_inv (bs : list Bullet) (j : nat) (y : Bullet)
    (m : ObjId) (q : Q) :
  setLife m q bs !! j = Some y ->
  exists x, bs !! j = Some x /\ mesh x = mesh y.
Proof.
  revert j. induction bs as [| a bs IH]; intros [| j] Hj;
    try discriminate; simpl in *.
  - injection Hj as <-. exists a. split; [reflexivity |].
    destruct (Nat.eqb _ _); reflexivity.
  - apply IH. exact Hj.
Qed.

(** The bullets from index [k] on have life left. *)
Lemma freshFrom_setLife (bs : list Bullet) (i : nat) (b : Bullet) (q : Q) :
  NoDup (List.map mesh bs) -> bs !! i = Some b ->
  (forall j x, bs !! j = Some x -> S i <= j -> (0 < life x)%Q) ->
  forall j y, setLife (mesh b) q bs !! j = Some y -> S i <= j -> (0 < life y)%Q.
Proof.
  intros Hnd Hi Hfresh j y Hj Hle.
  destruct (setLife_lookup_inv _ _ _ _ _ Hj) as (x & Hx & Hm).
  assert (Hne : mesh x <> mesh b).
  { intros Heq. assert (j = i); [| lia].
    eapply NoDup_lookup; [exact Hnd | |].
    - change (List.map mesh bs) with (mesh <$> bs).
      rewrite list_lookup_fmap, Hx. simpl. rewrite Heq. reflexivity.
    - change (List.map mesh bs) with (mesh <$> bs).
      rewrite list_lookup_fmap, Hi. reflexivity. }
  rewrite (setLife_lookup_other _ _ _ _ q Hx Hne) in Hj. injection Hj as <-.
  eapply Hfresh; eassumption.
Qed.

Section Fresh.

Context {T : THREE}.

(** The array after the loop body for index [i], when the meshes in
    flight are distinct: the life of the bullet is written, and the bullet
    is spliced out by a hit, by the expiry, or by both (the second splice
    then takes the bullet that followed it). *)
Lemma activeBullets_bulletStep_at (i : nat) (b : Bullet) (dt : Q) (w : State) :
  NoDup (meshes w) -> activeBullets w !! i = Some b ->
  let l := setLife (mesh b) (life b - dt) (activeBullets w) in
  (Qle_bool (life b - dt) 0 = false /\ activeBullets (bulletStep i b dt w) = l)
  \/ activeBullets (bulletStep i b dt w) = delete i l
  \/ activeBullets (bulletStep i b dt w) = delete i (delete i l).
Proof.
  intros Hnd Hi. cbv zeta. rewrite bulletStep_advance. cbv zeta.
  pose proof (activeBullets_advance b dt w) as Ha0.
  set (w0 := advance b dt w) in *. clearbody w0.
  destruct (check_cases b (positionOf b w) w0)
    as [E | (w2 & E & Ha & _ & _)]; rewrite E; cbn [fst].
  - destruct (Qle_bool (life b - dt) 0) eqn:Hq.
    + right. left. autorewrite with frame. rewrite Ha0. reflexivity.
    + left. split; [reflexivity |]. autorewrite with frame. rewrite Ha0.
      reflexivity.
  - assert (Hr : activeBullets (removeAfterHit b w2) = delete i (activeBullets w)).
    { rewrite (activeBullets_removeAfterHit_at b w2 i); [rewrite Ha, Ha0; reflexivity |].
      rewrite Ha, Ha0. apply indexOf_NoDup; assumption. }
    set (wr := removeAfterHit b w2) in *. clearbody wr.
    right. destruct (Qle_bool (life b - dt) 0).
    + right. autorewrite with frame. rewrite Hr, setLife_delete. reflexivity.
    + left. autorewrite with frame. rewrite Hr, setLife_delete. reflexivity.
Qed.

Lemma freshFrom_bulletStep (i : nat) (b : Bullet) (dt : Q) (w : State) :
  NoDup (meshes w) -> activeBullets w !! i = Some b ->
  (forall j x, activeBullets w !! j = Some x -> S i <= j -> (0 < life x)%Q) ->
  forall j x, activeBullets (bulletStep i b dt w) !! j = Some x -> i <= j ->
              (0 < life x)%Q.
Proof.
  intros Hnd Hi Hfresh j x Hj Hle.
  pose proof (freshFrom_setLife _ i b (life b - dt) Hnd Hi Hfresh) as Hl.
  destruct (activeBullets_bulletStep_at i b dt w Hnd Hi)
    as [[Hq E] | [E | E]]; rewrite E in Hj.
  - destruct (decide (j = i)) as [-> | Hne].
    + rewrite (setLife_lookup_same _ _ _ _ Hi) in Hj. injection Hj as <-.
      simpl. apply Qle_bool_false, Hq.
    + eapply Hl; [exact Hj | lia].
  - rewrite list_lookup_delete_ge in Hj by lia. eapply Hl; [exact Hj | lia].
  - rewrite !list_lookup_delete_ge in Hj by lia. eapply Hl; [exact Hj | lia].
Qed.

Lemma fresh_updateBulletsFrom (k : nat) (dt : Q) (w : State) :
  NoDup (meshes w) -> k <= length (activeBullets w) ->
  (forall j x, activeBullets w !! j = Some x -> k <= j -> (0 < life x)%Q) ->
  exists w', updateBulletsFrom k dt w = Some w' /\ fresh w'.
Proof.
  revert w. induction k as [| i IH]; intros w Hnd Hk Hfresh; simpl.
  - exists w. split; [reflexivity |]. apply Forall_lookup.
    intros j x Hj. eapply Hfresh; [exact Hj | lia].
  - destruct (lookup_lt_is_Some_2 (activeBullets w) i) as [b Hb]; [lia |].
    rewrite Hb. apply IH.
    + eapply sublist_NoDup; [exact Hnd | apply meshes_bulletStep].
    + apply length_bulletStep. lia.
    + apply freshFrom_bulletStep; assumption.
Qed.

(** X6. After [updateBullets] no bullet with an expired life is left in
    flight: every bullet still in the array has a positive life, whatever
    was hit or spliced during the frame. *)
Theorem updateBullets_leaves_no_expired (dt : Q) (w : State) :
  NoDup (meshes w) ->
  exists w', updateBullets dt w = Some w'
             /\ Forall (fun b => (0 < life b)%Q) (activeBullets w').
Proof.
  intros Hnd. apply fresh_updateBulletsFrom; [exact Hnd | reflexivity |].
  intros j x Hj Hle. apply lookup_lt_Some in Hj. lia.
Qed.

End Fresh.

Lemma updateBullets_leaves_no_expired_witness :
  NoDup (meshes (fireOnce (fireOnce loaded)))
  /\ exists w', updateBullets (T := boxCaster) 1 (fireOnce (fireOnce loaded)) = Some w'
                /\ Forall (fun b => (0 < life b)%Q) (activeBullets w').
Proof.
  assert (H : NoDup (meshes (fireOnce (fireOnce loaded)))).
  { vm_compute. apply NoDup_cons_2; [| apply NoDup_singleton].
    intros Hin. apply list_elem_of_singleton in Hin. discriminate. }
  split; [exact H |].
  exact (updateBullets_leaves_no_expired (T := boxCaster) 1 _ H).
Defined.

(** ** Scanning for targets *)

Lemma scanForNewTargets_fold (w : State) :
  scanForNewTargets w = fold_left scanVisit (scene w) w.
Proof. reflexivity. Qed.

Lemma filter_out_absent (id : ObjId) (l : list ObjId) :
  ~ In id l -> List.filter (fun x => negb (Nat.eqb x id)) l = l.
Proof.
  induction l as [| a l IH]; intros Hn; simpl; [reflexivity |].
  destruct (Nat.eqb a id) eqn:E; simpl.
  - apply Nat.eqb_eq in E. exfalso. apply Hn. left. exact E.
  - f_equal. apply IH. intros H. apply Hn. right. exact H.
Qed.

Lemma mapHas_app (k : ObjId) (m m' : list (ObjId * ObjId)) :
  mapHas k (m ++ m') = mapHas k m || mapHas k m'.
Proof. apply existsb_app. Qed.

Lemma mapSet_new (k v : ObjId) (m : list (ObjId * ObjId)) :
  mapHas k m = false -> mapSet k v m = m ++ [(k, v)].
Proof. unfold mapSet. intros ->. reflexivity. Qed.

Lemma grows_refl (w : State) : sceneClosed w -> grows w w.
Proof.
  intros H. unfold grows. repeat split; auto; try lia.
  - intros [? | ?]; [assumption | lia].
  - exists []. symmetry. apply app_nil_r.
Qed.

Lemma grows_trans (w1 w2 w3 : State) : grows w1 w2 -> grows w2 w3 -> grows w1 w3.
Proof.
  intros (Hn & _ & Hh & Ht & Hs & (a & Ha)) (Hn' & Hc' & Hh' & Ht' & Hs' & (a' & Ha')).
  unfold grows. split; [lia |]. split; [exact Hc' |]. split; [| split; [| split]].
  - intros id Hid. rewrite Hh' by lia. apply Hh, Hid.
  - intros id Hid. destruct (decide (id < nextId w2)) as [Hlt | Hge].
    + rewrite Hh' by exact Hlt. apply Ht. lia.
    + apply Ht'. lia.
  - intros id. rewrite Hs', Hs. split.
    + intros [[? | ?] | ?]; [left; assumption | right; lia | right; lia].
    + intros [? | ?]; [left; left; assumption |].
      destruct (decide (id < nextId w2)); [left; right; lia | right; lia].
  - exists (a ++ a'). rewrite Ha', Ha. symmetry. apply app_assoc.
Qed.

Lemma grows_createTargetCollider (t : ObjId) (size : Vector3) (w : State) :
  sceneClosed w -> mapHas t (targetColliders w) = false ->
  grows w (createTargetCollider t size w)
  /\ mapHas t (targetColliders (createTargetCollider t size w)) = true.
Proof.
  intros Hc Hm.
  assert (Hfresh : ~ In (nextId w) (scene w)).
  { intros Hin. apply Hc in Hin. lia. }
  unfold createTargetCollider, alloc, sceneAdd. cbv zeta.
  cbn [scene set_nextId set_heap set_scene set_targetColliders targetColliders
       nextId].
  rewrite (filter_out_absent _ _ Hfresh), (mapSet_new _ _ _ Hm).
  split.
  - unfold grows, sceneClosed, getObj.
    cbn [scene set_nextId set_heap set_scene set_targetColliders targetColliders
         nextId heap].
    split; [lia |]. split; [| split; [| split; [| split]]].
    + intros id Hin. apply in_app_or in Hin as [Hin | [<- | []]]; [| lia].
      apply Hc in Hin. lia.
    + intros id Hid. rewrite lookup_total_insert_ne by lia. reflexivity.
    + intros id Hid. assert (id = nextId w) as -> by lia.
      rewrite lookup_total_insert_eq. reflexivity.
    + intros id. rewrite in_app_iff. simpl. split.
      * intros [? | [<- | []]]; [left; assumption | right; lia].
      * intros [? | ?]; [left; assumption | right; left; lia].
    + eexists. reflexivity.
  - rewrite mapHas_app. simpl. rewrite Nat.eqb_refl. apply orb_true_r.
Qed.

Lemma grows_scanVisit (w : State) (child : ObjId) :
  sceneClosed w ->
  grows w (scanVisit w child)
  /\ (isTarget (getObj w child) = true ->
      mapHas child (targetColliders (scanVisit w child)) = true).
Proof.
  intros Hc. unfold scanVisit.
  destruct (isTarget (getObj w child)) eqn:Ht.
  - destruct (mapHas child (targetColliders w)) eqn:Hm.
    + split; [apply grows_refl, Hc | intros _; exact Hm].
    + destruct (grows_createTargetCollider child (mkVector3 2 2 4) w Hc Hm).
      split; [assumption | intros _; assumption].
  - split; [apply grows_refl, Hc | discriminate].
Qed.

Lemma grows_mapHas (w w' : State) (id : ObjId) :
  grows w w' -> mapHas id (targetColliders w) = true ->
  mapHas id (targetColliders w') = true.
Proof.
  intros (_ & _ & _ & _ & _ & (a & ->)) H. rewrite mapHas_app, H. reflexivity.
Qed.

Lemma grows_fold_scanVisit (l : list ObjId) (w : State) :
  sceneClosed w -> (forall id, In id l -> id < nextId w) ->
  grows w (fold_left scanVisit l w)
  /\ forall id, In id l -> isTarget (getObj w id) = true ->
                mapHas id (targetColliders (fold_left scanVisit l w)) = true.
Proof.
  revert w. induction l as [| x l IH]; intros w Hc Hl; simpl.
  - split; [apply grows_refl, Hc | intros id []].
  - destruct (grows_scanVisit w x Hc) as [Hg Hx].
    destruct (IH (scanVisit w x)) as [Hg' Hrest].
    { apply Hg. }
    { intros id Hin. destruct Hg as (Hn & _). specialize (Hl id (or_intror Hin)). lia. }
    split; [eapply grows_trans; eassumption |].
    intros id [<- | Hin] Ht.
    + eapply grows_mapHas; [exact Hg' | apply Hx, Ht].
    + apply Hrest; [exact Hin |].
      destruct Hg as (_ & _ & Hh & _). rewrite Hh; [exact Ht |].
      apply Hl. right. exact Hin.
Qed.

Lemma registered_scanForNewTargets (w : State) :
  sceneClosed w ->
  registered (scanForNewTargets w) /\ grows w (scanForNewTargets w).
Proof.
  intros Hc. rewrite scanForNewTargets_fold.
  destruct (grows_fold_scanVisit (scene w) w Hc Hc) as [Hg Hreg].
  split; [| exact Hg].
  intros id Hin Ht.
  pose proof Hg as (_ & _ & Hh & Hnew & Hs & _).
  apply Hs in Hin as [Hin | Hin].
  - apply Hreg; [exact Hin |]. rewrite <- Hh; [exact Ht | apply Hc, Hin].
  - rewrite Hnew in Ht by exact Hin. discriminate.
Qed.

Lemma fold_left_fixed {A B} (f : A -> B -> A) (l : list B) (a : A) :
  (forall b, In b l -> f a b = a) -> fold_left f l a = a.
Proof.
  induction l as [| b l IH]; intros H; simpl; [reflexivity |].
  rewrite (H b (or_introl eq_refl)). apply IH.
  intros b' Hb'. apply H. right. exact Hb'.
Qed.

Lemma scanForNewTargets_registered (w : State) :
  registered w -> scanForNewTargets w = w.
Proof.
  intros Hr. rewrite scanForNewTargets_fold. apply fold_left_fixed.
  intros id Hin. unfold scanVisit.
  destruct (isTarget (getObj w id)) eqn:Ht; [| reflexivity].
  rewrite (Hr id Hin Ht). reflexivity.
Qed.

(** X7. After [scanForNewTargets()] every object of the scene flagged as a
    target has a collider in the registry; the colliders registered before
    keep their entries and their order (new ones are appended), and the
    bullets, the trigger and the ammunition are untouched. *)
Theorem scan_registers_every_target (w : State) :
  sceneClosed w ->
  (forall id, In id (scene (scanForNewTargets w)) ->
              isTarget (getObj (scanForNewTargets w) id) = true ->
              mapHas id (targetColliders (scanForNewTargets w)) = true)
  /\ (exists added,
        targetColliders (scanForNewTargets w) = targetColliders w ++ added)
  /\ core (scanForNewTargets w) = core w.
Proof.
  intros Hc. destruct (registered_scanForNewTargets w Hc) as [Hr Hg].
  split; [exact Hr |]. split; [apply Hg | apply core_scanForNewTargets].
Qed.

Lemma unscanned_scene : scene unscanned = [0] /\ nextId unscanned = 1.
Proof. split; vm_compute; reflexivity. Qed.

Lemma unscanned_sceneClosed : sceneClosed unscanned.
Proof.
  unfold sceneClosed. destruct unscanned_scene as [-> ->].
  intros id [<- | []]. lia.
Qed.

Lemma scan_registers_every_target_witness :
  sceneClosed unscanned
  /\ mapHas 0 (targetColliders unscanned) = false
  /\ mapHas 0 (targetColliders (scanForNewTargets unscanned)) = true.
Proof.
  split; [exact unscanned_sceneClosed |]. split; [vm_compute; reflexivity |].
  apply (scan_registers_every_target unscanned unscanned_sceneClosed).
  - vm_compute. left. reflexivity.
  - vm_compute. reflexivity.
Defined.

(** X8. Scanning is idempotent: a second [scanForNewTargets()] right after
    a scan changes nothing, so the repeated scans of [scene.js] (after
    500 ms, after 2 s, every 5 s, every 60 frames) cannot pile up
    colliders. *)
Theorem scan_idempotent (w : State) :
  sceneClosed w ->
  scanForNewTargets (scanForNewTargets w) = scanForNewTargets w.
Proof.
  intros Hc. apply scanForNewTargets_registered.
  apply registered_scanForNewTargets, Hc.
Qed.

Lemma scan_idempotent_witness :
  sceneClosed unscanned
  /\ scanForNewTargets unscanned <> unscanned
  /\ scanForNewTargets (scanForNewTargets unscanned) = scanForNewTargets unscanned.
Proof.
  split; [exact unscanned_sceneClosed |]. split.
  - intros H. apply (f_equal nextId) in H. vm_compute in H. discriminate.
  - exact (scan_idempotent unscanned unscanned_sceneClosed).
Defined.

(** ** Colliders follow their targets *)

Lemma updateTargetColliders_fold (w : State) :
  updateTargetColliders w = fold_left followVisit (targetColliders w) w.
Proof. reflexivity. Qed.

Lemma filter_filter_comp {A} (f g : A -> bool) (l : list A) :
  List.filter f (List.filter g l) = List.filter (fun x => g x && f x) l.
Proof.
  induction l as [| a l IH]; simpl; [reflexivity |].
  destruct (g a); simpl; [destruct (f a) |]; rewrite IH; reflexivity.
Qed.

Lemma existsb_ext_in {A} (f g : A -> bool) (l : list A) :
  (forall x, In x l -> f x = g x) -> existsb f l = existsb g l.
Proof.
  induction l as [| a l IH]; intros H; simpl; [reflexivity |].
  rewrite (H a (or_introl eq_refl)), IH; [reflexivity |].
  intros x Hx. apply H. right. exact Hx.
Qed.

Lemma mapGet_In (k c : ObjId) (m : list (ObjId * ObjId)) :
  mapGet k m = Some c -> In (k, c) m.
Proof.
  unfold mapGet.
  destruct (List.find (fun e => Nat.eqb (fst e) k) m) as [[k' c'] |] eqn:E;
    [| discriminate].
  simpl. intros [= <-]. apply List.find_some in E as [Hin Hk].
  simpl in Hk. apply Nat.eqb_eq in Hk. subst k'. exact Hin.
Qed.

Lemma mapGet_None (k : ObjId) (m : list (ObjId * ObjId)) (e : ObjId * ObjId) :
  mapGet k m = None -> In e m -> Nat.eqb (fst e) k = false.
Proof.
  unfold mapGet.
  destruct (List.find (fun e => Nat.eqb (fst e) k) m) eqn:E; [discriminate |].
  intros _ Hin. exact (List.find_none _ _ E e Hin).
Qed.

Lemma mapGet_mapDelete_ne (k t : ObjId) (m : list (ObjId * ObjId)) :
  k <> t -> mapGet k (mapDelete t m) = mapGet k m.
Proof.
  intros Hne. unfold mapGet, mapDelete. f_equal.
  induction m as [| [a b] m IH]; simpl; [reflexivity |].
  destruct (Nat.eqb a t) eqn:Et; simpl.
  - apply Nat.eqb_eq in Et. subst a.
    destruct (Nat.eqb t k) eqn:Ek; [| exact IH].
    apply Nat.eqb_eq in Ek. congruence.
  - destruct (Nat.eqb a k); [reflexivity | exact IH].
Qed.

Lemma inScene_sceneRemove_ne (w : State) (c k : ObjId) :
  c <> k -> inScene (sceneRemove c w) k = inScene w k.
Proof.
  intros Hne. unfold inScene, sceneRemove. cbn [scene set_scene].
  induction (scene w) as [| a l IH]; simpl; [reflexivity |].
  destruct (Nat.eqb a c) eqn:Ea; simpl.
  - apply Nat.eqb_eq in Ea. subst a.
    assert (Nat.eqb k c = false) as -> by (apply Nat.eqb_neq; congruence).
    exact IH.
  - rewrite IH. reflexivity.
Qed.

(** What one removal does to the registry and the scene. *)
Lemma removeTargetCollider_spec (t : ObjId) (w : State) :
  targetColliders (removeTargetCollider t w) = mapDelete t (targetColliders w)
  /\ heap (removeTargetCollider t w) = heap w
  /\ (forall x, In x (scene (removeTargetCollider t w)) -> In x (scene w))
  /\ (forall c, mapGet t (targetColliders w) = Some c ->
                ~ In c (scene (removeTargetCollider t w)))
  /\ (forall k, (forall c, mapGet t (targetColliders w) = Some c -> c <> k) ->
                inScene (removeTargetCollider t w) k = inScene w k).
Proof.
  unfold removeTargetCollider.
  destruct (mapGet t (targetColliders w)) as [c1 |] eqn:E; cbv zeta.
  - cbn [targetColliders set_targetColliders heap].
    repeat split.
    + intros x Hx. apply List.filter_In in Hx. apply Hx.
    + intros c [= <-]. apply filter_out_not_in.
    + intros k Hk. apply (inScene_sceneRemove_ne w c1 k). apply Hk. reflexivity.
  - repeat split; auto; try discriminate.
    unfold mapDelete. symmetry. apply List.forallb_filter_id.
    apply forallb_forall. intros e He.
    apply negb_true_iff. exact (mapGet_None _ _ _ E He).
Qed.

(** The entries that a traversal over [l] leaves in the registry. *)
Lemma followVisit_fold_registry (l : list (ObjId * ObjId)) (w : State) :
  (forall e e', In e (targetColliders w) -> In e' l -> snd e <> fst e') ->
  targetColliders (fold_left followVisit l w) =
    List.filter
      (fun e => negb (existsb (fun e' => Nat.eqb (fst e') (fst e)
                                         && negb (inScene w (fst e'))) l))
      (targetColliders w)
  /\ (forall x, In x (scene (fold_left followVisit l w)) -> In x (scene w))
  /\ (forall e', In e' l -> inScene w (fst e') = false ->
        forall c, mapGet (fst e') (targetColliders w) = Some c ->
                  ~ In c (scene (fold_left followVisit l w))).
Proof.
  revert w. induction l as [| [t c0] l IH]; intros w Hsep.
  - simpl. split; [| split].
    + symmetry. apply List.forallb_filter_id. apply forallb_forall. reflexivity.
    + auto.
    + intros e' [].
  - change (fold_left followVisit ((t, c0) :: l) w)
      with (fold_left followVisit l (followVisit w (t, c0))).
    assert (Hw1 : followVisit w (t, c0) =
                  if inScene w t
                  then setPosition c0 (raised (position (getObj w t))) w
                  else removeTargetCollider t w) by reflexivity.
    rewrite Hw1. clear Hw1.
    destruct (inScene w t) eqn:Hin.
    + (* the collider follows: registry and scene are unchanged *)
      set (w1 := setPosition c0 _ w).
      destruct (IH w1) as (Hreg & Hsc & Hgone).
      { intros e e' He He'. apply Hsep; [exact He | right; exact He']. }
      split; [| split].
      * rewrite Hreg. apply List.filter_ext. intros e. simpl.
        destruct (Nat.eqb t (fst e)); simpl; rewrite ?Hin; reflexivity.
      * exact Hsc.
      * intros e' [<- | He'] Hout c Hc.
        -- simpl in Hout. congruence.
        -- exact (Hgone e' He' Hout c Hc).
    + (* the target has left the scene *)
      destruct (removeTargetCollider_spec t w) as (Htc & _ & Hsub & Hrem & Hin').
      set (w1 := removeTargetCollider t w) in *.
      assert (Hkeys : forall e', In e' l -> inScene w1 (fst e') = inScene w (fst e')).
      { intros e' He'. apply Hin'. intros c Hc. apply mapGet_In in Hc.
        apply (Hsep (t, c) e' Hc). right. exact He'. }
      destruct (IH w1) as (Hreg & Hsc & Hgone).
      { intros e e' He He'. apply Hsep; [| right; exact He'].
        rewrite Htc in He. apply List.filter_In in He. apply He. }
      split; [| split].
      * rewrite Hreg, Htc. unfold mapDelete.
        rewrite filter_filter_comp.
        apply List.filter_ext. intros e. simpl. rewrite Hin. simpl.
        rewrite (Nat.eqb_sym t (fst e)).
        destruct (Nat.eqb (fst e) t); simpl; [reflexivity |].
        f_equal. apply existsb_ext_in. intros e' He'.
        do 2 f_equal. exact (Hkeys e' He').
      * intros x Hx. apply Hsub, Hsc, Hx.
      * intros e' [<- | He'] Hout c Hc.
        -- simpl in Hc. intros Hx. apply (Hrem c Hc). apply Hsc, Hx.
        -- destruct (Nat.eq_dec (fst e') t) as [Heq | Hne].
           ++ rewrite Heq in Hc. intros Hx. apply (Hrem c Hc). apply Hsc, Hx.
           ++ apply (Hgone e' He'); [rewrite Hkeys; assumption |].
              rewrite Htc, mapGet_mapDelete_ne; assumption.
Qed.

(** X9. [updateTargetColliders()] collects the colliders of the targets
    that have left the scene: the registry keeps exactly the entries whose
    target is still attached, in their order, and the collider of every
    other target is taken out of the scene; bullets, trigger and
    ammunition are untouched. *)
Theorem colliders_of_removed_targets_are_collected (w : State) :
  (forall e e', In e (targetColliders w) -> In e' (targetColliders w) ->
                snd e <> fst e') ->
  targetColliders (updateTargetColliders w) =
    List.filter (fun e => inScene w (fst e)) (targetColliders w)
  /\ (forall t c, mapGet t (targetColliders w) = Some c ->
                  inScene w t = false ->
                  ~ In c (scene (updateTargetColliders w)))
  /\ core (updateTargetColliders w) = core w.
Proof.
  intros Hsep. rewrite updateTargetColliders_fold.
  destruct (followVisit_fold_registry (targetColliders w) w Hsep)
    as (Hreg & _ & Hgone).
  split; [| split].
  - rewrite Hreg. apply List.filter_ext_in. intros e He.
    destruct (inScene w (fst e)) eqn:Hin.
    + apply negb_true_iff. apply not_true_is_false. intros Hex.
      apply existsb_exists in Hex as (e' & _ & He').
      apply andb_true_iff in He' as [Hk Hout].
      apply Nat.eqb_eq in Hk. unfold ObjId in *.
      rewrite Hk, Hin in Hout. discriminate.
    + apply negb_false_iff. apply existsb_exists. exists e.
      split; [exact He |]. unfold ObjId in *.
      rewrite Nat.eqb_refl, Hin. reflexivity.
  - intros t c Hc Hout.
    apply (Hgone (t, c) (mapGet_In _ _ _ Hc) Hout c Hc).
  - rewrite <- updateTargetColliders_fold. apply core_updateTargetColliders.
Qed.

Lemma tracked_registry : targetColliders tracked = [(0, 2); (1, 3)].
Proof. vm_compute. reflexivity. Qed.

Lemma tracked_separate : separate tracked.
Proof.
  unfold separate. rewrite tracked_registry. split.
  - simpl. apply NoDup_cons_2; [| apply NoDup_singleton].
    intros Hin. apply list_elem_of_singleton in Hin. discriminate.
  - intros e e' He He'.
    destruct He as [<- | [<- | []]]; destruct He' as [<- | [<- | []]];
      discriminate.
Qed.

Lemma colliders_of_removed_targets_are_collected_witness :
  targetColliders tracked = [(0, 2); (1, 3)]
  /\ targetColliders (updateTargetColliders tracked) = [(1, 3)]
  /\ ~ In 2 (scene (updateTargetColliders tracked)).
Proof.
  destruct (colliders_of_removed_targets_are_collected tracked
              (proj2 tracked_separate)) as (Hreg & Hgone & _).
  split; [exact tracked_registry |]. split.
  - rewrite Hreg. vm_compute. reflexivity.
  - apply (Hgone 0); vm_compute; reflexivity.
Defined.

Lemma getObj_removeTargetCollider (t : ObjId) (w : State) (x : ObjId) :
  getObj (removeTargetCollider t w) x = getObj w x.
Proof.
  unfold getObj. destruct (removeTargetCollider_spec t w) as (_ & -> & _).
  reflexivity.
Qed.

Lemma followVisit_eq (w : State) (t c : ObjId) :
  followVisit w (t, c) =
  if inScene w t then setPosition c (raised (position (getObj w t))) w
  else removeTargetCollider t w.
Proof. reflexivity. Qed.

(** A traversal leaves alone every object that is not one of the
    colliders it visits. *)
Lemma followVisit_fold_untouched (l : list (ObjId * ObjId)) (w : State) (x : ObjId) :
  (forall e, In e l -> snd e <> x) ->
  getObj (fold_left followVisit l w) x = getObj w x.
Proof.
  revert w. induction l as [| [t c] l IH]; intros w Hx; [reflexivity |].
  change (fold_left followVisit ((t, c) :: l) w)
    with (fold_left followVisit l (followVisit w (t, c))).
  rewrite IH by (intros e He; apply Hx; right; exact He).
  rewrite followVisit_eq. destruct (inScene w t).
  - apply getObj_setPosition_ne. apply (Hx (t, c)). left. reflexivity.
  - apply getObj_removeTargetCollider.
Qed.

Lemma followVisit_fold_position (l : list (ObjId * ObjId)) (w : State)
    (t c : ObjId) :
  NoDup (List.map snd l) ->
  (forall e e', In e l -> In e' l -> snd e <> fst e') ->
  (forall e e', In e (targetColliders w) -> In e' l -> snd e <> fst e') ->
  In (t, c) l -> inScene w t = true ->
  position (getObj (fold_left followVisit l w) c) =
  raised (position (getObj w t)).
Proof.
  revert w. induction l as [| [t0 c0] l IH]; intros w Hnd Hl Hw Hin Hs;
    [destruct Hin |].
  change (fold_left followVisit ((t0, c0) :: l) w)
    with (fold_left followVisit l (followVisit w (t0, c0))).
  simpl in Hnd. apply NoDup_cons in Hnd as [Hc0 Hnd].
  destruct Hin as [[= -> ->] | Hin].
  - rewrite followVisit_fold_untouched.
    + rewrite followVisit_eq, Hs, getObj_setPosition_eq. reflexivity.
    + intros e He Heq. apply Hc0. rewrite <- Heq.
      apply list_elem_of_In. apply in_map. exact He.
  - assert (Hstep : inScene (followVisit w (t0, c0)) t = true
                    /\ getObj (followVisit w (t0, c0)) t = getObj w t
                    /\ forall e, In e (targetColliders (followVisit w (t0, c0))) ->
                                 In e (targetColliders w)).
    { rewrite followVisit_eq. destruct (inScene w t0).
      - split; [exact Hs |]. split; [| auto].
        apply getObj_setPosition_ne.
        apply (Hl (t0, c0) (t, c)); [left; reflexivity | right; exact Hin].
      - destruct (removeTargetCollider_spec t0 w) as (Htc & _ & _ & _ & Hkeep).
        split; [| split].
        + rewrite Hkeep; [exact Hs |]. intros c1 Hc1.
          apply mapGet_In in Hc1.
          apply (Hw (t0, c1) (t, c) Hc1). right. exact Hin.
        + apply getObj_removeTargetCollider.
        + intros e He. rewrite Htc in He. apply List.filter_In in He. apply He. }
    destruct Hstep as (Hs' & Hobj & Hsub).
    rewrite (IH (followVisit w (t0, c0))); [rewrite Hobj; reflexivity | | | | |];
      try assumption.
    + intros e e' He He'. apply Hl; right; assumption.
    + intros e e' He He'. apply Hw; [apply Hsub, He | right; exact He'].
Qed.

(** X10. After [updateTargetColliders()] the collider of every registered
    target that is still in the scene sits one unit above the position of
    its target, and stays registered. *)
Theorem colliders_follow_their_targets (w : State) (t c : ObjId) :
  separate w ->
  In (t, c) (targetColliders w) ->
  inScene w t = true ->
  In (t, c) (targetColliders (updateTargetColliders w))
  /\ position (getObj (updateTargetColliders w) c) =
     raised (position (getObj w t))
  /\ getObj (updateTargetColliders w) t = getObj w t.
Proof.
  intros [Hnd Hsep] Hin Hs. rewrite updateTargetColliders_fold.
  split; [| split].
  - destruct (followVisit_fold_registry (targetColliders w) w Hsep) as (-> & _).
    apply List.filter_In. split; [exact Hin |].
    apply negb_true_iff. apply not_true_is_false. intros Hex.
    apply existsb_exists in Hex as (e' & _ & He').
    apply andb_true_iff in He' as [Hk Hout].
    apply Nat.eqb_eq in Hk. simpl in Hk. unfold ObjId in *.
    rewrite Hk, Hs in Hout. discriminate.
  - apply followVisit_fold_position; assumption.
  - apply followVisit_fold_untouched. intros e He.
    apply (Hsep e (t, c) He Hin).
Qed.

Lemma colliders_follow_their_targets_witness :
  position (getObj tracked 3) = mkVector3 0 (0 + 1) (-10)
  /\ position (getObj (updateTargetColliders tracked) 3) = mkVector3 4 (0 + 1) (-6).
Proof.
  split; [vm_compute; reflexivity |].
  destruct (colliders_follow_their_targets tracked 1 3 tracked_separate)
    as (_ & Hp & _).
  - rewrite tracked_registry. right. left. reflexivity.
  - vm_compute. reflexivity.
  - rewrite Hp. vm_compute. reflexivity.
Defined.

(** ** Registering and unregistering a target *)

Lemma createTargetCollider_fields (t : ObjId) (size : Vector3) (w : State) :
  ~ In (nextId w) (scene w) ->
  scene (createTargetCollider t size w) = scene w ++ [nextId w]
  /\ targetColliders (createTargetCollider t size w) =
     mapSet t (nextId w) (targetColliders w)
  /\ nextId (createTargetCollider t size w) = S (nextId w)
  /\ (forall x, x <> nextId w ->
                getObj (createTargetCollider t size w) x = getObj w x)
  /\ isTargetCollider (getObj (createTargetCollider t size w) (nextId w)) = true.
Proof.
  intros Hfresh. unfold createTargetCollider, alloc, sceneAdd, getObj. cbv zeta.
  cbn [scene set_nextId set_heap set_scene set_targetColliders targetColliders
       nextId heap].
  rewrite (filter_out_absent _ _ Hfresh). repeat split.
  - intros x Hx. apply lookup_total_insert_ne. congruence.
  - rewrite lookup_total_insert_eq. reflexivity.
Qed.

Lemma removeTargetCollider_fields (t c : ObjId) (w : State) :
  mapGet t (targetColliders w) = Some c ->
  scene (removeTargetCollider t w) =
    List.filter (fun x => negb (Nat.eqb x c)) (scene w)
  /\ targetColliders (removeTargetCollider t w) = mapDelete t (targetColliders w)
  /\ heap (removeTargetCollider t w) = heap w
  /\ nextId (removeTargetCollider t w) = nextId w.
Proof.
  intros H. unfold removeTargetCollider. rewrite H. repeat split.
Qed.

Lemma mapDelete_absent (t : ObjId) (m : list (ObjId * ObjId)) :
  mapHas t m = false -> mapDelete t m = m.
Proof.
  unfold mapHas, mapDelete. intros H. apply List.forallb_filter_id.
  apply forallb_forall. intros e He. apply negb_true_iff.
  destruct (Nat.eqb (fst e) t) eqn:E; [| reflexivity].
  rewrite <- H. symmetry. apply existsb_exists. exists e. split; assumption.
Qed.

Lemma mapDelete_app (t : ObjId) (m m' : list (ObjId * ObjId)) :
  mapDelete t (m ++ m') = mapDelete t m ++ mapDelete t m'.
Proof. apply List.filter_app. Qed.

Lemma filter_out_snoc (id : ObjId) (l : list ObjId) :
  ~ In id l -> List.filter (fun x => negb (Nat.eqb x id)) (l ++ [id]) = l.
Proof.
  intros H. unfold ObjId in *.
  rewrite List.filter_app, (filter_out_absent _ _ H). simpl.
  rewrite Nat.eqb_refl. apply app_nil_r.
Qed.

(** X11. Unregistering a target right after registering it restores the
    scene and the collider registry: the collider created by
    [registerTarget] is removed from both, the target ends up unflagged,
    and bullets, trigger and ammunition are untouched. *)
Theorem register_unregister_round_trip (t : ObjId) (size : Vector3) (w : State) :
  sceneClosed w ->
  mapHas t (targetColliders w) = false ->
  scene (unregisterTarget t (registerTarget t size w)) = scene w
  /\ targetColliders (unregisterTarget t (registerTarget t size w)) =
     targetColliders w
  /\ isTarget (getObj (unregisterTarget t (registerTarget t size w)) t) = false
  /\ core (unregisterTarget t (registerTarget t size w)) = core w.
Proof.
  intros Hc Hm.
  assert (Hfresh : ~ In (nextId w) (scene w)).
  { intros Hin. apply Hc in Hin. lia. }
  unfold unregisterTarget, registerTarget. cbv zeta.
  set (w0 := set_heap _ w).
  destruct (createTargetCollider_fields t size w0 Hfresh)
    as (Hs1 & Ht1 & _ & _ & _).
  pose proof (core_createTargetCollider t size w0) as Hcore1.
  set (w1 := createTargetCollider t size w0) in *.
  change (targetColliders w0) with (targetColliders w) in Ht1.
  change (scene w0) with (scene w) in Hs1.
  change (nextId w0) with (nextId w) in Hs1, Ht1.
  rewrite (mapSet_new _ _ _ Hm) in Ht1.
  assert (Hget : mapGet t (targetColliders w1) = Some (nextId w)).
  { rewrite Ht1, <- (mapSet_new _ _ _ Hm). apply mapGet_mapSet. }
  destruct (removeTargetCollider_fields t (nextId w) w1 Hget)
    as (Hs2 & Ht2 & _ & _).
  pose proof (core_removeTargetCollider t w1) as Hcore2.
  set (w2 := removeTargetCollider t w1) in *. clearbody w2 w1.
  split; [| split; [| split]].
  - cbn [scene set_heap]. rewrite Hs2, Hs1. apply filter_out_snoc, Hfresh.
  - cbn [targetColliders set_heap].
    rewrite Ht2, Ht1, mapDelete_app, (mapDelete_absent _ _ Hm). simpl.
    rewrite Nat.eqb_refl. apply app_nil_r.
  - unfold getObj. cbn [heap set_heap]. rewrite lookup_total_insert_eq.
    reflexivity.
  - transitivity (core w2); [reflexivity |].
    rewrite Hcore2, Hcore1. reflexivity.
Qed.

Lemma register_unregister_round_trip_witness :
  scene (registerTarget 0 (mkVector3 2 2 4) unscanned) <> scene unscanned
  /\ scene (unregisterTarget 0 (registerTarget 0 (mkVector3 2 2 4) unscanned)) =
     scene unscanned
  /\ targetColliders
       (unregisterTarget 0 (registerTarget 0 (mkVector3 2 2 4) unscanned)) =
     targetColliders unscanned.
Proof.
  split; [vm_compute; discriminate |].
  destruct (register_unregister_round_trip 0 (mkVector3 2 2 4) unscanned
              unscanned_sceneClosed) as (Hs & Ht & _).
  - vm_compute. reflexivity.
  - split; assumption.
Defined.

Lemma mapSet_replace_last (t c c' : ObjId) (m : list (ObjId * ObjId)) :
  mapHas t m = false -> mapSet t c' (m ++ [(t, c)]) = m ++ [(t, c')].
Proof.
  intros Hm. unfold mapSet. rewrite mapHas_app, Hm. simpl.
  rewrite Nat.eqb_refl. simpl. rewrite List.map_app. simpl.
  rewrite Nat.eqb_refl. f_equal.
  rewrite <- (List.map_id m) at 2. apply List.map_ext_in. intros e He.
  unfold ObjId in *.
  destruct (Nat.eqb (fst e) t) eqn:E; [| reflexivity].
  exfalso. unfold mapHas in Hm. rewrite <- not_true_iff_false in Hm.
  apply Hm. apply existsb_exists. exists e. split; assumption.
Qed.

Lemma registerTarget_fields (t : ObjId) (size : Vector3) (w : State) :
  ~ In (nextId w) (scene w) ->
  scene (registerTarget t size w) = scene w ++ [nextId w]
  /\ targetColliders (registerTarget t size w) =
     mapSet t (nextId w) (targetColliders w)
  /\ nextId (registerTarget t size w) = S (nextId w)
  /\ (forall x, x <> nextId w ->
        isTargetCollider (getObj (registerTarget t size w) x) =
        isTargetCollider (getObj w x))
  /\ isTargetCollider (getObj (registerTarget t size w) (nextId w)) = true.
Proof.
  intros Hfresh. unfold registerTarget. cbv zeta.
  set (w0 := set_heap _ w).
  destruct (createTargetCollider_fields t size w0 Hfresh)
    as (Hs & Ht & Hn & Hh & Hf).
  split; [exact Hs |]. split; [exact Ht |]. split; [exact Hn |].
  split; [| exact Hf].
  intros x Hx. rewrite (Hh x Hx). unfold getObj, w0. cbn [heap set_heap].
  destruct (decide (t = x)) as [<- | Hne].
  - rewrite lookup_total_insert_eq. reflexivity.
  - rewrite lookup_total_insert_ne by exact Hne. reflexivity.
Qed.

Lemma unregisterTarget_fields (t c : ObjId) (w : State) :
  mapGet t (targetColliders w) = Some c ->
  scene (unregisterTarget t w) =
    List.filter (fun x => negb (Nat.eqb x c)) (scene w)
  /\ targetColliders (unregisterTarget t w) = mapDelete t (targetColliders w).
Proof.
  intros H. unfold unregisterTarget. cbv zeta.
  destruct (removeTargetCollider_fields t c w H) as (Hs & Ht & _ & _).
  split; [exact Hs | exact Ht].
Qed.

(** X12. Registering a target that is already registered replaces its
    entry in the registry without removing the earlier collider: the first
    collider stays in the scene, still flagged as a target collider, and a
    later [unregisterTarget] removes only the second one. *)
Theorem second_registration_orphans_collider
    (t : ObjId) (size1 size2 : Vector3) (w : State) :
  sceneClosed w ->
  mapHas t (targetColliders w) = false ->
  let w2 := registerTarget t size2 (registerTarget t size1 w) in
  targetColliders w2 = targetColliders w ++ [(t, S (nextId w))]
  /\ scene w2 = scene w ++ [nextId w; S (nextId w)]
  /\ isTargetCollider (getObj w2 (nextId w)) = true
  /\ scene (unregisterTarget t w2) = scene w ++ [nextId w]
  /\ targetColliders (unregisterTarget t w2) = targetColliders w.
Proof.
  intros Hc Hm.
  assert (Hfresh : ~ In (nextId w) (scene w)).
  { intros Hin. apply Hc in Hin. lia. }
  destruct (registerTarget_fields t size1 w Hfresh)
    as (Hs1 & Ht1 & Hn1 & _ & Hf1).
  set (w1 := registerTarget t size1 w) in *. clearbody w1.
  rewrite (mapSet_new _ _ _ Hm) in Ht1.
  assert (Hfresh1 : ~ In (nextId w1) (scene w1)).
  { rewrite Hn1, Hs1. intros Hin.
    apply in_app_or in Hin as [Hin | [Heq | []]]; [apply Hc in Hin |]; lia. }
  destruct (registerTarget_fields t size2 w1 Hfresh1)
    as (Hs2 & Ht2 & _ & Hh2 & _).
  set (w2 := registerTarget t size2 w1) in *. clearbody w2. cbv zeta.
  rewrite Hn1 in Hs2, Ht2, Hh2. rewrite Hs1 in Hs2. rewrite Ht1 in Ht2.
  rewrite (mapSet_replace_last _ _ _ _ Hm) in Ht2.
  assert (Hget : mapGet t (targetColliders w2) = Some (S (nextId w))).
  { rewrite Ht2, <- (mapSet_replace_last t (nextId w) _ _ Hm).
    apply mapGet_mapSet. }
  destruct (unregisterTarget_fields t _ w2 Hget) as (Hs3 & Ht3).
  split; [exact Ht2 |]. split; [rewrite Hs2, <- app_assoc; reflexivity |].
  split; [rewrite Hh2 by lia; exact Hf1 |]. split.
  - rewrite Hs3, Hs2. apply filter_out_snoc.
    intros Hin. apply in_app_or in Hin as [Hin | [Heq | []]];
      [apply Hc in Hin |]; lia.
  - rewrite Ht3, Ht2, mapDelete_app, (mapDelete_absent _ _ Hm). simpl.
    rewrite Nat.eqb_refl. apply app_nil_r.
Qed.

Lemma second_registration_orphans_collider_witness :
  scene unscanned = [0]
  /\ scene (unregisterTarget 0
              (registerTarget 0 (mkVector3 3 2 4)
                 (registerTarget 0 (mkVector3 2 2 4) unscanned))) = [0; 1].
Proof.
  split; [apply unscanned_scene |].
  destruct (second_registration_orphans_collider 0 (mkVector3 2 2 4)
              (mkVector3 3 2 4) unscanned unscanned_sceneClosed)
    as (_ & _ & _ & Hs & _).
  - vm_compute. reflexivity.
  - rewrite Hs. destruct unscanned_scene as [-> ->]. reflexivity.
Defined.

(** ** Hit notifications *)

Lemma events_snapToHit (b : Bullet) (c : ObjId) (hit : Intersection) (w : State) :
  events (snapToHit b c hit w) = events w.
Proof. reflexivity. Qed.

Section Notify.

Context {T : THREE}.

(** X13. The collision test of a bullet notifies at most one target, and
    only the target whose collider is the nearest intersection of the ray
    cast over the target colliders; that target is flagged [isTarget] and
    has an [onHit] callback, and the bullet has a collider and has moved.
    A bullet without collider, a bullet that has not moved, and a test
    whose ray cast over the target colliders is empty (a hit on the
    environment, or no hit) notify nobody. *)
Theorem hit_notifications_are_sound (b : Bullet) (prev : Vector3) (w : State) :
  let moved := subVectors (position (getObj w (mesh b))) prev in
  let ray := sweepRay prev (position (getObj w (mesh b))) in
  let after := fst (checkBulletColliderCollision b prev w) in
  (events after = events w
   \/ exists t hit rest,
        events after = events w ++ [TargetHit t hit]
        /\ is_Some (bulletColliders w !! mesh b)
        /\ Qeq_bool (vlength moved) 0 = false
        /\ intersectObjects (heap w) ray (targetColliderList w) false
           = hit :: rest
        /\ parentTarget (getObj w (object hit)) = Some t
        /\ isTarget (getObj w t) = true
        /\ onHit (getObj w t) = true)
  /\ (bulletColliders w !! mesh b = None -> events after = events w)
  /\ (Qeq_bool (vlength moved) 0 = true -> events after = events w)
  /\ (intersectObjects (heap w) ray (targetColliderList w) false = [] ->
      events after = events w).
Proof.
  cbv zeta. unfold checkBulletColliderCollision.
  destruct (bulletColliders w !! mesh b) as [bc |] eqn:Hbc;
    [| repeat split; auto].
  destruct (Qeq_bool _ 0) eqn:Hq; [repeat split; auto |].
  destruct (intersectObjects _ _ (targetColliderList w) false)
    as [| hit rest] eqn:Hcast.
  - assert (He : events
                   (fst (match intersectObjects (heap w)
                                 (sweepRay prev (position (getObj w (mesh b))))
                                 (environmentTargets w) true with
                         | [] => (w, false)
                         | hit :: _ =>
                             (removeAfterHit b (snapToHit b bc hit w), true)
                         end)) = events w).
    { destruct (intersectObjects _ _ _ true); [reflexivity |].
      cbn [fst]. rewrite events_removeAfterHit. reflexivity. }
    repeat split; auto; discriminate.
  - cbn [fst]. rewrite events_removeAfterHit.
    split; [| split; [discriminate | split; discriminate]].
    destruct (parentTarget (getObj w (object hit))) as [t |] eqn:Hp;
      [| left; reflexivity].
    destruct (flags_snapToHit b bc hit w t) as [Ht Ho].
    destruct (isTarget (getObj (snapToHit b bc hit w) t)) eqn:Et;
      [| left; reflexivity].
    unfold onTargetHit.
    destruct (onHit (getObj (snapToHit b bc hit w) t)) eqn:Eo;
      [| left; reflexivity].
    right. exists t, hit, rest.
    split; [reflexivity |]. split; [eauto |]. split; [reflexivity |].
    split; [reflexivity |]. split; [exact Hp |]. split; congruence.
Qed.

(** X14. Until the models are loaded the weapon ignores the trigger and
    the animation loop: presses, releases and frames leave the state as it
    is (no bullet, no timer, no scan). *)
Theorem unloaded_weapon_ignores_input (aim : Aim) (inputs : list Input)
    (w : State) :
  isLoaded w = false -> isShooting w = false ->
  run aim inputs w = Some w.
Proof.
  intros Hl Hs. induction inputs as [| i rest IH]; [reflexivity |].
  assert (Hstep : step aim i w = Some w).
  { destruct i as [| | dt]; simpl.
    - unfold startShooting. rewrite Hl. reflexivity.
    - unfold stopShooting. destruct w. simpl in Hs. subst. reflexivity.
    - unfold update. rewrite Hl. reflexivity. }
  simpl. rewrite Hstep. exact IH.
Qed.

End Notify.

Lemma unloaded_weapon_ignores_input_witness :
  run (T := boxCaster) ahead burst constructed = Some constructed.
Proof.
  apply (unloaded_weapon_ignores_input (T := boxCaster)); reflexivity.
Defined.

(** ** Bullets in open space *)

Lemma environmentTargets_eq (w : State) :
  environmentTargets w =
  List.filter (fun id => isEnvironment (getObj w id)) (scene w).
Proof. reflexivity. Qed.

Lemma environmentTargets_setPosition (id : ObjId) (p : Vector3) (w : State) :
  environmentTargets (setPosition id p w) = environmentTargets w.
Proof.
  rewrite !environmentTargets_eq.
  change (scene (setPosition id p w)) with (scene w).
  apply List.filter_ext. intros x. rewrite getObj_setPosition.
  destruct (decide (id = x)) as [-> |]; reflexivity.
Qed.

Lemma filter_nil_filter {A} (p q : A -> bool) (l : list A) :
  List.filter p l = [] -> List.filter p (List.filter q l) = [].
Proof.
  induction l as [| a l IH]; simpl; [reflexivity |].
  destruct (p a) eqn:Hp; [discriminate |]. intros H.
  destruct (q a); simpl; [rewrite Hp |]; apply IH, H.
Qed.

Lemma openSpace_setPosition (id : ObjId) (p : Vector3) (w : State) :
  openSpace w -> openSpace (setPosition id p w).
Proof.
  intros [H1 H2]. split; [exact H1 |].
  rewrite environmentTargets_setPosition. exact H2.
Qed.

Lemma openSpace_advance (b : Bullet) (dt : Q) (w : State) :
  openSpace w -> openSpace (advance b dt w).
Proof.
  intros H. unfold advance. cbv zeta.
  destruct (_ !! _); repeat apply openSpace_setPosition; exact H.
Qed.

Lemma openSpace_sceneRemove (id : ObjId) (w : State) :
  openSpace w -> openSpace (sceneRemove id w).
Proof.
  intros [H1 H2]. split; [exact H1 |].
  rewrite environmentTargets_eq in *.
  apply (filter_nil_filter (fun x => isEnvironment (getObj w x))
           (fun x => negb (Nat.eqb x id)) (scene w) H2).
Qed.

Lemma openSpace_set_activeBullets (l : list Bullet) (w : State) :
  openSpace w -> openSpace (set_activeBullets l w).
Proof. exact id. Qed.

Lemma openSpace_removeBulletCollider (m : ObjId) (w : State) :
  openSpace w -> openSpace (removeBulletCollider m w).
Proof.
  intros H. unfold removeBulletCollider. destruct (_ !! _); [| exact H].
  exact (openSpace_sceneRemove _ w H).
Qed.

Lemma events_advance (b : Bullet) (dt : Q) (w : State) :
  events (advance b dt w) = events w.
Proof. unfold advance. cbv zeta. destruct (_ !! _); reflexivity. Qed.

Lemma events_set_activeBullets (l : list Bullet) (w : State) :
  events (set_activeBullets l w) = events w.
Proof. reflexivity. Qed.

Lemma events_sceneRemove (id : ObjId) (w : State) :
  events (sceneRemove id w) = events w.
Proof. reflexivity. Qed.

#[local] Hint Rewrite events_set_activeBullets events_sceneRemove
  events_removeBulletCollider : frame.

Lemma setLife_middle (pre post : list Bullet) (b : Bullet) (q : Q) :
  NoDup (List.map mesh (pre ++ b :: post)) ->
  setLife (mesh b) q (pre ++ b :: post) =
  pre ++ mkBullet (mesh b) (velocity b) q :: post.
Proof.
  intros Hnd. rewrite List.map_app in Hnd. simpl in Hnd.
  apply NoDup_app in Hnd as (_ & Hpre & Hpost).
  apply NoDup_cons in Hpost as [Hpost _].
  assert (Hkeep : forall l, ~ In (mesh b) (List.map mesh l) ->
                            setLife (mesh b) q l = l).
  { intros l Hl. unfold setLife. rewrite <- (List.map_id l) at 2.
    apply List.map_ext_in. intros x Hx.
    destruct (Nat.eqb (mesh x) (mesh b)) eqn:E; [| reflexivity].
    apply Nat.eqb_eq in E. exfalso. apply Hl. rewrite <- E.
    apply in_map. exact Hx. }
  unfold setLife at 1. rewrite List.map_app. simpl. rewrite Nat.eqb_refl.
  fold (setLife (mesh b) q pre). fold (setLife (mesh b) q post).
  rewrite !Hkeep; [reflexivity | |].
  - intros Hin. apply Hpost. apply list_elem_of_In. exact Hin.
  - intros Hin. apply (Hpre (mesh b)).
    + apply list_elem_of_In. exact Hin.
    + apply list_elem_of_here.
Qed.

Lemma meshes_survivors (dt : Q) (l : list Bullet) :
  sublist (List.map mesh (List.filter alive (List.map (aged dt) l)))
          (List.map mesh l).
Proof.
  induction l as [| a l IH]; simpl; [constructor |].
  destruct (alive (aged dt a)); simpl; constructor; exact IH.
Qed.

Section OpenSpace.

Context {T : THREE}.
Hypothesis Hcast : castsOnObjects T.

Lemma check_openSpace (b : Bullet) (prev : Vector3) (w : State) :
  openSpace w -> checkBulletColliderCollision b prev w = (w, false).
Proof.
  intros [H1 H2]. unfold checkBulletColliderCollision.
  destruct (bulletColliders w !! mesh b); [| reflexivity].
  destruct (Qeq_bool _ 0); [reflexivity |].
  unfold targetColliderList. rewrite H1. cbn [List.map List.filter].
  rewrite Hcast, H2, Hcast. reflexivity.
Qed.

(** One step of the loop when there is nothing to hit. *)
Lemma bulletStep_openSpace (i : nat) (b : Bullet) (dt : Q) (w : State) :
  openSpace w ->
  openSpace (bulletStep i b dt w)
  /\ events (bulletStep i b dt w) = events w
  /\ activeBullets (bulletStep i b dt w) =
     (if Qle_bool (life b - dt) 0
      then delete i (setLife (mesh b) (life b - dt) (activeBullets w))
      else setLife (mesh b) (life b - dt) (activeBullets w))
  /\ heap (bulletStep i b dt w) = heap (advance b dt w)
  /\ (forall m, m <> mesh b ->
        bulletColliders (bulletStep i b dt w) !! m = bulletColliders w !! m).
Proof.
  intros H. rewrite bulletStep_advance. cbv zeta.
  pose proof (openSpace_advance b dt w H) as H0.
  pose proof (activeBullets_advance b dt w) as Ha0.
  pose proof (events_advance b dt w) as He0.
  pose proof (bulletColliders_advance b dt w) as Hc0.
  set (w0 := advance b dt w) in *. clearbody w0.
  rewrite (check_openSpace b (positionOf b w) w0 H0). cbn [fst].
  destruct (Qle_bool (life b - dt) 0).
  - split; [| split; [| split; [| split]]].
    + apply openSpace_set_activeBullets, openSpace_sceneRemove,
        openSpace_removeBulletCollider, openSpace_set_activeBullets, H0.
    + autorewrite with frame. exact He0.
    + autorewrite with frame. rewrite Ha0. reflexivity.
    + autorewrite with frame. rewrite heap_removeBulletCollider. reflexivity.
    + intros m Hm. autorewrite with frame.
      rewrite lookup_delete_ne by congruence. rewrite Hc0. reflexivity.
  - split; [| split; [| split; [| split]]].
    + apply openSpace_set_activeBullets, H0.
    + autorewrite with frame. exact He0.
    + autorewrite with frame. rewrite Ha0. reflexivity.
    + reflexivity.
    + intros m Hm. autorewrite with frame. rewrite Hc0. reflexivity.
Qed.

Lemma updateBulletsFrom_openSpace (L : list Bullet) (dt : Q) (k : nat) (w : State) :
  k <= length L ->
  NoDup (List.map mesh L) ->
  openSpace w ->
  activeBullets w =
    take k L ++ List.filter alive (List.map (aged dt) (drop k L)) ->
  exists w', updateBulletsFrom k dt w = Some w'
             /\ activeBullets w' = List.filter alive (List.map (aged dt) L)
             /\ openSpace w'
             /\ events w' = events w.
Proof.
  revert w. induction k as [| i IH]; intros w Hk Hnd Hopen Hact.
  - exists w. split; [reflexivity |]. split; [| split; [exact Hopen | reflexivity]].
    rewrite Hact. reflexivity.
  - destruct (lookup_lt_is_Some_2 L i) as [b Hb]; [lia |].
    set (F := List.filter alive (List.map (aged dt) (drop (S i) L))) in *.
    assert (Hlist : activeBullets w = take i L ++ b :: F).
    { rewrite Hact, (take_S_r L i b Hb), <- app_assoc. reflexivity. }
    assert (Hlen : length (take i L) = i) by (rewrite length_take; lia).
    assert (Hlook : activeBullets w !! i = Some b).
    { rewrite Hlist, <- Hlen at 1. rewrite list_lookup_middle; reflexivity. }
    assert (Hnd' : NoDup (List.map mesh (take i L ++ b :: F))).
    { eapply sublist_NoDup; [exact Hnd |].
      rewrite <- (take_drop i L) at 2. rewrite (drop_S L b i Hb).
      rewrite !List.map_app. apply sublist_app; [reflexivity |].
      simpl. apply sublist_skip. apply meshes_survivors. }
    simpl. rewrite Hlook.
    destruct (bulletStep_openSpace i b dt w Hopen) as (Ho1 & He1 & Ha1 & _ & _).
    destruct (IH (bulletStep i b dt w)) as (w' & Hrun & Hres & Ho' & He');
      [lia | exact Hnd | exact Ho1 | |].
    + assert (Hal : alive (aged dt b) = negb (Qle_bool (life b - dt) 0))
        by reflexivity.
      rewrite Ha1, Hlist, (setLife_middle _ _ _ _ Hnd').
      rewrite (drop_S L b i Hb). cbn [List.map List.filter]. rewrite Hal.
      change (mkBullet (mesh b) (velocity b) (life b - dt)) with (aged dt b).
      fold F.
      destruct (Qle_bool (life b - dt) 0); cbn [negb].
      * rewrite <- Hlen at 1. rewrite delete_middle. reflexivity.
      * reflexivity.
    + exists w'. split; [exact Hrun |]. split; [exact Hres |].
      split; [exact Ho' |]. rewrite He', He1. reflexivity.
Qed.

(** X19. When there is nothing to hit (no registered target and no
    environment mesh in the scene), [updateBullets] ages every bullet by
    [deltaTime] and removes exactly those whose life has run out, keeping
    the others in their order; bullets never stop one another, and nobody
    is notified. *)
Theorem bullets_age_and_expire_in_open_space (dt : Q) (w : State) :
  openSpace w ->
  NoDup (meshes w) ->
  exists w', updateBullets dt w = Some w'
             /\ activeBullets w' =
                List.filter alive (List.map (aged dt) (activeBullets w))
             /\ events w' = events w.
Proof.
  intros Hopen Hnd.
  destruct (updateBulletsFrom_openSpace (activeBullets w) dt
              (length (activeBullets w)) w) as (w' & Hrun & Hres & _ & He);
    [reflexivity | exact Hnd | exact Hopen | |].
  - rewrite take_ge, drop_ge by reflexivity. simpl. symmetry. apply app_nil_r.
  - exists w'. repeat split; assumption.
Qed.

Lemma getObj_advance_other (b : Bullet) (dt : Q) (w : State) (x : ObjId) :
  x <> mesh b ->
  (forall c, bulletColliders w !! mesh b = Some c -> x <> c) ->
  getObj (advance b dt w) x = getObj w x.
Proof.
  intros Hm Hc. unfold advance. cbv zeta.
  change (bulletColliders (setPosition (mesh b)
            (add (position (getObj w (mesh b)))
               (multiplyScalar (velocity b) dt)) w))
    with (bulletColliders w).
  destruct (bulletColliders w !! mesh b) as [c |] eqn:E.
  - rewrite getObj_setPosition_ne by (specialize (Hc c eq_refl); congruence).
    apply getObj_setPosition_ne. congruence.
  - apply getObj_setPosition_ne. congruence.
Qed.

Lemma collider_advance (b : Bullet) (dt : Q) (w : State) (c : ObjId) :
  bulletColliders w !! mesh b = Some c ->
  position (getObj (advance b dt w) c) = nextPosition b dt w.
Proof.
  intros E. unfold advance. cbv zeta.
  change (bulletColliders (setPosition (mesh b)
            (add (position (getObj w (mesh b)))
               (multiplyScalar (velocity b) dt)) w))
    with (bulletColliders w).
  rewrite E, !getObj_setPosition_eq. reflexivity.
Qed.

Lemma bulletStep_leaves_other (i : nat) (b : Bullet) (dt : Q) (w : State)
    (x : ObjId) :
  openSpace w ->
  x <> mesh b ->
  (forall c, bulletColliders w !! mesh b = Some c -> x <> c) ->
  getObj (bulletStep i b dt w) x = getObj w x.
Proof.
  intros Ho Hm Hc.
  destruct (bulletStep_openSpace i b dt w Ho) as (_ & _ & _ & Hh & _).
  unfold getObj at 1. rewrite Hh.
  apply (getObj_advance_other b dt w x Hm Hc).
Qed.

Lemma bulletStep_moves (i : nat) (b : Bullet) (dt : Q) (w : State) :
  openSpace w ->
  position (getObj (bulletStep i b dt w) (mesh b)) = nextPosition b dt w
  /\ forall c, bulletColliders w !! mesh b = Some c ->
               position (getObj (bulletStep i b dt w) c) = nextPosition b dt w.
Proof.
  intros Ho.
  destruct (bulletStep_openSpace i b dt w Ho) as (_ & _ & _ & Hh & _).
  unfold getObj at 1 2. rewrite Hh. split.
  - apply (position_advance b dt w).
  - intros c Hc. apply (collider_advance b dt w c Hc).
Qed.

Lemma lookup_mesh_inj (L : list Bullet) (i j : nat) (b b' : Bullet) :
  NoDup (List.map mesh L) -> L !! i = Some b -> L !! j = Some b' ->
  mesh b = mesh b' -> i = j.
Proof.
  intros Hnd Hi Hj Hm. eapply NoDup_lookup; [exact Hnd | |].
  - change (List.map mesh L) with (mesh <$> L).
    rewrite list_lookup_fmap, Hi. reflexivity.
  - change (List.map mesh L) with (mesh <$> L).
    rewrite list_lookup_fmap, Hj. simpl. rewrite Hm. reflexivity.
Qed.

Lemma updateBulletsFrom_positions (L : list Bullet) (dt : Q) (w0 : State)
    (k : nat) (w : State) :
  k <= length L ->
  NoDup (List.map mesh L) ->
  openSpace w ->
  activeBullets w =
    take k L ++ List.filter alive (List.map (aged dt) (drop k L)) ->
  (forall m c, bulletColliders w0 !! m = Some c -> ~ In c (List.map mesh L)) ->
  (forall m m' c, bulletColliders w0 !! m = Some c ->
                  bulletColliders w0 !! m' = Some c -> m = m') ->
  (forall j b, L !! j = Some b -> j < k ->
     getObj w (mesh b) = getObj w0 (mesh b)
     /\ bulletColliders w !! mesh b = bulletColliders w0 !! mesh b
     /\ forall c, bulletColliders w0 !! mesh b = Some c ->
                  getObj w c = getObj w0 c) ->
  (forall j b, L !! j = Some b -> k <= j ->
     position (getObj w (mesh b)) = nextPosition b dt w0
     /\ forall c, bulletColliders w0 !! mesh b = Some c ->
                  position (getObj w c) = nextPosition b dt w0) ->
  exists w', updateBulletsFrom k dt w = Some w'
             /\ forall j b, L !! j = Some b ->
                  position (getObj w' (mesh b)) = nextPosition b dt w0
                  /\ forall c, bulletColliders w0 !! mesh b = Some c ->
                               position (getObj w' c) = nextPosition b dt w0.
Proof.
  revert w. induction k as [| i IH];
    intros w Hk Hnd Hopen Hact Hapart Hinj Htodo Hdone.
  - exists w. split; [reflexivity |]. intros j b Hb. apply (Hdone j b Hb). lia.
  - destruct (lookup_lt_is_Some_2 L i) as [b Hb]; [lia |].
    set (F := List.filter alive (List.map (aged dt) (drop (S i) L))) in *.
    assert (Hlist : activeBullets w = take i L ++ b :: F).
    { rewrite Hact, (take_S_r L i b Hb), <- app_assoc. reflexivity. }
    assert (Hlen : length (take i L) = i) by (rewrite length_take; lia).
    assert (Hlook : activeBullets w !! i = Some b).
    { rewrite Hlist, <- Hlen at 1. rewrite list_lookup_middle; reflexivity. }
    assert (Hnd' : NoDup (List.map mesh (take i L ++ b :: F))).
    { eapply sublist_NoDup; [exact Hnd |].
      rewrite <- (take_drop i L) at 2. rewrite (drop_S L b i Hb).
      rewrite !List.map_app. apply sublist_app; [reflexivity |].
      simpl. apply sublist_skip. apply meshes_survivors. }
    simpl. rewrite Hlook.
    destruct (Htodo i b Hb (Nat.lt_succ_diag_r i)) as (Hob & Hcb & Hocb).
    destruct (bulletStep_openSpace i b dt w Hopen) as (Ho1 & _ & Ha1 & _ & Hc1).
    destruct (bulletStep_moves i b dt w Hopen) as (Hmv & Hmvc).
    assert (Hnext : nextPosition b dt w = nextPosition b dt w0).
    { unfold nextPosition, positionOf. rewrite Hob. reflexivity. }
    assert (Hother : forall j b', L !! j = Some b' -> j <> i ->
              getObj (bulletStep i b dt w) (mesh b') = getObj w (mesh b')
              /\ forall c', bulletColliders w0 !! mesh b' = Some c' ->
                            getObj (bulletStep i b dt w) c' = getObj w c').
    { intros j b' Hb' Hji.
      assert (Hmm : mesh b' <> mesh b).
      { intros Heq. apply Hji.
        apply (lookup_mesh_inj L j i b' b Hnd Hb' Hb Heq). }
      split.
      - apply bulletStep_leaves_other; [exact Hopen | exact Hmm |].
        intros c Hc Heq. rewrite Hcb in Hc. apply (Hapart _ _ Hc).
        rewrite <- Heq. apply in_map. eapply list_elem_of_In, list_elem_of_lookup_2.
        exact Hb'.
      - intros c' Hc'. apply bulletStep_leaves_other; [exact Hopen | |].
        + intros Heq. apply (Hapart _ _ Hc'). rewrite Heq. apply in_map.
          eapply list_elem_of_In, list_elem_of_lookup_2. exact Hb.
        + intros c Hc Heq. rewrite Hcb in Hc. subst c'.
          apply Hmm. apply (Hinj _ _ _ Hc' Hc). }
    apply (IH (bulletStep i b dt w)); try assumption; [lia | | |].
    + assert (Hal : alive (aged dt b) = negb (Qle_bool (life b - dt) 0))
        by reflexivity.
      rewrite Ha1, Hlist, (setLife_middle _ _ _ _ Hnd').
      rewrite (drop_S L b i Hb). cbn [List.map List.filter]. rewrite Hal.
      change (mkBullet (mesh b) (velocity b) (life b - dt)) with (aged dt b).
      fold F.
      destruct (Qle_bool (life b - dt) 0); cbn [negb].
      * rewrite <- Hlen at 1. rewrite delete_middle. reflexivity.
      * reflexivity.
    + intros j b' Hb' Hj.
      destruct (Htodo j b' Hb') as (Ho' & Hc' & Hoc'); [lia |].
      destruct (Hother j b' Hb') as (Hs1 & Hs2); [lia |].
      split; [rewrite Hs1; exact Ho' |]. split.
      * rewrite Hc1; [exact Hc' |].
        intros Heq. assert (j = i); [| lia].
        apply (lookup_mesh_inj L j i b' b Hnd Hb' Hb Heq).
      * intros c Hc. rewrite (Hs2 c Hc). apply Hoc', Hc.
    + intros j b' Hb' Hj. destruct (decide (j = i)) as [-> | Hne].
      * assert (b' = b) as -> by congruence.
        split; [rewrite Hmv; exact Hnext |].
        intros c Hc. rewrite Hmvc; [exact Hnext |]. rewrite Hcb. exact Hc.
      * destruct (Hdone j b' Hb') as (Hp & Hpc); [lia |].
        destruct (Hother j b' Hb' Hne) as (Hs1 & Hs2).
        split; [rewrite Hs1; exact Hp |].
        intros c Hc. rewrite (Hs2 c Hc). apply Hpc, Hc.
Qed.

(** X20. When there is nothing to hit, one call of [updateBullets] moves
    every bullet in flight by [velocity * deltaTime] from where it was,
    and its collider with it (expired bullets included: they make their
    last move before they are removed). *)
Theorem bullets_fly_straight_in_open_space (dt : Q) (w : State) :
  openSpace w ->
  NoDup (meshes w) ->
  collidersApart w ->
  exists w', updateBullets dt w = Some w'
             /\ forall b, In b (activeBullets w) ->
                  position (getObj w' (mesh b)) =
                    add (position (getObj w (mesh b)))
                        (multiplyScalar (velocity b) dt)
                  /\ forall c, bulletColliders w !! mesh b = Some c ->
                       position (getObj w' c) =
                         add (position (getObj w (mesh b)))
                             (multiplyScalar (velocity b) dt).
Proof.
  intros Hopen Hnd [Hapart Hinj].
  destruct (updateBulletsFrom_positions (activeBullets w) dt w
              (length (activeBullets w)) w) as (w' & Hrun & Hres);
    try assumption; try reflexivity.
  - rewrite take_ge, drop_ge by reflexivity. simpl. symmetry. apply app_nil_r.
  - intros j b Hb Hj. repeat split.
  - intros j b Hb Hj. apply lookup_lt_Some in Hb. lia.
  - exists w'. split; [exact Hrun |]. intros b Hin.
    apply list_elem_of_In, list_elem_of_lookup_1 in Hin as [j Hj].
    apply (Hres j b Hj).
Qed.

End OpenSpace.

Lemma boxCaster_castsOnObjects : castsOnObjects boxCaster.
Proof. intros hp r recursive. reflexivity. Qed.

Lemma twoShots_openSpace : openSpace (fireOnce (fireOnce loaded)).
Proof. split; vm_compute; reflexivity. Qed.

Lemma twoShots_NoDup : NoDup (meshes (fireOnce (fireOnce loaded))).
Proof.
  vm_compute. apply NoDup_cons_2; [| apply NoDup_singleton].
  intros Hin. apply list_elem_of_singleton in Hin. discriminate.
Qed.

Lemma bullets_age_and_expire_in_open_space_witness :
  exists w',
    updateBullets (T := boxCaster) 1 (fireOnce (fireOnce loaded)) = Some w'
    /\ List.map life (activeBullets w') = [(3 - 1)%Q; (3 - 1)%Q].
Proof.
  destruct (bullets_age_and_expire_in_open_space (T := boxCaster)
              boxCaster_castsOnObjects 1 (fireOnce (fireOnce loaded))
              twoShots_openSpace twoShots_NoDup) as (w' & Hrun & Hres & _).
  exists w'. split; [exact Hrun |]. rewrite Hres. vm_compute. reflexivity.
Defined.

Lemma twoShots_collidersApart : collidersApart (fireOnce (fireOnce loaded)).
Proof.
  assert (Hc : bulletColliders (fireOnce (fireOnce loaded)) = {[0 := 1; 2 := 3]})
    by (vm_compute; reflexivity).
  assert (Hm : meshes (fireOnce (fireOnce loaded)) = [0; 2])
    by (vm_compute; reflexivity).
  unfold collidersApart. rewrite Hc, Hm. split.
  - intros m c Hl Hin.
    apply lookup_insert_Some in Hl as [[<- <-] | [_ Hl]].
    + destruct Hin as [H | [H | []]]; discriminate.
    + apply lookup_singleton_Some in Hl as [<- <-].
      destruct Hin as [H | [H | []]]; discriminate.
  - intros m m' c Hl Hl'.
    apply lookup_insert_Some in Hl as [[<- <-] | [_ Hl]];
      apply lookup_insert_Some in Hl' as [[<- Heq] | [_ Hl']];
      try reflexivity; try discriminate.
    + apply lookup_singleton_Some in Hl' as [_ ?]. discriminate.
    + apply lookup_singleton_Some in Hl as [_ ?]. subst. discriminate.
    + apply lookup_singleton_Some in Hl as [<- _].
      apply lookup_singleton_Some in Hl' as [<- _]. reflexivity.
Qed.

Lemma bullets_fly_straight_in_open_space_witness :
  exists w',
    updateBullets (T := boxCaster) 1 (fireOnce (fireOnce loaded)) = Some w'
    /\ position (getObj w' 2) = add vzero (multiplyScalar (mkVector3 100 0 0) 1)
    /\ position (getObj w' 3) = add vzero (multiplyScalar (mkVector3 100 0 0) 1).
Proof.
  destruct (bullets_fly_straight_in_open_space (T := boxCaster)
              boxCaster_castsOnObjects 1 (fireOnce (fireOnce loaded))
              twoShots_openSpace twoShots_NoDup twoShots_collidersApart)
    as (w' & Hrun & Hres).
  exists w'. split; [exact Hrun |].
  destruct (Hres (mkBullet 2 (multiplyScalar (mkVector3 1 0 0) bulletSpeed)
                    bulletLifetime)) as (Hp & Hc).
  - vm_compute. right. left. reflexivity.
  - cbn [mesh velocity] in Hp, Hc. split.
    + rewrite Hp. vm_compute. reflexivity.
    + rewrite (Hc 3); vm_compute; reflexivity.
Defined.

End WeaponInvariants.


(* ===================================================================== *)
(** * Part VI: properties of the visual effects *)
(* ===================================================================== *)

Module SwayProofs.

Import Sway.

#[local] Open Scope Q_scope.

Lemma lerpFactor_range (p : Player) : 0 < lerpFactor p /\ lerpFactor p < 1.
Proof.
  unfold lerpFactor. destruct (isRunning p); [| destruct (isCrouching p)];
    split; reflexivity.
Qed.

(** One frame while the view does not turn. *)
Lemma updateWeaponRotation_steady (r : Rig) (rotation : Euler) (p : Player) :
  model r = Some rotation -> player r = Some p ->
  ey (lastCameraRotation r) == orZero (rotationY p) ->
  exists rotation',
    model (updateWeaponRotation r) = Some rotation'
    /\ player (updateWeaponRotation r) = Some p
    /\ weaponRotationOffset (updateWeaponRotation r) = weaponRotationOffset r
    /\ ey (lastCameraRotation (updateWeaponRotation r)) = orZero (rotationY p)
    /\ ex rotation' - ex (restRotation r p) ==
       (1 - lerpFactor p) * (ex rotation - ex (restRotation r p))
    /\ ey rotation' - ey (restRotation r p) ==
       (1 - lerpFactor p) * (ey rotation - ey (restRotation r p))
    /\ ez rotation' - ez (restRotation r p) ==
       (1 - lerpFactor p * 0.5) * (ez rotation - ez (restRotation r p)).
Proof.
  intros Hm Hp Hy. unfold updateWeaponRotation. rewrite Hm, Hp. cbv zeta.
  eexists. split; [reflexivity |].
  cbn [player weaponRotationOffset lastCameraRotation ey ex ez].
  split; [reflexivity |]. split; [reflexivity |]. split; [reflexivity |].
  unfold lerp, restRotation. cbn [ex ey ez].
  split; [ring |]. split; [ring |].
  assert (Hd : orZero (rotationY p) - ey (lastCameraRotation r) == 0)
    by (rewrite Hy; ring).
  rewrite Hd. ring.
Qed.

Lemma restRotation_ext (r r' : Rig) (p : Player) :
  weaponRotationOffset r' = weaponRotationOffset r ->
  restRotation r' p = restRotation r p.
Proof. unfold restRotation. intros ->. reflexivity. Qed.

Lemma sway_iter (n : nat) (r : Rig) (rotation : Euler) (p : Player) :
  model r = Some rotation -> player r = Some p ->
  ey (lastCameraRotation r) == orZero (rotationY p) ->
  exists rotation_n,
    model (Nat.iter n updateWeaponRotation r) = Some rotation_n
    /\ player (Nat.iter n updateWeaponRotation r) = Some p
    /\ weaponRotationOffset (Nat.iter n updateWeaponRotation r) =
       weaponRotationOffset r
    /\ ey (lastCameraRotation (Nat.iter n updateWeaponRotation r)) ==
       orZero (rotationY p)
    /\ ex rotation_n - ex (restRotation r p) ==
       qpow (1 - lerpFactor p) n * (ex rotation - ex (restRotation r p))
    /\ ey rotation_n - ey (restRotation r p) ==
       qpow (1 - lerpFactor p) n * (ey rotation - ey (restRotation r p))
    /\ ez rotation_n - ez (restRotation r p) ==
       qpow (1 - lerpFactor p * 0.5) n * (ez rotation - ez (restRotation r p)).
Proof.
  intros Hm Hp Hy. induction n as [| n IH].
  - exists rotation. simpl. repeat split; try assumption; ring.
  - destruct IH as (rn & Hmn & Hpn & Hon & Hyn & Hx & Hyy & Hz).
    change (Nat.iter (S n) updateWeaponRotation r)
      with (updateWeaponRotation (Nat.iter n updateWeaponRotation r)).
    set (rn' := Nat.iter n updateWeaponRotation r) in *. clearbody rn'.
    destruct (updateWeaponRotation_steady rn' rn p Hmn Hpn Hyn)
      as (r1 & Hm1 & Hp1 & Ho1 & Hy1 & Hx1 & Hyy1 & Hz1).
    rewrite (restRotation_ext r rn' p Hon) in Hx1, Hyy1, Hz1.
    exists r1. split; [exact Hm1 |]. split; [exact Hp1 |].
    split; [congruence |]. split; [rewrite Hy1; reflexivity |].
    cbn [qpow]. split; [| split].
    + rewrite Hx1, Hx. ring.
    + rewrite Hyy1, Hyy. ring.
    + rewrite Hz1, Hz. ring.
Qed.

(** X15. While the player keeps the view still, the weapon model turns
    towards its rest orientation ([weaponRotationOffset] plus the share of
    the pitch and the yaw it follows) geometrically: after [n] frames the
    distance to it on each axis is the initial one times [(1 - f)^n] for
    pitch and yaw and [(1 - f/2)^n] for roll, where the smoothing factor
    [f] lies strictly between 0 and 1. It never overshoots. *)
Theorem sway_converges_geometrically (n : nat) (r : Rig) (rotation : Euler)
    (p : Player) :
  model r = Some rotation -> player r = Some p ->
  ey (lastCameraRotation r) == orZero (rotationY p) ->
  0 < lerpFactor p /\ lerpFactor p < 1
  /\ exists rotation_n,
       model (Nat.iter n updateWeaponRotation r) = Some rotation_n
       /\ ex rotation_n - ex (restRotation r p) ==
          qpow (1 - lerpFactor p) n * (ex rotation - ex (restRotation r p))
       /\ ey rotation_n - ey (restRotation r p) ==
          qpow (1 - lerpFactor p) n * (ey rotation - ey (restRotation r p))
       /\ ez rotation_n - ez (restRotation r p) ==
          qpow (1 - lerpFactor p * 0.5) n * (ez rotation - ez (restRotation r p)).
Proof.
  intros Hm Hp Hy. split; [apply lerpFactor_range |].
  split; [apply lerpFactor_range |].
  destruct (sway_iter n r rotation p Hm Hp Hy)
    as (rn & Hmn & _ & _ & _ & Hx & Hyy & Hz).
  exists rn. repeat split; assumption.
Qed.

Lemma sway_converges_geometrically_witness :
  exists rotation_2,
    model (Nat.iter 2 updateWeaponRotation lookingUp) = Some rotation_2
    /\ ex rotation_2 - 0.28 == (0.916 * 0.916) * (0 - 0.28).
Proof.
  destruct (sway_converges_geometrically 2 lookingUp (mkEuler 0 0 0)
              (mkPlayer (Some 1) None false true) eq_refl eq_refl)
    as (_ & _ & rn & Hm & Hx & _).
  - reflexivity.
  - exists rn. split; [exact Hm |]. rewrite Hx. reflexivity.
Defined.

End SwayProofs.


Module ShotEffectProofs.

Import Weapon ShotEffect WeaponProofs.

#[local] Open Scope Q_scope.

Lemma ticks_S (m : nat) : ticks (S m) == ticks m + 0.016.
Proof.
  unfold ticks. rewrite Nat2Z.inj_succ. unfold Z.succ.
  rewrite inject_Z_plus. ring.
Qed.

Lemma ticks_in_time (m : nat) : (m <= 187)%nat -> ticks m <= maxTime.
Proof.
  intros H. unfold ticks, maxTime.
  assert (Hq : inject_Z (Z.of_nat m) <= 187).
  { change 187 with (inject_Z 187). rewrite <- Zle_Qle. lia. }
  lra.
Qed.

Lemma ticks_late (m : nat) : (188 <= m)%nat -> maxTime < ticks m.
Proof.
  intros H. unfold ticks, maxTime.
  assert (Hq : 188 <= inject_Z (Z.of_nat m)).
  { change 188 with (inject_Z 188). rewrite <- Zle_Qle. lia. }
  lra.
Qed.

Lemma ticks_nonneg (m : nat) : 0 <= ticks m.
Proof.
  unfold ticks.
  assert (Hq : 0 <= inject_Z (Z.of_nat m)).
  { change 0 with (inject_Z 0). rewrite <- Zle_Qle. lia. }
  lra.
Qed.

Lemma qmax_right (a b : Q) : a <= b -> qmax a b == b.
Proof.
  intros H. unfold qmax. apply Qle_bool_iff in H. rewrite H. reflexivity.
Qed.

Lemma flying_frame (start v : Vector3) (m : nat) (r : Effect * bool) :
  flying start v m r -> (m < 187)%nat -> flying start v (S m) (frame r).
Proof.
  intros (Hs & Hin & Hd & Hv & Ht & Hp & _ & _) Hm.
  assert (Hle : ticks (S m) <= maxTime) by (apply ticks_in_time; lia).
  assert (Ht' : fx_time (fst r) + 0.016 == ticks (S m)).
  { rewrite ticks_S, Ht. reflexivity. }
  assert (Hfade : 0 <= 1 - (fx_time (fst r) + 0.016) / maxTime).
  { rewrite Ht'. unfold maxTime, Qdiv in *. change (/ 3) with (1 # 3). lra. }
  unfold frame. rewrite Hs. unfold animateBullet. cbv zeta.
  assert (Hb : Qle_bool (fx_time (fst r) + 0.016) maxTime = true).
  { apply Qle_bool_iff. rewrite Ht'. exact Hle. }
  rewrite Hb. cbn [negb fst snd].
  unfold flying. cbn [fst snd fx_inScene fx_disposed fx_velocity fx_time
                      fx_position fx_bulletOpacity fx_trailOpacity].
  repeat split; try assumption.
  - destruct Hp as (Hx & _). rewrite Hv. cbn [vx add multiplyScalar] in *.
    rewrite Hx, ticks_S. ring.
  - destruct Hp as (_ & Hy & _). rewrite Hv. cbn [vy add multiplyScalar] in *.
    rewrite Hy, ticks_S. ring.
  - destruct Hp as (_ & _ & Hz). rewrite Hv. cbn [vz add multiplyScalar] in *.
    rewrite Hz, ticks_S. ring.
  - rewrite qmax_right by lra. rewrite Ht'. ring.
  - rewrite qmax_right by lra. rewrite Ht'. reflexivity.
Qed.

Lemma flying_lands (start v : Vector3) (r : Effect * bool) :
  flying start v 187 r -> landed (frame r).
Proof.
  intros (Hs & _ & _ & _ & Ht & _).
  assert (Hlate : maxTime < ticks 188) by (apply ticks_late; lia).
  unfold frame. rewrite Hs. unfold animateBullet. cbv zeta.
  assert (Hb : Qle_bool (fx_time (fst r) + 0.016) maxTime = false).
  { apply not_true_is_false. intros Hq. apply Qle_bool_iff in Hq.
    rewrite Ht, <- ticks_S in Hq. lra. }
  rewrite Hb. repeat split.
Qed.

Lemma frames_S (k : nat) (r : Effect * bool) :
  frames (S k) r = frame (frames k r).
Proof. reflexivity. Qed.

Lemma landed_frame (r : Effect * bool) : landed r -> frame r = r.
Proof. intros (Hs & _). unfold frame. rewrite Hs. reflexivity. Qed.

Section Generic.

Context {T : THREE}.

Lemma created_flying (shotData : ShotData) :
  flying (sd_position shotData)
    (multiplyScalar (normalize (sd_direction shotData)) speed) 1
    (createGenericShotEffect shotData).
Proof.
  unfold createGenericShotEffect. cbv zeta.
  apply (flying_frame _ _ 0 (_, true)); [| lia].
  unfold flying, ticks, maxTime, veq.
  cbn [fst snd fx_inScene fx_disposed fx_velocity fx_time fx_position
       fx_bulletOpacity fx_trailOpacity vx vy vz add multiplyScalar Z.of_nat].
  change (inject_Z 0) with 0. repeat split; ring.
Qed.

Lemma frames_flying (shotData : ShotData) (k : nat) :
  (k <= 186)%nat ->
  flying (sd_position shotData)
    (multiplyScalar (normalize (sd_direction shotData)) speed) (S k)
    (frames k (createGenericShotEffect shotData)).
Proof.
  induction k as [| k IH]; intros Hk.
  - apply created_flying.
  - rewrite frames_S. apply flying_frame; [apply IH | ]; lia.
Qed.

Lemma frames_landed (shotData : ShotData) (k : nat) :
  (187 <= k)%nat ->
  frames k (createGenericShotEffect shotData) =
  frames 187 (createGenericShotEffect shotData)
  /\ landed (frames k (createGenericShotEffect shotData)).
Proof.
  assert (H187 : landed (frames 187 (createGenericShotEffect shotData))).
  { rewrite (frames_S 186). eapply flying_lands. apply frames_flying. lia. }
  intros Hk. induction Hk as [| k Hk [IHe IHl]].
  - split; [reflexivity | exact H187].
  - rewrite frames_S, (landed_frame _ IHl). split; assumption.
Qed.

(** X16. The bullet drawn for a shot of an unknown player cleans up after
    itself. During the first 187 calls of [animateBullet] (the call made
    at creation and 186 animation frames) it stays in the scene, advances
    by [velocity * 0.016] per call and fades linearly; the 188th call,
    about three seconds after the shot, removes it from the scene,
    disposes of it and requests no further frame, and nothing happens
    afterwards. *)
Theorem generic_shot_effect_cleans_up (shotData : ShotData) (k : nat) :
  ((k <= 186)%nat ->
   flying (sd_position shotData)
     (multiplyScalar (normalize (sd_direction shotData)) speed) (S k)
     (frames k (createGenericShotEffect shotData)))
  /\ ((187 <= k)%nat ->
      landed (frames k (createGenericShotEffect shotData))
      /\ frames k (createGenericShotEffect shotData) =
         frames 187 (createGenericShotEffect shotData)).
Proof.
  split; [apply frames_flying |].
  intros Hk. destruct (frames_landed shotData k Hk). split; assumption.
Qed.

End Generic.

End ShotEffectProofs.


(* ===================================================================== *)
(** * Part VII: further properties of the network event handlers *)
(* ===================================================================== *)

Module SnapshotProofs.

Import Weapon Scene Snapshots SceneProofs.

Lemma onGameStateReceived_not_ready (gameState : GameState) (s : State) :
  ready s = false ->
  exists delay,
    onGameStateReceived gameState s =
    setTimeout CbProcessGameState delay
      (set_pendingGameState (Some gameState) s).
Proof.
  intros Hr. unfold onGameStateReceived.
  destruct (processGameState_not_ready
              (set_pendingGameState (Some gameState) s) gameState)
    as (delay & _ & ->); [reflexivity | exact Hr |].
  exists delay. reflexivity.
Qed.

(** X17. A snapshot that arrives while an earlier one is still waiting for
    the target manager replaces it: only the latest snapshot stays
    pending. Each arrival starts a polling chain of its own, so two
    arrivals leave two retries scheduled; players, targets and score are
    untouched meanwhile. *)
Theorem newer_snapshot_replaces_pending (g1 g2 : GameState) (s : State) :
  ready s = false ->
  pendingGameState (onGameStateReceived g2 (onGameStateReceived g1 s)) = Some g2
  /\ scheduledRetries (onGameStateReceived g2 (onGameStateReceived g1 s)) =
     S (S (scheduledRetries s))
  /\ targetManager (onGameStateReceived g2 (onGameStateReceived g1 s)) =
     targetManager s
  /\ remotePlayers (onGameStateReceived g2 (onGameStateReceived g1 s)) =
     remotePlayers s
  /\ score (onGameStateReceived g2 (onGameStateReceived g1 s)) = score s.
Proof.
  intros Hr.
  destruct (onGameStateReceived_not_ready g1 s Hr) as (d1 & ->).
  set (s1 := setTimeout CbProcessGameState d1 (set_pendingGameState (Some g1) s)).
  assert (Hr1 : ready s1 = false) by exact Hr.
  destruct (onGameStateReceived_not_ready g2 s1 Hr1) as (d2 & ->).
  split; [reflexivity |]. split; [| repeat split].
  rewrite scheduledRetries_setTimeout.
  change (scheduledRetries (set_pendingGameState (Some g2) s1))
    with (scheduledRetries s1).
  unfold s1. rewrite scheduledRetries_setTimeout. reflexivity.
Qed.

Lemma newer_snapshot_replaces_pending_witness :
  pendingGameState
    (onGameStateReceived emptyGameState
       (onGameStateReceived sampleGameState starting)) = Some emptyGameState
  /\ scheduledRetries
       (onGameStateReceived emptyGameState
          (onGameStateReceived sampleGameState starting)) = 2.
Proof.
  destruct (newer_snapshot_replaces_pending sampleGameState emptyGameState
              starting eq_refl) as (Hp & Hn & _).
  split; [exact Hp | exact Hn].
Defined.

Lemma counters_createRemotePlayers (l : list PlayerData) (s : State) :
  weaponAvailable (fold_left createRemotePlayer l s) = weaponAvailable s
  /\ targetScans (fold_left createRemotePlayer l s) = targetScans s
  /\ debugActivations (fold_left createRemotePlayer l s) = debugActivations s.
Proof.
  repeat split; apply WeaponProofs.fold_left_preserves; intros a b;
    unfold createRemotePlayer; destruct (String.eqb _ _);
    try destruct (remotePlayerThrows _ _); reflexivity.
Qed.

Lemma fireTimer_at_end (s : State) (delay : nat) (cb : Callback)
    (l rest : list (nat * Callback)) :
  timers s = l ++ (delay, cb) :: rest ->
  fireTimer (length l) s = runCallback cb (set_timers (l ++ rest) s).
Proof.
  intros H. unfold fireTimer. rewrite H.
  rewrite list_lookup_middle by reflexivity.
  rewrite delete_middle. reflexivity.
Qed.

Lemma scanTargets_fields (s : State) :
  weaponAvailable s = true ->
  timers (scanTargets s) = timers s
  /\ targetScans (scanTargets s) = S (targetScans s)
  /\ debugActivations (scanTargets s) = debugActivations s
  /\ targetManager (scanTargets s) = targetManager s
  /\ weaponAvailable (scanTargets s) = true.
Proof. intros H. unfold scanTargets. rewrite H. repeat split; exact H. Qed.

Lemma activateDebug_fields (s : State) :
  weaponAvailable s = true ->
  timers (activateDebug s) = timers s
  /\ targetScans (activateDebug s) = targetScans s
  /\ debugActivations (activateDebug s) = S (debugActivations s)
  /\ targetManager (activateDebug s) = targetManager s.
Proof. intros H. unfold activateDebug. rewrite H. repeat split. Qed.

Lemma secondaryScan_fields (s : State) :
  weaponAvailable s = true ->
  timers (secondaryScan s) = timers s ++ [(500, CbPostScanDebug)]
  /\ targetScans (secondaryScan s) = S (targetScans s)
  /\ debugActivations (secondaryScan s) = debugActivations s
  /\ targetManager (secondaryScan s) = targetManager s
  /\ weaponAvailable (secondaryScan s) = true.
Proof.
  intros H. unfold secondaryScan, scanTargets. rewrite H.
  repeat split; exact H.
Qed.

(** The follow-ups of a processed snapshot fire in the order of their
    delays: the scan after 500 ms, the console report it has scheduled
    (after 1 s), then the scan and the debug call after 2 s. *)
Lemma follow_ups_fire (r : State) (l : list (nat * Callback)) (d1 d2 d3 : nat) :
  weaponAvailable r = true ->
  timers r = l ++ [(d1, CbSecondaryScan); (d2, CbScanForNewTargets);
                   (d3, CbWeaponDebug)] ->
  let n := length l in
  let r1 := fireTimer n r in
  let r2 := fireTimer (n + 2) r1 in
  let r4 := fireTimer n (fireTimer n r2) in
  (timers r1 = l ++ [(d2, CbScanForNewTargets); (d3, CbWeaponDebug);
                     (500, CbPostScanDebug)]
   /\ targetScans r1 = S (targetScans r)
   /\ debugActivations r1 = debugActivations r)
  /\ r2 = set_timers (l ++ [(d2, CbScanForNewTargets); (d3, CbWeaponDebug)]) r1
  /\ timers r4 = l
  /\ targetScans r4 = 2 + targetScans r
  /\ debugActivations r4 = S (debugActivations r)
  /\ targetManager r4 = targetManager r.
Proof.
  intros Hw Ht. cbv zeta.
  rewrite (fireTimer_at_end r _ _ _ _ Ht). cbn [runCallback].
  set (r0 := set_timers _ r).
  destruct (secondaryScan_fields r0 Hw) as (Ht1 & Hs1 & Hd1 & Hm1 & Hw1).
  set (r1 := secondaryScan r0) in *. clearbody r1.
  change (timers r0) with (l ++ [(d2, CbScanForNewTargets); (d3, CbWeaponDebug)])
    in Ht1.
  change (targetScans r0) with (targetScans r) in Hs1.
  change (debugActivations r0) with (debugActivations r) in Hd1.
  change (targetManager r0) with (targetManager r) in Hm1. clear r0.
  rewrite <- app_assoc in Ht1. cbn [app] in Ht1.
  split; [split; [exact Ht1 | split; assumption] |].
  assert (H2 : fireTimer (length l + 2) r1 =
               set_timers (l ++ [(d2, CbScanForNewTargets); (d3, CbWeaponDebug)])
                 r1).
  { assert (Ht1' : timers r1 =
                   (l ++ [(d2, CbScanForNewTargets); (d3, CbWeaponDebug)])
                   ++ (500, CbPostScanDebug) :: []).
    { rewrite Ht1, <- app_assoc. reflexivity. }
    replace (length l + 2)
      with (length (l ++ [(d2, CbScanForNewTargets); (d3, CbWeaponDebug)]))
      by (rewrite length_app; reflexivity).
    rewrite (fireTimer_at_end r1 _ _ _ _ Ht1'). cbn [runCallback].
    rewrite app_nil_r. reflexivity. }
  rewrite H2. split; [reflexivity |].
  set (r1' := set_timers _ r1).
  assert (Ht2 : timers r1' =
                l ++ (d2, CbScanForNewTargets) :: [(d3, CbWeaponDebug)])
    by reflexivity.
  assert (Hw1' : weaponAvailable r1' = true) by exact Hw1.
  rewrite (fireTimer_at_end r1' _ _ _ _ Ht2). cbn [runCallback].
  set (r1'' := set_timers _ r1').
  destruct (scanTargets_fields r1'' Hw1') as (Ht3 & Hs3 & Hd3 & Hm3 & Hw3).
  set (r3 := scanTargets r1'') in *. clearbody r3.
  change (timers r1'') with (l ++ [(d3, CbWeaponDebug)]) in Ht3.
  change (targetScans r1'') with (targetScans r1) in Hs3.
  change (debugActivations r1'') with (debugActivations r1) in Hd3.
  change (targetManager r1'') with (targetManager r1) in Hm3.
  clear r1'' r1' Ht2 Hw1' H2.
  rewrite (fireTimer_at_end r3 _ _ _ _ Ht3). cbn [runCallback].
  set (r3' := set_timers _ r3).
  destruct (activateDebug_fields r3' Hw3) as (Ht4 & Hs4 & Hd4 & Hm4).
  set (r4 := activateDebug r3') in *. clearbody r4.
  change (timers r3') with (l ++ []) in Ht4.
  change (targetScans r3') with (targetScans r3) in Hs4.
  change (debugActivations r3') with (debugActivations r3) in Hd4.
  change (targetManager r3') with (targetManager r3) in Hm4. clear r3'.
  rewrite app_nil_r in Ht4.
  split; [exact Ht4 |]. split; [rewrite Hs4, Hs3, Hs1; reflexivity |].
  split; [rewrite Hd4, Hd3, Hd1; reflexivity |].
  rewrite Hm4, Hm3, Hm1. reflexivity.
Qed.

Lemma processGameState_with_targets (s : State) (gameState : GameState)
    (tm : TargetManager) :
  pendingGameState s = Some gameState ->
  targetManager s = Some tm ->
  isModelLoaded tm = true ->
  gs_targets gameState <> [] ->
  processGameState s =
  set_pendingGameState None
    (setTimeout CbWeaponDebug 2000
       (setTimeout CbScanForNewTargets 2000
          (setTimeout CbSecondaryScan 500
             (scanTargets
                (set_targetManager
                   (Some (fold_left createFromSnapshot (gs_targets gameState)
                            (clearAllTargets tm)))
                   (fold_left createRemotePlayer (gs_players gameState) s)))))).
Proof.
  intros Hp Htm Hl Hne. unfold processGameState. rewrite Hp, Htm, Hl.
  cbn [negb]. cbv zeta.
  destruct (gs_targets gameState); [congruence | reflexivity].
Qed.

Lemma processGameState_without_targets (s : State) (gameState : GameState)
    (tm : TargetManager) :
  pendingGameState s = Some gameState ->
  targetManager s = Some tm ->
  isModelLoaded tm = true ->
  gs_targets gameState = [] ->
  processGameState s =
  set_pendingGameState None
    (set_targetManager (Some (clearAllTargets tm))
       (fold_left createRemotePlayer (gs_players gameState) s)).
Proof.
  intros Hp Htm Hl He. unfold processGameState. rewrite Hp, Htm, Hl, He.
  reflexivity.
Qed.

(** X18. Processing a snapshot with targets makes one immediate scan for
    targets and schedules exactly three follow-ups: a scan after 500 ms, a
    scan after 2 s and one call of [weaponDebug] after 2 s. The 500 ms
    follow-up scans and schedules a console report 500 ms later, which
    changes nothing but the timer queue. Once all four have fired, in the
    order of their delays, three scans and one debug call were made and
    the timer queue is as before. A snapshot without targets makes no scan
    and schedules nothing. *)
Theorem processed_snapshot_follow_ups (s : State) (gameState : GameState) :
  pendingGameState s = Some gameState ->
  ready s = true ->
  weaponAvailable s = true ->
  (gs_targets gameState = [] ->
   timers (processGameState s) = timers s
   /\ targetScans (processGameState s) = targetScans s
   /\ debugActivations (processGameState s) = debugActivations s)
  /\ (gs_targets gameState <> [] ->
      timers (processGameState s) =
        timers s ++ [(500, CbSecondaryScan); (2000, CbScanForNewTargets);
                     (2000, CbWeaponDebug)]
      /\ targetScans (processGameState s) = S (targetScans s)
      /\ let n := length (timers s) in
         let s1 := fireTimer n (processGameState s) in
         let s2 := fireTimer (n + 2) s1 in
         let s4 := fireTimer n (fireTimer n s2) in
         (timers s1 =
            timers s ++ [(2000, CbScanForNewTargets); (2000, CbWeaponDebug);
                         (500, CbPostScanDebug)]
          /\ targetScans s1 = 2 + targetScans s
          /\ debugActivations s1 = debugActivations s)
         /\ s2 = set_timers (timers s ++ [(2000, CbScanForNewTargets);
                                          (2000, CbWeaponDebug)]) s1
         /\ timers s4 = timers s
         /\ targetScans s4 = 3 + targetScans s
         /\ debugActivations s4 = S (debugActivations s)
         /\ targetManager s4 = targetManager (processGameState s)).
Proof.
  intros Hp Hr Hw. unfold ready in Hr.
  destruct (targetManager s) as [tm |] eqn:Htm; [| discriminate].
  destruct (counters_createRemotePlayers (gs_players gameState) s)
    as (Hw' & Hts & Hda).
  pose proof (timers_createRemotePlayers (gs_players gameState) s) as Hti.
  split.
  - intros He.
    rewrite (processGameState_without_targets s gameState tm Hp Htm Hr He).
    cbn [timers targetScans debugActivations set_pendingGameState
         set_targetManager].
    repeat split; assumption.
  - intros Hne.
    rewrite (processGameState_with_targets s gameState tm Hp Htm Hr Hne).
    set (s0 := fold_left createRemotePlayer (gs_players gameState) s) in *.
    clearbody s0.
    set (s1 := set_targetManager _ s0).
    assert (Hw1 : weaponAvailable s1 = true) by (rewrite <- Hw; exact Hw').
    destruct (scanTargets_fields s1 Hw1) as (Ht2 & Hs2 & Hd2 & Hm2 & Hw2).
    set (s2 := scanTargets s1) in *. clearbody s2.
    change (timers s1) with (timers s0) in Ht2.
    change (targetScans s1) with (targetScans s0) in Hs2.
    change (debugActivations s1) with (debugActivations s0) in Hd2.
    clear s1 Hw1 Hm2.
    set (r := set_pendingGameState None _).
    assert (Hrt : timers r =
                  timers s ++ [(500, CbSecondaryScan);
                               (2000, CbScanForNewTargets);
                               (2000, CbWeaponDebug)]).
    { unfold r. cbn [timers set_pendingGameState setTimeout set_timers].
      rewrite Ht2, Hti, <- !app_assoc. reflexivity. }
    assert (Hrs : targetScans r = S (targetScans s)).
    { unfold r. cbn [targetScans set_pendingGameState setTimeout set_timers].
      rewrite Hs2, Hts. reflexivity. }
    assert (Hrd : debugActivations r = debugActivations s).
    { unfold r.
      cbn [debugActivations set_pendingGameState setTimeout set_timers].
      rewrite Hd2, Hda. reflexivity. }
    assert (Hrw : weaponAvailable r = true) by exact Hw2.
    clearbody r.
    split; [exact Hrt |]. split; [exact Hrs |].
    destruct (follow_ups_fire r (timers s) 500 2000 2000 Hrw Hrt)
      as ((Hf1 & Hf2 & Hf3) & Hf4 & Hf5 & Hf6 & Hf7 & Hf8).
    cbv zeta.
    split; [split; [exact Hf1 | split; [rewrite Hf2, Hrs; reflexivity |
                                        rewrite Hf3; exact Hrd]] |].
    split; [exact Hf4 |]. split; [exact Hf5 |].
    split; [rewrite Hf6, Hrs; reflexivity |].
    split; [rewrite Hf7, Hrd; reflexivity | exact Hf8].
Qed.

Lemma arrived_ready :
  pendingGameState arrived = Some sampleGameState
  /\ ready arrived = true /\ weaponAvailable arrived = true.
Proof. repeat split. Qed.

Lemma processed_snapshot_follow_ups_witness :
  targetScans arrived = 0
  /\ targetScans (processGameState arrived) = 1
  /\ length (timers (processGameState arrived)) = 3
  /\ timers (fireTimer 0 (processGameState arrived)) =
     [(2000, CbScanForNewTargets); (2000, CbWeaponDebug);
      (500, CbPostScanDebug)].
Proof.
  destruct arrived_ready as (Hp & Hr & Hw).
  destruct (processed_snapshot_follow_ups arrived sampleGameState Hp Hr Hw)
    as (_ & H).
  destruct H as (Ht & Hs & (Hf & _) & _); [discriminate |].
  split; [reflexivity |]. split; [exact Hs |].
  split; [rewrite Ht; reflexivity | exact Hf].
Defined.

End SnapshotProofs.

(* ===================================================================== *)
(** * Part VIII: the life cycle of bullets, colliders and remote players *)
(* ===================================================================== *)

(** ** How bullets leave the game *)

Module Removal.

Import Weapon Controls WeaponProofs WeaponInvariants.

#[local] Hint Rewrite gun_set_activeBullets gun_sceneRemove gun_setPosition
  gun_removeBulletCollider gun_onTargetHit gun_removeAfterHit
  activeBullets_sceneRemove activeBullets_setPosition
  activeBullets_set_activeBullets activeBullets_removeBulletCollider
  activeBullets_onTargetHit heap_set_activeBullets heap_sceneRemove
  bulletColliders_set_activeBullets bulletColliders_sceneRemove
  bulletColliders_removeBulletCollider
  nextId_removeBulletCollider nextId_set_activeBullets nextId_sceneRemove
  nextId_setPosition nextId_onTargetHit bulletColliders_setPosition
  bulletColliders_onTargetHit : frame.

(** ** Hits *)

Lemma scene_onTargetHit (t : ObjId) (h : Intersection) (w : State) :
  scene (onTargetHit t h w) = scene w.
Proof. unfold onTargetHit. destruct (onHit _); reflexivity. Qed.

(** A reported hit ends in [removeAfterHit], applied to a state with the
    same scene, bullets and colliders. *)
Lemma check_hit {T : THREE} (b : Bullet) (prev : Vector3) (w w' : State) :
  checkBulletColliderCollision b prev w = (w', true) ->
  exists c w2,
    bulletColliders w !! mesh b = Some c
    /\ w' = removeAfterHit b w2
    /\ activeBullets w2 = activeBullets w
    /\ bulletColliders w2 = bulletColliders w
    /\ scene w2 = scene w
    /\ nextId w2 = nextId w.
Proof.
  unfold checkBulletColliderCollision.
  destruct (bulletColliders w !! mesh b) as [bc |]; [| discriminate].
  destruct (Qeq_bool _ 0); [discriminate |].
  destruct (intersectObjects _ _ (targetColliderList w) false) as [| hit ?].
  - destruct (intersectObjects _ _ _ true) as [| hit ?]; [discriminate |].
    intros [= <-]. exists bc. eexists. split; [reflexivity |].
    split; [reflexivity |]. repeat split.
  - intros [= <-]. exists bc. eexists. split; [reflexivity |].
    split; [reflexivity |].
    destruct (parentTarget _); [| repeat split].
    destruct (isTarget _); [| repeat split].
    rewrite activeBullets_onTargetHit, bulletColliders_onTargetHit,
      scene_onTargetHit, nextId_onTargetHit.
    repeat split.
Qed.

(** X21. A reported hit removes the bullet and its collider together: the
    bullet leaves the array (and nothing else does), its entry leaves the
    collider map, and both its mesh and its collider leave the scene, in
    which every other object stays. *)
Theorem hit_removes_bullet_and_collider {T : THREE} (b : Bullet)
    (prev : Vector3) (w w' : State) (i : nat) :
  NoDup (meshes w) ->
  activeBullets w !! i = Some b ->
  checkBulletColliderCollision b prev w = (w', true) ->
  exists c,
    bulletColliders w !! mesh b = Some c
    /\ activeBullets w' = delete i (activeBullets w)
    /\ bulletColliders w' = delete (mesh b) (bulletColliders w)
    /\ inScene w' (mesh b) = false
    /\ inScene w' c = false
    /\ (forall x, x <> mesh b -> x <> c -> inScene w' x = inScene w x).
Proof.
  intros Hnd Hi Hcheck.
  destruct (check_hit b prev w w' Hcheck) as (c & w2 & Hc & -> & Ha & Hb & Hs & _).
  exists c. split; [exact Hc |].
  assert (Hidx : indexOf b (activeBullets w2) = Some i).
  { rewrite Ha. apply indexOf_NoDup; assumption. }
  split; [rewrite (activeBullets_removeAfterHit_at b w2 i Hidx), Ha; reflexivity |].
  destruct (removeAfterHit_frame b w2) as [Hcr _].
  split; [rewrite Hcr, Hb; reflexivity |].
  assert (Hscene : scene (removeAfterHit b w2) =
                   List.filter (fun x => negb (Nat.eqb x (mesh b)))
                     (List.filter (fun x => negb (Nat.eqb x c)) (scene w))).
  { unfold removeAfterHit. cbv zeta.
    assert (E : scene (sceneRemove (mesh b) (removeBulletCollider (mesh b) w2)) =
                List.filter (fun x => negb (Nat.eqb x (mesh b)))
                  (List.filter (fun x => negb (Nat.eqb x c)) (scene w))).
    { unfold removeBulletCollider. rewrite Hb, Hc. cbv zeta.
      cbn [scene sceneRemove set_scene set_bulletColliders]. rewrite Hs.
      reflexivity. }
    destruct (indexOf b (activeBullets (sceneRemove _ _))); exact E. }
  assert (Hin : forall x, inScene (removeAfterHit b w2) x = true <->
                          In x (scene w) /\ x <> c /\ x <> mesh b).
  { intros x. unfold inScene. rewrite Hscene, existsb_exists. split.
    - intros (y & Hy & E). apply Nat.eqb_eq in E. subst y.
      apply List.filter_In in Hy as [Hy H1].
      apply List.filter_In in Hy as [Hy H2].
      apply negb_true_iff, Nat.eqb_neq in H1, H2. auto.
    - intros (H0 & H1 & H2). exists x. split; [| apply Nat.eqb_refl].
      apply List.filter_In. split; [apply List.filter_In; split; [exact H0 |] |];
        apply negb_true_iff, Nat.eqb_neq; assumption. }
  split; [| split].
  - apply not_true_is_false. intros H. apply Hin in H. tauto.
  - apply not_true_is_false. intros H. apply Hin in H. tauto.
  - intros x H1 H2.
    destruct (inScene w x) eqn:E.
    + apply Hin. split; [| auto].
      unfold inScene in E. apply existsb_exists in E as (y & Hy & Ey).
      apply Nat.eqb_eq in Ey. subst y. exact Hy.
    + apply not_true_is_false. intros H. apply Hin in H as (H & _).
      assert (inScene w x = true); [| congruence].
      unfold inScene. apply existsb_exists. exists x.
      split; [exact H | apply Nat.eqb_refl].
Qed.

Lemma behindWall_NoDup : NoDup (meshes behindWall).
Proof.
  assert (E : meshes behindWall = [3]) by (vm_compute; reflexivity).
  rewrite E. apply NoDup_singleton.
Qed.

Lemma hit_removes_bullet_and_collider_witness :
  exists w',
    checkBulletColliderCollision (T := boxCaster) wallBullet vzero behindWall
    = (w', true)
    /\ activeBullets w' = []
    /\ inScene w' 3 = false
    /\ inScene w' 4 = false
    /\ inScene w' 0 = true.
Proof.
  destruct (checkBulletColliderCollision (T := boxCaster) wallBullet vzero
              behindWall) as [w' r] eqn:E.
  assert (Hr : r = true).
  { change r with (snd (w', r)). rewrite <- E. vm_compute. reflexivity. }
  subst r. exists w'. split; [reflexivity |].
  assert (Hi : activeBullets behindWall !! 0 = Some wallBullet)
    by (vm_compute; reflexivity).
  destruct (hit_removes_bullet_and_collider (T := boxCaster) wallBullet vzero
              behindWall w' 0 behindWall_NoDup Hi E)
    as (c & Hc & Ha & _ & Hm & Hcs & Hrest).
  assert (H4 : Some c = Some 4) by (rewrite <- Hc; vm_compute; reflexivity).
  injection H4 as ->.
  split; [rewrite Ha; vm_compute; reflexivity |].
  split; [exact Hm |]. split; [exact Hcs |].
  rewrite Hrest by discriminate. vm_compute. reflexivity.
Defined.

(** ** Expiry *)

Lemma scene_advance (b : Bullet) (dt : Q) (w : State) :
  scene (advance b dt w) = scene w.
Proof. unfold advance. cbv zeta. destruct (_ !! _); reflexivity. Qed.

Section Expired.

Context {T : THREE}.
Hypothesis Hcast : castsOnObjects T.

(** The scene and the collider map after one step of the loop when there
    is nothing to hit. *)
Lemma bulletStep_openSpace_scene (i : nat) (b : Bullet) (dt : Q) (w : State) :
  openSpace w ->
  scene (bulletStep i b dt w) =
    (if Qle_bool (life b - dt) 0 then
       List.filter (fun x => negb (Nat.eqb x (mesh b)))
         (match bulletColliders w !! mesh b with
          | Some c => List.filter (fun x => negb (Nat.eqb x c)) (scene w)
          | None => scene w
          end)
     else scene w)
  /\ bulletColliders (bulletStep i b dt w) =
     (if Qle_bool (life b - dt) 0 then delete (mesh b) (bulletColliders w)
      else bulletColliders w).
Proof.
  intros H. rewrite bulletStep_advance. cbv zeta.
  pose proof (openSpace_advance b dt w H) as H0.
  pose proof (scene_advance b dt w) as Hs0.
  pose proof (bulletColliders_advance b dt w) as Hc0.
  set (w0 := advance b dt w) in *. clearbody w0.
  rewrite (check_openSpace Hcast b (positionOf b w) w0 H0). cbn [fst].
  destruct (Qle_bool (life b - dt) 0).
  - split; [| autorewrite with frame; rewrite Hc0; reflexivity].
    cbn [scene set_activeBullets sceneRemove set_scene].
    unfold removeBulletCollider.
    cbn [bulletColliders set_activeBullets]. rewrite Hc0.
    destruct (bulletColliders w !! mesh b);
      cbn [scene set_activeBullets sceneRemove set_scene set_bulletColliders];
      rewrite Hs0; reflexivity.
  - split; [exact Hs0 | exact Hc0].
Qed.

Lemma bulletStep_openSpace_shrinks (i : nat) (b : Bullet) (dt : Q) (w : State) :
  openSpace w ->
  (forall x, In x (scene (bulletStep i b dt w)) -> In x (scene w))
  /\ (forall m c, bulletColliders (bulletStep i b dt w) !! m = Some c ->
                  bulletColliders w !! m = Some c).
Proof.
  intros H. destruct (bulletStep_openSpace_scene i b dt w H) as (-> & ->).
  destruct (Qle_bool (life b - dt) 0); [| auto]. split.
  - intros x Hx. apply List.filter_In in Hx as [Hx _].
    destruct (bulletColliders w !! mesh b); [| exact Hx].
    apply List.filter_In in Hx as [Hx _]. exact Hx.
  - intros m c Hl. apply lookup_delete_Some in Hl as [_ Hl]. exact Hl.
Qed.

Lemma bulletStep_openSpace_expired (i : nat) (b : Bullet) (dt : Q) (w : State)
    (c : ObjId) :
  openSpace w ->
  Qle_bool (life b - dt) 0 = true ->
  bulletColliders w !! mesh b = Some c ->
  ~ In (mesh b) (scene (bulletStep i b dt w))
  /\ ~ In c (scene (bulletStep i b dt w))
  /\ bulletColliders (bulletStep i b dt w) !! mesh b = None.
Proof.
  intros H He Hc. destruct (bulletStep_openSpace_scene i b dt w H) as (-> & ->).
  rewrite He.
  assert (Hc' : bulletColliders w !! mesh b = Some c) by exact Hc.
  destruct (bulletColliders w !! mesh b) as [c' |]; [| discriminate].
  injection Hc' as ->.
  split; [apply filter_out_not_in |]. split; [| apply lookup_delete_eq].
  intros Hin. apply List.filter_In in Hin as [Hin _].
  revert Hin. apply filter_out_not_in.
Qed.

(** The loop of [updateBullets] from index [k] down: what has expired is
    gone from the scene and from the collider map. *)
Lemma updateBulletsFrom_expired (L : list Bullet) (C : gmap ObjId ObjId)
    (dt : Q) (k : nat) (w : State) :
  k <= length L ->
  NoDup (List.map mesh L) ->
  openSpace w ->
  activeBullets w =
    take k L ++ List.filter alive (List.map (aged dt) (drop k L)) ->
  (forall j b, j < k -> L !! j = Some b ->
               bulletColliders w !! mesh b = C !! mesh b) ->
  exists w',
    updateBulletsFrom k dt w = Some w'
    /\ (forall x, In x (scene w') -> In x (scene w))
    /\ (forall m c, bulletColliders w' !! m = Some c ->
                    bulletColliders w !! m = Some c)
    /\ (forall j b c, j < k -> L !! j = Some b ->
          Qle_bool (life b - dt) 0 = true -> C !! mesh b = Some c ->
          ~ In (mesh b) (scene w') /\ ~ In c (scene w')
          /\ bulletColliders w' !! mesh b = None).
Proof.
  revert w. induction k as [| i IH]; intros w Hk Hnd Hopen Hact Hcol.
  - exists w. split; [reflexivity |]. split; [auto |]. split; [auto |].
    intros j b c Hj. lia.
  - destruct (lookup_lt_is_Some_2 L i) as [b Hb]; [lia |].
    set (F := List.filter alive (List.map (aged dt) (drop (S i) L))) in *.
    assert (Hlist : activeBullets w = take i L ++ b :: F).
    { rewrite Hact, (take_S_r L i b Hb), <- app_assoc. reflexivity. }
    assert (Hlen : length (take i L) = i) by (rewrite length_take; lia).
    assert (Hlook : activeBullets w !! i = Some b).
    { rewrite Hlist, <- Hlen at 1. rewrite list_lookup_middle; reflexivity. }
    assert (Hnd' : NoDup (List.map mesh (take i L ++ b :: F))).
    { eapply sublist_NoDup; [exact Hnd |].
      rewrite <- (take_drop i L) at 2. rewrite (drop_S L b i Hb).
      rewrite !List.map_app. apply sublist_app; [reflexivity |].
      simpl. apply sublist_skip. apply meshes_survivors. }
    simpl. rewrite Hlook.
    destruct (bulletStep_openSpace Hcast i b dt w Hopen) as (Ho1 & _ & Ha1 & _ & Hother).
    destruct (bulletStep_openSpace_shrinks i b dt w Hopen) as (Hs1 & Hc1).
    destruct (IH (bulletStep i b dt w)) as (w' & Hrun & Hs' & Hc' & Hgone);
      [lia | exact Hnd | exact Ho1 | | |].
    + assert (Hal : alive (aged dt b) = negb (Qle_bool (life b - dt) 0))
        by reflexivity.
      rewrite Ha1, Hlist, (setLife_middle _ _ _ _ Hnd').
      rewrite (drop_S L b i Hb). cbn [List.map List.filter]. rewrite Hal.
      change (mkBullet (mesh b) (velocity b) (life b - dt)) with (aged dt b).
      fold F.
      destruct (Qle_bool (life b - dt) 0); cbn [negb].
      * rewrite <- Hlen at 1. rewrite delete_middle. reflexivity.
      * reflexivity.
    + intros j b' Hj Hb'. rewrite Hother.
      * apply (Hcol j b'); [lia | exact Hb'].
      * intros Heq. pose proof (lookup_mesh_inj L j i b' b Hnd Hb' Hb Heq). lia.
    + exists w'. split; [exact Hrun |]. split; [auto |]. split; [auto |].
      intros j b' c Hj Hb' He HC.
      destruct (decide (j = i)) as [-> | Hne].
      * assert (b' = b) as -> by congruence.
        assert (Hcb : bulletColliders w !! mesh b = Some c).
        { rewrite (Hcol i b); [exact HC | lia | exact Hb]. }
        destruct (bulletStep_openSpace_expired i b dt w c Hopen He Hcb)
          as (G1 & G2 & G3).
        split; [intros Hin; apply G1, Hs', Hin |].
        split; [intros Hin; apply G2, Hs', Hin |].
        destruct (bulletColliders w' !! mesh b) as [c' |] eqn:E; [| reflexivity].
        apply Hc' in E. congruence.
      * apply (Hgone j b' c); [lia | assumption ..].
Qed.

(** X22. When there is nothing to hit, a bullet whose life runs out in
    this frame leaves the scene together with its collider, and its entry
    leaves the collider map; the scene and the map only ever shrink. *)
Theorem expired_bullets_leave_with_their_colliders (dt : Q) (w : State) :
  openSpace w ->
  NoDup (meshes w) ->
  exists w',
    updateBullets dt w = Some w'
    /\ (forall b c, In b (activeBullets w) ->
          Qle_bool (life b - dt) 0 = true ->
          bulletColliders w !! mesh b = Some c ->
          inScene w' (mesh b) = false
          /\ inScene w' c = false
          /\ bulletColliders w' !! mesh b = None)
    /\ (forall x, inScene w' x = true -> inScene w x = true).
Proof.
  intros Hopen Hnd.
  destruct (updateBulletsFrom_expired (activeBullets w) (bulletColliders w) dt
              (length (activeBullets w)) w) as (w' & Hrun & Hs & _ & Hgone);
    [reflexivity | exact Hnd | exact Hopen | | reflexivity |].
  - rewrite take_ge, drop_ge by reflexivity. simpl. symmetry. apply app_nil_r.
  - assert (Hin : forall w0 x, inScene w0 x = true <-> In x (scene w0)).
    { intros w0 x. unfold inScene. rewrite existsb_exists. split.
      - intros (y & Hy & E). apply Nat.eqb_eq in E. subst y. exact Hy.
      - intros H. exists x. split; [exact H | apply Nat.eqb_refl]. }
    exists w'. split; [exact Hrun |]. split.
    + intros b c Hb He Hc.
      apply list_elem_of_In, list_elem_of_lookup_1 in Hb as [j Hj].
      destruct (Hgone j b c) as (G1 & G2 & G3);
        [apply lookup_lt_Some in Hj; exact Hj | assumption ..|].
      split; [apply not_true_is_false; intros H; apply G1, Hin, H |].
      split; [apply not_true_is_false; intros H; apply G2, Hin, H | exact G3].
    + intros x Hx. apply Hin, Hs, Hin, Hx.
Qed.

End Expired.

Lemma expired_bullets_leave_with_their_colliders_witness :
  inScene (fireOnce (fireOnce loaded)) 2 = true
  /\ inScene (fireOnce (fireOnce loaded)) 3 = true
  /\ exists w',
       updateBullets (T := boxCaster) 3 (fireOnce (fireOnce loaded)) = Some w'
       /\ inScene w' 2 = false
       /\ inScene w' 3 = false
       /\ bulletColliders w' !! 2 = None.
Proof.
  split; [vm_compute; reflexivity |]. split; [vm_compute; reflexivity |].
  destruct (expired_bullets_leave_with_their_colliders (T := boxCaster)
              boxCaster_castsOnObjects 3 (fireOnce (fireOnce loaded))
              twoShots_openSpace twoShots_NoDup) as (w' & Hrun & Hgone & _).
  exists w'. split; [exact Hrun |].
  apply (Hgone (mkBullet 2 (multiplyScalar (mkVector3 1 0 0) bulletSpeed)
                  bulletLifetime) 3).
  - vm_compute. right. left. reflexivity.
  - vm_compute. reflexivity.
  - vm_compute. reflexivity.
Defined.

End Removal.


(** ** Targets keep their colliders *)

Module Tracking.

Import Weapon Controls WeaponProofs WeaponInvariants.

Lemma standing_frame (t : ObjId) (w w' : State) :
  isTarget (getObj w' t) = isTarget (getObj w t) ->
  inScene w' t = inScene w t ->
  nextId w <= nextId w' ->
  (~ In t (meshes w) -> ~ In t (meshes w')) ->
  ((forall m c, bulletColliders w !! m = Some c -> c <> t) ->
   forall m c, bulletColliders w' !! m = Some c -> c <> t) ->
  ((forall e, In e (targetColliders w) -> snd e <> t) ->
   forall e, In e (targetColliders w') -> snd e <> t) ->
  standing t w -> standing t w'.
Proof.
  intros Ht Hs Hn Hm Hb Hc (H1 & H2 & H3 & H4 & H5 & H6).
  unfold standing. rewrite Ht, Hs.
  split; [exact H1 |]. split; [exact H2 |]. split; [lia |].
  split; [apply Hm, H4 |]. split; [apply Hb, H5 | apply Hc, H6].
Qed.

Lemma standing_setPosition (t id : ObjId) (p : Vector3) (w : State) :
  standing t w -> standing t (setPosition id p w).
Proof.
  apply standing_frame; try reflexivity; auto.
  apply (flags_setPosition id p w t).
Qed.

Lemma standing_sceneRemove (t id : ObjId) (w : State) :
  id <> t -> standing t w -> standing t (sceneRemove id w).
Proof.
  intros Hne. apply standing_frame; try reflexivity; auto.
  apply inScene_sceneRemove_ne, Hne.
Qed.

Lemma standing_set_activeBullets (t : ObjId) (l : list Bullet) (w : State) :
  (forall x, In x (List.map mesh l) -> In x (meshes w)) ->
  standing t w -> standing t (set_activeBullets l w).
Proof.
  intros Hl. apply standing_frame; try reflexivity; auto.
Qed.

Lemma standing_removeBulletCollider (t m : ObjId) (w : State) :
  standing t w -> standing t (removeBulletCollider m w).
Proof.
  intros Hw. unfold removeBulletCollider.
  destruct (bulletColliders w !! m) as [c |] eqn:E; [| exact Hw].
  cbv zeta.
  assert (Hne : c <> t) by (destruct Hw as (_ & _ & _ & _ & H5 & _); eauto).
  pose proof (standing_sceneRemove t c w Hne Hw) as H1.
  revert H1. apply standing_frame; try reflexivity; auto.
  intros H m' c' Hl. cbn [bulletColliders set_bulletColliders] in Hl.
  apply lookup_delete_Some in Hl as [_ Hl]. eauto.
Qed.

Lemma standing_onTargetHit (t k : ObjId) (h : Intersection) (w : State) :
  standing t w -> standing t (onTargetHit k h w).
Proof.
  intros Hw. unfold onTargetHit. destruct (onHit _); exact Hw.
Qed.

Lemma standing_removeAfterHit (t : ObjId) (b : Bullet) (w : State) :
  mesh b <> t -> standing t w -> standing t (removeAfterHit b w).
Proof.
  intros Hne Hw. unfold removeAfterHit. cbv zeta.
  pose proof (standing_sceneRemove t (mesh b) _ Hne
                (standing_removeBulletCollider t (mesh b) w Hw)) as H1.
  set (w1 := sceneRemove (mesh b) (removeBulletCollider (mesh b) w)) in *.
  clearbody w1.
  destruct (indexOf b (activeBullets w1)) as [i |]; [| exact H1].
  apply standing_set_activeBullets; [| exact H1].
  intros x Hx. eapply sublist_In; [| exact Hx].
  apply sublist_map, sublist_delete.
Qed.

Section Flight.

Context {T : THREE}.

Lemma standing_check (t : ObjId) (b : Bullet) (prev : Vector3) (w : State) :
  mesh b <> t -> standing t w ->
  standing t (fst (checkBulletColliderCollision b prev w)).
Proof.
  intros Hne Hw. unfold checkBulletColliderCollision.
  destruct (bulletColliders w !! mesh b) as [bc |]; [| exact Hw].
  destruct (Qeq_bool _ 0); [exact Hw |].
  assert (Hsnap : forall hit, standing t (snapToHit b bc hit w)).
  { intros hit. unfold snapToHit. cbv zeta.
    apply standing_setPosition, standing_setPosition, Hw. }
  destruct (intersectObjects _ _ (targetColliderList w) false) as [| hit ?].
  - destruct (intersectObjects _ _ _ true) as [| hit ?]; [exact Hw |].
    cbn [fst]. apply standing_removeAfterHit; [exact Hne | apply Hsnap].
  - cbn [fst]. apply standing_removeAfterHit; [exact Hne |].
    destruct (parentTarget _); [| apply Hsnap].
    destruct (isTarget _); [| apply Hsnap].
    apply standing_onTargetHit, Hsnap.
Qed.

Lemma registry_removeBulletCollider (m : ObjId) (w : State) :
  registry (removeBulletCollider m w) = registry w.
Proof. unfold removeBulletCollider. destruct (_ !! _); reflexivity. Qed.

Lemma registry_set_activeBullets (l : list Bullet) (w : State) :
  registry (set_activeBullets l w) = registry w.
Proof. reflexivity. Qed.

Lemma registry_sceneRemove (id : ObjId) (w : State) :
  registry (sceneRemove id w) = registry w.
Proof. reflexivity. Qed.

Lemma registry_setPosition (id : ObjId) (p : Vector3) (w : State) :
  registry (setPosition id p w) = registry w.
Proof. reflexivity. Qed.

Lemma registry_emit (e : Event) (w : State) : registry (emit e w) = registry w.
Proof. reflexivity. Qed.

Lemma registry_set_ammo (m n : Z) (w : State) :
  registry (set_ammo m n w) = registry w.
Proof. reflexivity. Qed.

Lemma registry_set_shootTimer (q : Q) (w : State) :
  registry (set_shootTimer q w) = registry w.
Proof. reflexivity. Qed.

Lemma registry_set_isShooting (b : bool) (w : State) :
  registry (set_isShooting b w) = registry w.
Proof. reflexivity. Qed.

Lemma registry_onTargetHit (t : ObjId) (h : Intersection) (w : State) :
  registry (onTargetHit t h w) = registry w.
Proof. unfold onTargetHit. destruct (onHit _); reflexivity. Qed.

Create Rewrite HintDb registry.

#[local] Hint Rewrite registry_removeBulletCollider registry_set_activeBullets
  registry_sceneRemove registry_setPosition registry_emit registry_set_ammo
  registry_set_shootTimer registry_set_isShooting registry_onTargetHit
  : registry.

Lemma registry_removeAfterHit (b : Bullet) (w : State) :
  registry (removeAfterHit b w) = registry w.
Proof.
  unfold removeAfterHit. cbv zeta.
  destruct (indexOf _ _); autorewrite with registry; reflexivity.
Qed.

Lemma registry_check (b : Bullet) (prev : Vector3) (w : State) :
  registry (fst (checkBulletColliderCollision b prev w)) = registry w.
Proof.
  unfold checkBulletColliderCollision.
  destruct (bulletColliders w !! mesh b) as [bc |]; [| reflexivity].
  destruct (Qeq_bool _ 0); [reflexivity |].
  destruct (intersectObjects _ _ (targetColliderList w) false) as [| hit ?].
  - destruct (intersectObjects _ _ _ true) as [| hit ?]; [reflexivity |].
    cbn [fst]. rewrite registry_removeAfterHit. unfold snapToHit.
    autorewrite with registry. reflexivity.
  - cbn [fst]. rewrite registry_removeAfterHit.
    destruct (parentTarget _); [destruct (isTarget _) |]; unfold snapToHit;
      autorewrite with registry; reflexivity.
Qed.

Lemma registry_advance (b : Bullet) (dt : Q) (w : State) :
  registry (advance b dt w) = registry w.
Proof. unfold advance. cbv zeta. destruct (_ !! _); reflexivity. Qed.

Lemma registry_bulletStep (i : nat) (b : Bullet) (dt : Q) (w : State) :
  registry (bulletStep i b dt w) = registry w.
Proof.
  rewrite bulletStep_advance. cbv zeta.
  destruct (Qle_bool (life b - dt) 0); autorewrite with registry;
    rewrite registry_check; apply registry_advance.
Qed.

Lemma standing_bulletStep (t : ObjId) (i : nat) (b : Bullet) (dt : Q)
    (w : State) :
  activeBullets w !! i = Some b ->
  standing t w -> standing t (bulletStep i b dt w).
Proof.
  intros Hi Hw.
  assert (Hne : mesh b <> t).
  { intros <-. destruct Hw as (_ & _ & _ & H4 & _). apply H4.
    unfold meshes. apply in_map. apply list_elem_of_In.
    eapply list_elem_of_lookup_2. exact Hi. }
  rewrite bulletStep_advance. cbv zeta.
  assert (H0 : standing t (advance b dt w)).
  { unfold advance. cbv zeta.
    destruct (bulletColliders _ !! mesh b);
      [apply standing_setPosition |]; apply standing_setPosition, Hw. }
  set (w0 := advance b dt w) in *. clearbody w0.
  pose proof (standing_check t b (positionOf b w) w0 Hne H0) as H1.
  set (w1 := fst (checkBulletColliderCollision b (positionOf b w) w0)) in *.
  clearbody w1.
  assert (H2 : standing t
                 (set_activeBullets
                    (setLife (mesh b) (life b - dt) (activeBullets w1)) w1)).
  { apply standing_set_activeBullets; [| exact H1].
    intros x. rewrite map_mesh_setLife. auto. }
  set (w2 := set_activeBullets _ w1) in *. clearbody w2.
  destruct (Qle_bool (life b - dt) 0); [| exact H2].
  pose proof (standing_sceneRemove t (mesh b) _ Hne
                (standing_removeBulletCollider t (mesh b) w2 H2)) as H3.
  set (w3 := sceneRemove (mesh b) (removeBulletCollider (mesh b) w2)) in *.
  clearbody w3.
  apply standing_set_activeBullets; [| exact H3].
  intros x Hx. eapply sublist_In; [| exact Hx].
  apply sublist_map, sublist_delete.
Qed.

Lemma standing_updateBulletsFrom (t : ObjId) (k : nat) (dt : Q) (w w' : State) :
  standing t w -> updateBulletsFrom k dt w = Some w' ->
  standing t w' /\ registry w' = registry w.
Proof.
  revert w. induction k as [| i IH]; intros w Hw Hrun; simpl in Hrun.
  - injection Hrun as <-. auto.
  - destruct (activeBullets w !! i) as [b |] eqn:Hb; [| discriminate].
    destruct (IH _ (standing_bulletStep t i b dt w Hb Hw) Hrun) as (H1 & H2).
    split; [exact H1 |]. rewrite H2. apply registry_bulletStep.
Qed.

End Flight.

(** ** The registry *)

Lemma inScene_In (w : State) (id : ObjId) :
  inScene w id = true <-> In id (scene w).
Proof.
  unfold inScene. rewrite existsb_exists. split.
  - intros (x & Hx & E). apply Nat.eqb_eq in E. subst x. exact Hx.
  - intros H. exists id. split; [exact H | apply Nat.eqb_refl].
Qed.

(** A new object put into the scene. *)
Lemma standing_spawn (t : ObjId) (o : Object3D) (w : State) :
  standing t w -> standing t (sceneAdd (nextId w) (snd (alloc o w))).
Proof.
  intros (H1 & H2 & H3 & H4 & H5 & H6). unfold standing.
  split; [| split; [| split; [| auto]]].
  - unfold getObj, sceneAdd, alloc. cbn [snd heap set_scene set_nextId set_heap].
    rewrite lookup_total_insert_ne by lia. exact H1.
  - apply inScene_In. apply inScene_In in H2.
    unfold sceneAdd, alloc. cbn [snd scene set_scene set_nextId set_heap].
    apply in_or_app. left. apply List.filter_In. split; [exact H2 |].
    apply negb_true_iff, Nat.eqb_neq. lia.
  - unfold sceneAdd, alloc. cbn [snd nextId set_scene set_nextId set_heap]. lia.
Qed.

Lemma nextId_spawn (o : Object3D) (w : State) :
  nextId (sceneAdd (nextId w) (snd (alloc o w))) = S (nextId w).
Proof. reflexivity. Qed.

Lemma mapHas_mapSet (k v x : ObjId) (m : list (ObjId * ObjId)) :
  mapHas x (mapSet k v m) = mapHas x m || Nat.eqb k x.
Proof.
  unfold mapSet. destruct (mapHas k m) eqn:Hk.
  - assert (E : mapHas x
                  (List.map (fun e : ObjId * ObjId =>
                               if Nat.eqb (fst e) k then (k, v) else e) m)
                = mapHas x m).
    { unfold mapHas. clear Hk.
      induction m as [| [a b] m IH]; simpl; [reflexivity |].
      rewrite IH. destruct (Nat.eqb a k) eqn:Ea; simpl; [| reflexivity].
      apply Nat.eqb_eq in Ea. subst a. reflexivity. }
    transitivity (mapHas x m); [exact E |].
    destruct (Nat.eqb k x) eqn:Ex.
    + apply Nat.eqb_eq in Ex. subst x. rewrite Hk. reflexivity.
    + rewrite orb_false_r. reflexivity.
  - rewrite mapHas_app. simpl. rewrite orb_false_r. reflexivity.
Qed.

Lemma In_mapSet (k v : ObjId) (m : list (ObjId * ObjId)) (e : ObjId * ObjId) :
  In e (mapSet k v m) -> In e m \/ e = (k, v).
Proof.
  unfold mapSet. destruct (mapHas k m).
  - intros H. apply in_map_iff in H as (e' & He & Hin).
    revert He. destruct (Nat.eqb _ _); intros <-; auto.
  - intros H. apply in_app_or in H as [H | [H | []]]; auto.
Qed.

Lemma createTargetCollider_spawn (k : ObjId) (size : Vector3) (w : State) :
  exists o,
    createTargetCollider k size w =
    set_targetColliders (mapSet k (nextId w) (targetColliders w))
      (sceneAdd (nextId w) (snd (alloc o w))).
Proof. eexists. reflexivity. Qed.

Lemma standing_createTargetCollider (t k : ObjId) (size : Vector3) (w : State) :
  standing t w -> standing t (createTargetCollider k size w).
Proof.
  intros Hw. destruct (createTargetCollider_spawn k size w) as (o & ->).
  pose proof (standing_spawn t o w Hw) as H1.
  revert H1. apply standing_frame; try reflexivity; auto.
  intros H e He. cbn [targetColliders set_targetColliders] in He.
  apply In_mapSet in He as [He | ->].
  - apply H. exact He.
  - cbn [snd]. destruct Hw as (_ & _ & Hlt & _). lia.
Qed.

Lemma registry_createTargetCollider (k : ObjId) (size : Vector3) (w : State) :
  registry (createTargetCollider k size w) =
  (mapSet k (nextId w) (targetColliders w), scanCounter w, isLoaded w).
Proof. reflexivity. Qed.

(** One visit of the scan keeps the target standing, keeps its collider,
    and gives it one when it is the object visited. *)
Lemma standing_scanVisit (t x : ObjId) (w : State) :
  standing t w ->
  standing t (scanVisit w x)
  /\ (mapHas t (targetColliders w) = true \/ x = t ->
      mapHas t (targetColliders (scanVisit w x)) = true)
  /\ isLoaded (scanVisit w x) = isLoaded w
  /\ scanCounter (scanVisit w x) = scanCounter w.
Proof.
  intros Hw. unfold scanVisit.
  destruct (isTarget (getObj w x)) eqn:Ht.
  - destruct (mapHas x (targetColliders w)) eqn:Hm.
    + split; [exact Hw |]. split; [| split; reflexivity].
      intros [H | ->]; assumption.
    + split; [apply standing_createTargetCollider, Hw |].
      split; [| split; reflexivity].
      intros H.
      change (targetColliders (createTargetCollider x (mkVector3 2 2 4) w))
        with (mapSet x (nextId w) (targetColliders w)).
      rewrite mapHas_mapSet. destruct H as [-> | ->]; [reflexivity |].
      rewrite Nat.eqb_refl. apply orb_true_r.
  - split; [exact Hw |]. split; [| split; reflexivity].
    intros [H | ->]; [exact H |].
    destruct Hw as (H1 & _). congruence.
Qed.

Lemma standing_scan_fold (t : ObjId) (l : list ObjId) (w : State) :
  standing t w ->
  standing t (fold_left scanVisit l w)
  /\ (mapHas t (targetColliders w) = true \/ In t l ->
      mapHas t (targetColliders (fold_left scanVisit l w)) = true)
  /\ isLoaded (fold_left scanVisit l w) = isLoaded w
  /\ scanCounter (fold_left scanVisit l w) = scanCounter w.
Proof.
  revert w. induction l as [| x l IH]; intros w Hw; simpl.
  - split; [exact Hw |]. split; [| split; reflexivity].
    intros [H | []]. exact H.
  - destruct (standing_scanVisit t x w Hw) as (H1 & H2 & H3 & H4).
    destruct (IH _ H1) as (H5 & H6 & H7 & H8).
    split; [exact H5 |]. split; [| split; congruence].
    intros [H | [-> | H]]; apply H6; auto.
Qed.

Lemma standing_scanForNewTargets (t : ObjId) (w : State) :
  standing t w ->
  standing t (scanForNewTargets w)
  /\ mapHas t (targetColliders (scanForNewTargets w)) = true
  /\ isLoaded (scanForNewTargets w) = isLoaded w
  /\ scanCounter (scanForNewTargets w) = scanCounter w.
Proof.
  intros Hw. rewrite scanForNewTargets_fold.
  destruct (standing_scan_fold t (scene w) w Hw) as (H1 & H2 & H3 & H4).
  split; [exact H1 |]. split; [| split; assumption].
  apply H2. right. apply inScene_In. apply Hw.
Qed.

Lemma mapHas_mapDelete_ne (k t : ObjId) (m : list (ObjId * ObjId)) :
  k <> t -> mapHas t (mapDelete k m) = mapHas t m.
Proof.
  intros Hne. unfold mapHas, mapDelete.
  induction m as [| [a b] m IH]; simpl; [reflexivity |].
  destruct (Nat.eqb a k) eqn:Ea; simpl.
  - apply Nat.eqb_eq in Ea. subst a.
    assert (Nat.eqb k t = false) as -> by (apply Nat.eqb_neq; exact Hne).
    exact IH.
  - rewrite IH. reflexivity.
Qed.

Lemma standing_removeTargetCollider (t k : ObjId) (w : State) :
  standing t w -> standing t (removeTargetCollider k w).
Proof.
  intros Hw. unfold removeTargetCollider.
  destruct (mapGet k (targetColliders w)) as [c |] eqn:E; [| exact Hw].
  cbv zeta.
  assert (Hne : c <> t).
  { destruct Hw as (_ & _ & _ & _ & _ & H6).
    exact (H6 (k, c) (mapGet_In k c _ E)). }
  pose proof (standing_sceneRemove t c w Hne Hw) as H1.
  revert H1. apply standing_frame; try reflexivity; auto.
  intros H e He. cbn [targetColliders set_targetColliders sceneRemove set_scene] in He.
  apply List.filter_In in He as [He _]. apply H, He.
Qed.

Lemma registry_removeTargetCollider (k : ObjId) (w : State) :
  registry (removeTargetCollider k w) =
  (mapDelete k (targetColliders w), scanCounter w, isLoaded w).
Proof.
  unfold registry.
  destruct (removeTargetCollider_spec k w) as (-> & _).
  unfold removeTargetCollider. destruct (mapGet _ _); reflexivity.
Qed.

(** One visit of [updateTargetColliders]. *)
Lemma standing_followVisit (t : ObjId) (e : ObjId * ObjId) (w : State) :
  standing t w ->
  standing t (followVisit w e)
  /\ (mapHas t (targetColliders w) = true ->
      mapHas t (targetColliders (followVisit w e)) = true)
  /\ isLoaded (followVisit w e) = isLoaded w
  /\ scanCounter (followVisit w e) = scanCounter w.
Proof.
  intros Hw. destruct e as [k c]. unfold followVisit.
  destruct (inScene w k) eqn:Hk.
  - cbv zeta. split; [apply standing_setPosition, Hw |].
    split; [auto | split; reflexivity].
  - split; [apply standing_removeTargetCollider, Hw |].
    pose proof (registry_removeTargetCollider k w) as Hr.
    injection Hr as -> -> ->.
    split; [| split; reflexivity].
    intros H. rewrite mapHas_mapDelete_ne; [exact H |].
    intros ->. destruct Hw as (_ & H2 & _). congruence.
Qed.

Lemma standing_updateTargetColliders (t : ObjId) (w : State) :
  standing t w ->
  standing t (updateTargetColliders w)
  /\ (mapHas t (targetColliders w) = true ->
      mapHas t (targetColliders (updateTargetColliders w)) = true)
  /\ isLoaded (updateTargetColliders w) = isLoaded w
  /\ scanCounter (updateTargetColliders w) = scanCounter w.
Proof.
  rewrite updateTargetColliders_fold.
  generalize (targetColliders w) at 1 3 4 5 as l.
  intros l. revert w. induction l as [| e l IH]; intros w Hw; simpl.
  - auto.
  - destruct (standing_followVisit t e w Hw) as (H1 & H2 & H3 & H4).
    destruct (IH _ H1) as (H5 & H6 & H7 & H8).
    split; [exact H5 |]. split; [auto |]. split; congruence.
Qed.

(** ** Shooting *)

Lemma createBulletCollider_spawn (m : ObjId) (w : State) :
  exists o,
    createBulletCollider m w =
    set_bulletColliders (<[m := nextId w]> (bulletColliders w))
      (sceneAdd (nextId w) (snd (alloc o w))).
Proof. eexists. reflexivity. Qed.

Lemma standing_createBulletCollider (t m : ObjId) (w : State) :
  standing t w -> standing t (createBulletCollider m w).
Proof.
  intros Hw. destruct (createBulletCollider_spawn m w) as (o & ->).
  pose proof (standing_spawn t o w Hw) as H1.
  revert H1. apply standing_frame; try reflexivity; auto.
  intros H m' c Hl. cbn [bulletColliders set_bulletColliders] in Hl.
  apply lookup_insert_Some in Hl as [[_ <-] | [_ Hl]].
  - destruct Hw as (_ & _ & Hlt & _). lia.
  - exact (H m' c Hl).
Qed.

Lemma createBulletTrail_steps (startPos direction : Vector3) (w : State) :
  exists o,
    createBulletTrail startPos direction w =
    let w1 := sceneAdd (nextId w) (snd (alloc o w)) in
    let w2 := createBulletCollider (nextId w) w1 in
    let w3 := set_activeBullets (activeBullets w2 ++ [newBullet direction w]) w2 in
    if (maxBulletTrails <? length (activeBullets w3))%nat then
      match activeBullets w3 with
      | oldBullet :: rest => sceneRemove (mesh oldBullet) (set_activeBullets rest w3)
      | [] => w3
      end
    else w3.
Proof. eexists. reflexivity. Qed.

Lemma standing_createBulletTrail (t : ObjId) (startPos direction : Vector3)
    (w : State) :
  standing t w -> standing t (createBulletTrail startPos direction w).
Proof.
  intros Hw. destruct (createBulletTrail_steps startPos direction w) as (o & ->).
  cbv zeta.
  pose proof (standing_createBulletCollider t (nextId w) _
                (standing_spawn t o w Hw)) as H2.
  set (w2 := createBulletCollider (nextId w) _) in *. clearbody w2.
  assert (H3 : standing t
                 (set_activeBullets
                    (activeBullets w2 ++ [newBullet direction w]) w2)).
  { revert H2. apply standing_frame; try reflexivity; auto.
    intros H Hin. unfold meshes in Hin.
    cbn [activeBullets set_activeBullets] in Hin.
    rewrite List.map_app in Hin. apply in_app_or in Hin as [Hin | [Hin | []]].
    - exact (H Hin).
    - cbn [mesh newBullet] in Hin. destruct Hw as (_ & _ & Hlt & _). lia. }
  set (w3 := set_activeBullets _ w2) in *. clearbody w3.
  destruct (maxBulletTrails <? _)%nat; [| exact H3].
  destruct (activeBullets w3) as [| old rest] eqn:E; [exact H3 |].
  apply standing_sceneRemove.
  - intros Heq. destruct H3 as (_ & _ & _ & H4 & _). apply H4.
    unfold meshes. rewrite E. left. exact Heq.
  - apply standing_set_activeBullets; [| exact H3].
    intros x Hx. unfold meshes. rewrite E. right. exact Hx.
Qed.

Lemma registry_createBulletTrail (startPos direction : Vector3) (w : State) :
  registry (createBulletTrail startPos direction w) = registry w.
Proof.
  unfold createBulletTrail, createBulletCollider, alloc, sceneAdd. cbv zeta.
  cbn [activeBullets set_activeBullets set_bulletColliders set_scene
       set_nextId set_heap].
  destruct (maxBulletTrails <? _)%nat; [| reflexivity].
  destruct (activeBullets w ++ _); reflexivity.
Qed.

Lemma standing_emit (t : ObjId) (e : Event) (w : State) :
  standing t w -> standing t (emit e w).
Proof. apply standing_frame; try reflexivity; auto. Qed.

Lemma standing_set_ammo (t : ObjId) (m n : Z) (w : State) :
  standing t w -> standing t (set_ammo m n w).
Proof. apply standing_frame; try reflexivity; auto. Qed.

Lemma standing_set_shootTimer (t : ObjId) (q : Q) (w : State) :
  standing t w -> standing t (set_shootTimer q w).
Proof. apply standing_frame; try reflexivity; auto. Qed.

Lemma standing_set_isShooting (t : ObjId) (b : bool) (w : State) :
  standing t w -> standing t (set_isShooting b w).
Proof. apply standing_frame; try reflexivity; auto. Qed.

Lemma standing_set_scanCounter (t : ObjId) (n : nat) (w : State) :
  standing t w -> standing t (set_scanCounter n w).
Proof. apply standing_frame; try reflexivity; auto. Qed.

Lemma standing_reload (t : ObjId) (w : State) :
  standing t w -> standing t (reload w).
Proof.
  intros Hw. unfold reload. destruct (_ || _); [exact Hw |]. cbv zeta.
  destruct (onAmmoChange _); [apply standing_emit |];
    apply standing_set_ammo, Hw.
Qed.

Lemma registry_reload (w : State) : registry (reload w) = registry w.
Proof.
  unfold reload. destruct (_ || _); [reflexivity |]. cbv zeta.
  destruct (onAmmoChange _); reflexivity.
Qed.

Lemma standing_shoot {T : THREE} (t : ObjId) (aim : Aim) (w : State) :
  standing t w -> standing t (fst (shoot aim w)).
Proof.
  intros Hw. unfold shoot. destruct (_ <=? 0)%Z; cbv zeta; cbn [fst].
  - apply standing_reload, Hw.
  - destruct (onAmmoChange _); [apply standing_emit |];
      apply standing_createBulletTrail, standing_set_ammo, Hw.
Qed.

Lemma registry_shoot {T : THREE} (aim : Aim) (w : State) :
  registry (fst (shoot aim w)) = registry w.
Proof.
  unfold shoot. destruct (_ <=? 0)%Z; cbv zeta; cbn [fst].
  - apply registry_reload.
  - destruct (onAmmoChange _); rewrite ?registry_emit;
      rewrite registry_createBulletTrail; apply registry_set_ammo.
Qed.

(** One frame. *)
Lemma standing_update {T : THREE} (t : ObjId) (aim : Aim) (dt : Q)
    (w w' : State) :
  standing t w -> update aim dt w = Some w' ->
  standing t w'
  /\ isLoaded w' = isLoaded w
  /\ (mapHas t (targetColliders w) = true ->
      mapHas t (targetColliders w') = true)
  /\ (isLoaded w = true ->
      scanCounter w' = S (scanCounter w)
      /\ (S (scanCounter w) mod 60 = 0 ->
          mapHas t (targetColliders w') = true)).
Proof.
  intros Hw. unfold update. destruct (isLoaded w) eqn:Hl; cbn [negb].
  2:{ intros [= <-]. split; [exact Hw |]. split; [exact Hl |].
      split; [auto | discriminate]. }
  cbv zeta.
  set (w0 := if (_ =? 0)%nat then _ else _).
  assert (H0 : standing t w0
               /\ isLoaded w0 = true
               /\ scanCounter w0 = S (scanCounter w)
               /\ (mapHas t (targetColliders w) = true ->
                   mapHas t (targetColliders w0) = true)
               /\ (S (scanCounter w) mod 60 = 0 ->
                   mapHas t (targetColliders w0) = true)).
  { subst w0. cbn [scanCounter set_scanCounter].
    destruct (S (scanCounter w) mod 60 =? 0)%nat eqn:E.
    - destruct (standing_scanForNewTargets t
                  (set_scanCounter (S (scanCounter w)) w)
                  (standing_set_scanCounter t _ w Hw))
        as (H1 & H2 & H3 & H4).
      split; [exact H1 |]. split; [rewrite H3; exact Hl |].
      split; [rewrite H4; reflexivity |]. auto.
    - split; [apply standing_set_scanCounter, Hw |].
      split; [exact Hl |]. split; [reflexivity |].
      split; [auto |]. apply Nat.eqb_neq in E. intros H. contradiction. }
  clearbody w0. destruct H0 as (Hs0 & Hl0 & Hc0 & Hk0 & Hn0).
  destruct (updateBullets dt w0) as [w1 |] eqn:Hub; [| discriminate].
  destruct (standing_updateBulletsFrom t _ dt w0 w1 Hs0 Hub) as (Hs1 & Hr1).
  injection Hr1 as Ht1 Hc1 Hl1.
  destruct (standing_updateTargetColliders t w1 Hs1) as (Hs2 & Hk2 & Hl2 & Hc2).
  rewrite Ht1 in Hk2.
  set (w2 := updateTargetColliders w1) in *. clearbody w2.
  intros [= <-].
  assert (Hx : forall x : State,
             standing t x /\ registry x = registry w2 ->
             standing t (if negb (Qle_bool (shootTimer x) 0)
                         then set_shootTimer (shootTimer x - dt)%Q x else x)
             /\ registry (if negb (Qle_bool (shootTimer x) 0)
                          then set_shootTimer (shootTimer x - dt)%Q x else x)
                = registry w2).
  { intros x (Ha & Hb).
    destruct (negb _); [| auto].
    split; [apply standing_set_shootTimer, Ha |].
    rewrite registry_set_shootTimer. exact Hb. }
  match goal with
  | |- context [if negb (Qle_bool (shootTimer ?x) 0) then _ else ?x] =>
      assert (Hy : standing t x /\ registry x = registry w2);
      [| destruct (Hx x Hy) as (Ha & Hb)]
  end.
  { destruct (isShooting w2 && _); [| auto].
    pose proof (standing_shoot t aim w2 Hs2) as Ha.
    pose proof (registry_shoot aim w2) as Hb.
    destruct (shoot aim w2) as [w3 [|]]; cbn [fst] in *; [| auto].
    split; [apply standing_set_shootTimer, Ha |].
    rewrite registry_set_shootTimer. exact Hb. }
  injection Hb as Hb1 Hb2 Hb3.
  split; [exact Ha |]. split; [congruence |].
  rewrite Hb1. split; [auto |].
  intros _. split; [congruence | auto].
Qed.

Lemma standing_dispatch (t : ObjId) (e : DomEvent) (w : State) :
  (standing t w -> standing t (dispatch e w))
  /\ registry (dispatch e w) = registry w.
Proof.
  destruct e as [button | button | code]; simpl.
  - destruct (button =? 0)%Z; [| auto].
    unfold startShooting. destruct (negb _); [auto |].
    split; [| reflexivity].
    intros Hw. apply standing_set_shootTimer, standing_set_isShooting, Hw.
  - destruct (button =? 0)%Z; [| auto].
    split; [| reflexivity].
    intros Hw. apply standing_set_isShooting, Hw.
  - destruct (String.eqb _ _); [| auto].
    split; [apply standing_reload | apply registry_reload].
Qed.

Lemma frames_until_scan (c : nat) :
  (S c mod 60 = 0 /\ 60 - c mod 60 = 1)
  \/ (S c mod 60 <> 0 /\ 60 - c mod 60 = S (60 - S c mod 60)).
Proof.
  pose proof (Nat.div_mod_eq c 60) as E.
  pose proof (Nat.mod_upper_bound c 60 ltac:(lia)) as B.
  destruct (decide (c mod 60 = 59)) as [H | H].
  - left. split; [| lia].
    symmetry. apply (Nat.mod_unique (S c) 60 (S (c / 60)) 0); lia.
  - right.
    assert (S c mod 60 = S (c mod 60)) as ->.
    { symmetry.
      apply (Nat.mod_unique (S c) 60 (c / 60) (S (c mod 60))); lia. }
    split; lia.
Qed.

(** The course of a session for a standing target. *)
Lemma standing_play {T : THREE} (t : ObjId) (aim : Aim) (actions : list Action) :
  forall w w',
    standing t w -> play aim actions w = Some w' ->
    standing t w'
    /\ isLoaded w' = isLoaded w
    /\ (mapHas t (targetColliders w) = true
        \/ In Scan actions
        \/ (isLoaded w = true /\ untilScan w <= tickCount actions) ->
        mapHas t (targetColliders w') = true).
Proof.
  induction actions as [| a rest IH]; intros w w' Hw Hrun; simpl in Hrun.
  - injection Hrun as <-. split; [exact Hw |]. split; [reflexivity |].
    intros [H | [[] | [_ H]]]; [exact H |].
    unfold untilScan in H. cbn [tickCount] in H.
    pose proof (Nat.mod_upper_bound (scanCounter w) 60 ltac:(lia)). lia.
  - destruct (act aim a w) as [w1 |] eqn:Ha; [| discriminate].
    destruct a as [e | dt |]; simpl in Ha.
    + injection Ha as <-.
      destruct (standing_dispatch t e w) as (H1 & Hr).
      injection Hr as H2 H3 H4.
      destruct (IH _ _ (H1 Hw) Hrun) as (H5 & H6 & H7).
      split; [exact H5 |]. split; [congruence |].
      intros H. apply H7. rewrite H2, H4. unfold untilScan in *. rewrite H3.
      destruct H as [H | [[[=] | H] | H]]; auto.
    + destruct (standing_update t aim dt w w1 Hw Ha) as (H1 & H2 & H3 & H4).
      destruct (IH _ _ H1 Hrun) as (H5 & H6 & H7).
      split; [exact H5 |]. split; [congruence |].
      intros [H | [[[=] | H] | [Hl H]]]; apply H7; auto.
      destruct (H4 Hl) as (Hc & Hscan).
      unfold untilScan in *. rewrite Hc, H2.
      destruct (frames_until_scan (scanCounter w)) as [[E _] | [_ E]].
      * left. apply Hscan, E.
      * right. right. split; [exact Hl |]. cbn [tickCount] in H. lia.
    + injection Ha as <-.
      destruct (standing_scanForNewTargets t w Hw) as (H1 & H2 & H4 & H3).
      destruct (IH _ _ H1 Hrun) as (H5 & H6 & H7).
      split; [exact H5 |]. split; [congruence |].
      intros _. apply H7. left. exact H2.
Qed.

Lemma play_total {T : THREE} (aim : Aim) (actions : list Action) (w : State) :
  exists w', play aim actions w = Some w'.
Proof.
  destruct (play_invariant (fun _ => True) aim (fun a w => act_total aim a w)
              actions w I) as (w' & E & _).
  eauto.
Qed.

(** X23. The weapon never drops the collider of a target that stands in
    the scene: whatever is clicked, shot, hit, reloaded or scanned, the run
    completes, the target still stands and it is still registered. *)
Theorem standing_target_keeps_collider {T : THREE} (aim : Aim)
    (actions : list Action) (w : State) (t : ObjId) :
  standing t w ->
  mapHas t (targetColliders w) = true ->
  exists w',
    play aim actions w = Some w'
    /\ standing t w'
    /\ mapHas t (targetColliders w') = true.
Proof.
  intros Hw Hm. destruct (play_total aim actions w) as (w' & Hrun).
  exists w'. split; [exact Hrun |].
  destruct (standing_play t aim actions w w' Hw Hrun) as (H1 & _ & H2).
  split; [exact H1 | apply H2; left; exact Hm].
Qed.

Lemma unscanned_standing : standing 0 unscanned.
Proof.
  unfold standing.
  split; [vm_compute; reflexivity |]. split; [vm_compute; reflexivity |].
  split; [vm_compute; lia |]. split; [vm_compute; tauto |]. split.
  - intros m c H.
    assert (E : bulletColliders unscanned = ∅) by (vm_compute; reflexivity).
    rewrite E, lookup_empty in H. discriminate.
  - intros e H.
    assert (E : targetColliders unscanned = []) by (vm_compute; reflexivity).
    rewrite E in H. destruct H.
Qed.

Lemma standing_target_keeps_collider_witness :
  mapHas 0 (targetColliders (scanForNewTargets unscanned)) = true
  /\ exists w',
       play (T := boxCaster) ahead session (scanForNewTargets unscanned) = Some w'
       /\ standing 0 w'
       /\ mapHas 0 (targetColliders w') = true.
Proof.
  destruct (standing_scanForNewTargets 0 unscanned unscanned_standing)
    as (Hs & Hm & _).
  split; [exact Hm |].
  exact (standing_target_keeps_collider (T := boxCaster) ahead session
           (scanForNewTargets unscanned) 0 Hs Hm).
Defined.

(** X24. A flagged target that stands in the scene of a loaded weapon has
    a collider at the latest after 60 frames, whatever else happens
    meanwhile: [update] scans on every frame whose counter is a multiple
    of 60, and nothing after the scan takes the collider away. *)
Theorem standing_target_registered_within_60_frames {T : THREE} (aim : Aim)
    (actions : list Action) (w : State) (t : ObjId) :
  isLoaded w = true ->
  standing t w ->
  60 <= tickCount actions ->
  exists w',
    play aim actions w = Some w'
    /\ standing t w'
    /\ mapHas t (targetColliders w') = true.
Proof.
  intros Hl Hw Hn. destruct (play_total aim actions w) as (w' & Hrun).
  exists w'. split; [exact Hrun |].
  destruct (standing_play t aim actions w w' Hw Hrun) as (H1 & _ & H2).
  split; [exact H1 |]. apply H2. right. right. split; [exact Hl |].
  unfold untilScan. lia.
Qed.

Lemma standing_target_registered_within_60_frames_witness :
  mapHas 0 (targetColliders unscanned) = false
  /\ exists w',
       play (T := boxCaster) ahead heldSecond unscanned = Some w'
       /\ standing 0 w'
       /\ mapHas 0 (targetColliders w') = true.
Proof.
  split; [vm_compute; reflexivity |].
  apply (standing_target_registered_within_60_frames (T := boxCaster) ahead
           heldSecond unscanned 0).
  - vm_compute. reflexivity.
  - exact unscanned_standing.
  - unfold heldSecond. cbn [tickCount].
    assert (E : forall n q, tickCount (List.repeat (Tick q) n) = n).
    { induction n as [| n IH]; intros q; simpl; [| rewrite IH]; reflexivity. }
    rewrite E. lia.
Defined.

End Tracking.


(** ** Remote players of a snapshot *)

Module PlayerProofs.

Import Weapon Scene Snapshots SceneProofs SnapshotProofs.

Lemma playerId_createRemotePlayers (l : list PlayerData) (s : State) :
  playerId (fold_left createRemotePlayer l s) = playerId s.
Proof.
  apply WeaponProofs.fold_left_preserves. intros a b.
  unfold createRemotePlayer. destruct (String.eqb _ _);
    try destruct (remotePlayerThrows _ _); reflexivity.
Qed.

Lemma remotePlayerThrows_createRemotePlayers (l : list PlayerData) (s : State) :
  remotePlayerThrows (fold_left createRemotePlayer l s) = remotePlayerThrows s.
Proof.
  apply WeaponProofs.fold_left_preserves. intros a b.
  unfold createRemotePlayer. destruct (String.eqb _ _);
    try destruct (remotePlayerThrows _ _); reflexivity.
Qed.

(** The entries of [remotePlayers] after one player of a snapshot was
    visited. *)
Lemma remotePlayers_createRemotePlayer (p : PlayerData) (s : State)
    (id : string) :
  is_Some (remotePlayers (createRemotePlayer s p) !! id) <->
  is_Some (remotePlayers s !! id)
  \/ (id <> playerId s /\ pd_id p = id /\ remotePlayerThrows s p = false).
Proof.
  unfold createRemotePlayer.
  destruct (String.eqb (pd_id p) (playerId s)) eqn:E.
  - apply String.eqb_eq in E. split; [auto |].
    intros [H | (H1 & H2 & _)]; [exact H | congruence].
  - destruct (remotePlayerThrows s p) eqn:Ethrow.
    + split; [auto |]. intros [H | (_ & _ & H)]; [exact H | discriminate].
    + apply String.eqb_neq in E. cbn [remotePlayers set_remotePlayers].
      destruct (decide (pd_id p = id)) as [Heq | Hne].
      * subst id. rewrite lookup_insert_eq. split; [| eauto].
        intros _. right. auto.
      * rewrite lookup_insert_ne by exact Hne. split; [auto |].
        intros [H | (_ & H & _)]; [exact H | contradiction].
Qed.

(** The entries of [remotePlayers] after the players of a snapshot were
    visited. *)
Lemma remotePlayers_createRemotePlayers (l : list PlayerData) (s : State)
    (id : string) :
  is_Some (remotePlayers (fold_left createRemotePlayer l s) !! id) <->
  is_Some (remotePlayers s !! id)
  \/ (id <> playerId s
      /\ exists p, In p l /\ pd_id p = id /\ remotePlayerThrows s p = false).
Proof.
  revert s. induction l as [| p l IH]; intros s; simpl.
  - split; [auto |]. intros [H | (_ & q & [] & _)]. exact H.
  - rewrite IH, remotePlayers_createRemotePlayer.
    assert (Hid : playerId (createRemotePlayer s p) = playerId s).
    { unfold createRemotePlayer. destruct (String.eqb _ _);
        try destruct (remotePlayerThrows _ _); reflexivity. }
    assert (Hth : remotePlayerThrows (createRemotePlayer s p) =
                  remotePlayerThrows s).
    { unfold createRemotePlayer. destruct (String.eqb _ _);
        try destruct (remotePlayerThrows _ _); reflexivity. }
    rewrite Hid, Hth. split.
    + intros [[H | (H1 & H2 & H3)] | (H1 & q & H2 & H3 & H4)].
      * left. exact H.
      * right. split; [exact H1 |]. exists p. auto.
      * right. split; [exact H1 |]. exists q. auto.
    + intros [H | (H1 & q & [-> | H2] & H3 & H4)].
      * left. left. exact H.
      * left. right. auto.
      * right. split; [exact H1 |]. exists q. auto.
Qed.

Lemma remotePlayers_processGameState (s : State) (gameState : GameState) :
  pendingGameState s = Some gameState ->
  ready s = true ->
  remotePlayers (processGameState s) =
    remotePlayers (fold_left createRemotePlayer (gs_players gameState) s)
  /\ playerId (processGameState s) = playerId s.
Proof.
  intros Hp Hr. unfold ready in Hr.
  destruct (targetManager s) as [tm |] eqn:Htm; [| discriminate].
  destruct (gs_targets gameState) as [| x l] eqn:Ht.
  - rewrite (processGameState_without_targets s gameState tm Hp Htm Hr Ht).
    cbn [remotePlayers playerId set_pendingGameState set_targetManager].
    split; [reflexivity | apply playerId_createRemotePlayers].
  - rewrite (processGameState_with_targets s gameState tm Hp Htm Hr)
      by (rewrite Ht; discriminate).
    unfold scanTargets.
    destruct (weaponAvailable _);
      cbn [remotePlayers playerId set_pendingGameState set_targetManager
           setTimeout set_timers];
      (split; [reflexivity | apply playerId_createRemotePlayers]).
Qed.

(** X25. Processing a snapshot adds to [remotePlayers] exactly the players
    of the snapshot that are not the local one and for which
    [new RemotePlayer] did not throw: an identifier has an entry
    afterwards if and only if it had one before or it belongs to such a
    player. In particular the local player gets no entry, and a player
    whose construction fails is skipped without stopping the others. *)
Theorem snapshot_players_exclude_local (s : State) (gameState : GameState)
    (id : string) :
  pendingGameState s = Some gameState ->
  ready s = true ->
  playerId (processGameState s) = playerId s
  /\ (is_Some (remotePlayers (processGameState s) !! id) <->
      is_Some (remotePlayers s !! id)
      \/ (id <> playerId s
          /\ exists p, In p (gs_players gameState) /\ pd_id p = id
                       /\ remotePlayerThrows s p = false)).
Proof.
  intros Hp Hr.
  destruct (remotePlayers_processGameState s gameState Hp Hr) as (-> & ->).
  split; [reflexivity | apply remotePlayers_createRemotePlayers].
Qed.

Lemma snapshot_players_exclude_local_witness :
  remotePlayers (processGameState arrived) !! "me" = None
  /\ is_Some (remotePlayers (processGameState arrived) !! "you")
  /\ remotePlayers (processGameState unbuildable) !! "you" = None.
Proof.
  destruct arrived_ready as (Hp & Hr & _).
  split; [| split].
  - destruct (snapshot_players_exclude_local arrived sampleGameState "me"
                Hp Hr) as (_ & H).
    destruct (remotePlayers (processGameState arrived) !! "me") eqn:E;
      [| reflexivity].
    exfalso. destruct H as [H _].
    destruct (H ltac:(eauto)) as [[x Hx] | [Hne _]].
    + discriminate Hx.
    + apply Hne. reflexivity.
  - destruct (snapshot_players_exclude_local arrived sampleGameState "you"
                Hp Hr) as (_ & H).
    apply H. right. split; [discriminate |].
    exists (mkPlayerData "you" vzero).
    split; [right; left; reflexivity |]. split; reflexivity.
  - destruct (snapshot_players_exclude_local unbuildable sampleGameState "you"
                eq_refl eq_refl) as (_ & H).
    destruct (remotePlayers (processGameState unbuildable) !! "you") eqn:E;
      [| reflexivity].
    exfalso. destruct H as [H _].
    destruct (H ltac:(eauto)) as [[x Hx] | (_ & q & Hin & Hid & Hthrow)].
    + discriminate Hx.
    + destruct Hin as [<- | [<- | []]]; [discriminate Hid | discriminate Hthrow].
Defined.

End PlayerProofs.


(* ===================================================================== *)
(** * Part IX: the swept collision test *)
(* ===================================================================== *)

Module SweepProofs.

Import Weapon Controls WeaponProofs WeaponInvariants Removal Tracking.

Section Swept.

Context {T : THREE}.

(** The test of a bullet that has a collider and has moved: one ray cast
    over the target colliders and, when that finds nothing, one over the
    environment, both along the segment of the move. *)
Lemma check_swept (b : Bullet) (dt : Q) (w : State) (bc : ObjId) :
  bulletColliders w !! mesh b = Some bc ->
  ~ (vlength (subVectors (nextPosition b dt w) (positionOf b w)) == 0)%Q ->
  let ray := sweepRay (positionOf b w) (nextPosition b dt w) in
  let wa := advance b dt w in
  checkBulletColliderCollision b (positionOf b w) wa =
    match intersectObjects (heap wa) ray (targetColliderList wa) false with
    | hit :: _ => (resolveTargetHit b bc hit wa, true)
    | [] =>
        match intersectObjects (heap wa) ray (environmentTargets wa) true with
        | hit :: _ => (removeAfterHit b (snapToHit b bc hit wa), true)
        | [] => (wa, false)
        end
    end.
Proof.
  intros Hbc Hd. cbv zeta. unfold checkBulletColliderCollision.
  rewrite bulletColliders_advance, Hbc.
  change (position (getObj (advance b dt w) (mesh b)))
    with (positionOf b (advance b dt w)).
  rewrite position_advance.
  destruct (Qeq_bool _ 0) eqn:E; [apply Qeq_bool_iff in E; contradiction |].
  reflexivity.
Qed.

(** The steps for the bullets behind index [i] leave the bullets up to
    [i] in their places. *)
Lemma lookup_bulletStep_below (i j : nat) (b : Bullet) (dt : Q) (w : State) :
  NoDup (meshes w) -> activeBullets w !! j = Some b -> i < j ->
  activeBullets (bulletStep j b dt w) !! i = activeBullets w !! i.
Proof.
  intros Hnd Hj Hij.
  destruct (lookup_lt_is_Some_2 (activeBullets w) i) as [x Hx].
  { apply lookup_lt_Some in Hj. lia. }
  assert (Hne : mesh x <> mesh b).
  { intros Heq. pose proof (lookup_mesh_inj _ i j x b Hnd Hx Hj Heq). lia. }
  pose proof (setLife_lookup_other _ _ _ _ (life b - dt) Hx Hne) as Hl.
  rewrite Hx.
  destruct (activeBullets_bulletStep_at j b dt w Hnd Hj) as [[_ E] | [E | E]];
    rewrite E.
  - exact Hl.
  - rewrite list_lookup_delete_lt by lia. exact Hl.
  - rewrite !list_lookup_delete_lt by lia. exact Hl.
Qed.

(** The loop of [updateBullets] reaches every bullet of the array. *)
Lemma loop_reaches (dt : Q) (i : nat) (b : Bullet) (k : nat) (w : State) :
  NoDup (meshes w) -> i < k -> k <= length (activeBullets w) ->
  activeBullets w !! i = Some b ->
  exists wi,
    NoDup (meshes wi)
    /\ (forall j, j <= i -> activeBullets wi !! j = activeBullets w !! j)
    /\ targetColliders wi = targetColliders w
    /\ updateBulletsFrom k dt w = updateBulletsFrom (S i) dt wi
    /\ (k = S i -> wi = w).
Proof.
  revert w. induction k as [| k IH]; intros w Hnd Hik Hk Hi; [lia |].
  destruct (decide (k = i)) as [-> | Hne].
  - exists w. repeat split; auto.
  - destruct (lookup_lt_is_Some_2 (activeBullets w) k) as [b' Hb']; [lia |].
    destruct (IH (bulletStep k b' dt w)) as (wi & H1 & H2 & H3 & H4 & _).
    + eapply sublist_NoDup; [exact Hnd | apply meshes_bulletStep].
    + lia.
    + apply length_bulletStep. lia.
    + rewrite lookup_bulletStep_below by (assumption || lia). exact Hi.
    + exists wi. split; [exact H1 |]. split; [| split; [| split]].
      * intros j Hj. rewrite H2 by exact Hj.
        apply lookup_bulletStep_below; [assumption .. | lia].
      * rewrite H3.
        exact (f_equal (fun r => fst (fst r)) (registry_bulletStep k b' dt w)).
      * simpl. rewrite Hb'. exact H4.
      * intros Heq. lia.
Qed.

(** What has left the array, or lost its collider, stays so until the end
    of the loop. *)
Lemma gone_updateBulletsFrom (m : ObjId) (dt : Q) (k : nat) (w w' : State) :
  NoDup (meshes w) ->
  updateBulletsFrom k dt w = Some w' ->
  (~ In m (meshes w) -> ~ In m (meshes w'))
  /\ (bulletColliders w !! m = None -> bulletColliders w' !! m = None).
Proof.
  revert w. induction k as [| i IH]; intros w Hnd Hrun; simpl in Hrun.
  - injection Hrun as <-. auto.
  - destruct (activeBullets w !! i) as [b |] eqn:Hb; [| discriminate].
    destruct (IH (bulletStep i b dt w)) as (H1 & H2).
    + eapply sublist_NoDup; [exact Hnd | apply meshes_bulletStep].
    + exact Hrun.
    + split.
      * intros Hm. apply H1. intros Hin. apply Hm.
        eapply sublist_In; [apply meshes_bulletStep | exact Hin].
      * intros Hc. apply H2.
        destruct (bulletStep_frame i b dt w Hnd Hb) as (_ & [-> | [-> _]]);
          [exact Hc |].
        destruct (decide (mesh b = m)) as [-> | Hne];
          [apply lookup_delete_eq | rewrite lookup_delete_ne by exact Hne; exact Hc].
Qed.

(** A step whose test reports a hit takes the bullet out of the array and
    its collider out of the map. *)
Lemma bulletStep_hit_gone (i : nat) (b : Bullet) (dt : Q) (w : State) :
  NoDup (meshes w) ->
  snd (checkBulletColliderCollision b (positionOf b w) (advance b dt w)) = true ->
  ~ In (mesh b) (meshes (bulletStep i b dt w))
  /\ bulletColliders (bulletStep i b dt w) !! mesh b = None.
Proof.
  intros Hnd Hhit. rewrite bulletStep_advance. cbv zeta.
  destruct (checkBulletColliderCollision b (positionOf b w) (advance b dt w))
    as [w1 r] eqn:E.
  cbn [snd] in Hhit. subst r. cbn [fst].
  destruct (check_hit b (positionOf b w) (advance b dt w) w1 E)
    as (c & w2 & _ & -> & Ha & _).
  assert (Hmg : ~ In (mesh b) (meshes (removeAfterHit b w2))).
  { apply removeAfterHit_mesh_gone. unfold meshes.
    rewrite Ha, activeBullets_advance. exact Hnd. }
  pose proof (removeAfterHit_collider_gone b w2) as Hcg.
  set (wr := removeAfterHit b w2) in *. clearbody wr.
  destruct (Qle_bool (life b - dt) 0).
  - split.
    + unfold meshes in *.
      rewrite activeBullets_set_activeBullets.
      eapply sublist_not_In; [apply sublist_map, sublist_delete |].
      rewrite activeBullets_sceneRemove, activeBullets_removeBulletCollider,
        activeBullets_set_activeBullets, map_mesh_setLife.
      exact Hmg.
    + rewrite bulletColliders_set_activeBullets, bulletColliders_sceneRemove.
      apply removeBulletCollider_gone.
  - split.
    + unfold meshes in *. rewrite activeBullets_set_activeBullets,
        map_mesh_setLife. exact Hmg.
    + rewrite bulletColliders_set_activeBullets. exact Hcg.
Qed.


End Swept.



End SweepProofs.
